(** * Receipt scanner and anime converter: a shallow embedding

    The development follows [TestApp/App.tsx] (the receipt-scanning budget
    tracker) and the anime converter's [App] component.

    How the program's data and effects are represented:
    - JavaScript strings are sequences of UTF-16 code units: [jsstring].
    - JavaScript numbers are IEEE-754 binary64 values: Rocq's primitive
      [float], whose operations are specified by [SpecFloat].
    - Objects are property lists, arrays are lists.
    - React state is a record; every handler is a function from the state
      of the render it closes over to the next state.
    - [RegExp] objects are mutable (their [lastIndex]) and live in a heap.

    The language's built-ins that the program calls are written out after
    ECMAScript: [parseFloat], the pattern matcher and [exec], [Set],
    [Array.prototype.sort], [JSON.stringify] and [JSON.parse]. What the
    platform provides ([AsyncStorage], [Alert], [Date], [Math.random], the
    inference session) is a parameter of the functions that use it.

    The file has three parts: the program, the vocabulary of its
    properties, and the properties with their proofs. *)

From Stdlib Require Import ZArith NArith PArith List Bool Lia String Ascii Sorted.
From Stdlib Require Import Floats DecimalString.
Import ListNotations.

Set Warnings "-inexact-float,-register-all".

(** ** Strings *)

Definition code_unit := N.
Definition jsstring := list code_unit.

Definition str (s : string) : jsstring :=
  List.map N_of_ascii (list_ascii_of_string s).

Definition cu (a : ascii) : code_unit := N_of_ascii a.

Fixpoint jsstring_eqb (a b : jsstring) : bool :=
  match a, b with
  | [], [] => true
  | x :: a', y :: b' => N.eqb x y && jsstring_eqb a' b'
  | _, _ => false
  end.

Fixpoint starts_with (p s : jsstring) : option jsstring :=
  match p, s with
  | [], _ => Some s
  | x :: p', y :: s' => if N.eqb x y then starts_with p' s' else None
  | _ :: _, [] => None
  end.

(** ** Numbers *)

Module Number.

Definition isNaN (x : float) : bool := PrimFloat.is_nan x.

(** Decimal digit [0-9]. *)
Definition is_digit (c : code_unit) : bool := (48 <=? c)%N && (c <=? 57)%N.
Definition digit_val (c : code_unit) : N := (c - 48)%N.

(** [WhiteSpace] and [LineTerminator] of ECMAScript (what [\s] and the
    trimming of [parseFloat] recognise). *)
Definition is_line_terminator (c : code_unit) : bool :=
  (c =? 10)%N || (c =? 13)%N || (c =? 8232)%N || (c =? 8233)%N.

Definition is_white_space (c : code_unit) : bool :=
  (c =? 9)%N || (c =? 11)%N || (c =? 12)%N || (c =? 32)%N || (c =? 160)%N
  || (c =? 5760)%N || ((8192 <=? c)%N && (c <=? 8202)%N)
  || (c =? 8239)%N || (c =? 8287)%N || (c =? 12288)%N || (c =? 65279)%N.

Definition is_space (c : code_unit) : bool :=
  is_white_space c || is_line_terminator c.

Fixpoint trim_start (s : jsstring) : jsstring :=
  match s with
  | c :: s' => if is_space c then trim_start s' else s
  | [] => []
  end.

(** The longest run of decimal digits at the head of [s], as digit values,
    and what follows it. *)
Fixpoint take_digits (s : jsstring) : list N * jsstring :=
  match s with
  | c :: s' =>
      if is_digit c
      then let '(ds, r) := take_digits s' in (digit_val c :: ds, r)
      else ([], s)
  | [] => ([], [])
  end.

Definition digits_value (ds : list N) : N :=
  fold_left (fun acc d => (10 * acc + d)%N) ds 0%N.

(** The binary64 value nearest to [m * 10^e10] (ties to even), signed by
    [neg]: the quotient of two integers, rounded once by [SFdiv]. *)
Definition of_decimal (neg : bool) (m : N) (e10 : Z) : float :=
  match m with
  | N0 => if neg then neg_zero else zero
  | Npos p =>
      let '(num, den) :=
        match e10 with
        | Zneg k => (p, Pos.pow 10 k)
        | Z0 => (p, 1%positive)
        | Zpos k => (Pos.mul p (Pos.pow 10 k), 1%positive)
        end in
      SF2Prim (SFdiv prec emax (S754_finite neg num 0) (S754_finite false den 0))
  end.

(** The optional [ExponentPart] at the head of [s]: [e] or [E], an
    optional sign and at least one digit. *)
Definition exponent_part (s : jsstring) : Z :=
  match s with
  | c :: s1 =>
      if (c =? 101)%N || (c =? 69)%N then
        let '(eneg, s2) :=
          match s1 with
          | d :: s2 => if (d =? 45)%N then (true, s2)
                       else if (d =? 43)%N then (false, s2) else (false, s1)
          | [] => (false, s1)
          end in
        match fst (take_digits s2) with
        | [] => 0%Z
        | ds => let v := Z.of_N (digits_value ds) in if eneg then (- v)%Z else v
        end
      else 0%Z
  | [] => 0%Z
  end.

(** [parseFloat] applied to a string: leading white space is skipped and
    the longest prefix that is a [StrDecimalLiteral] is converted; [NaN]
    when there is none. *)
Definition parseFloat (input : jsstring) : float :=
  let s0 := trim_start input in
  let '(neg, s1) :=
    match s0 with
    | c :: r => if (c =? 45)%N then (true, r)
                else if (c =? 43)%N then (false, r) else (false, s0)
    | [] => (false, s0)
    end in
  match starts_with (str "Infinity") s1 with
  | Some _ => if neg then neg_infinity else infinity
  | None =>
      let '(ip, s2) := take_digits s1 in
      let '(fp, s3) :=
        match s2 with
        | c :: r => if (c =? 46)%N then take_digits r else ([], s2)
        | [] => ([], s2)
        end in
      match ip, fp with
      | [], [] => nan
      | _, _ =>
          of_decimal neg (digits_value (ip ++ fp))
                     (exponent_part s3 - Z.of_nat (List.length fp))
      end
  end.

End Number.

(** ** Regular expressions

    A backtracking matcher in continuation-passing style, after the
    ECMAScript pattern semantics, for the constructs the receipt scanner's
    patterns use. *)

Module RegExp.

Inductive regex :=
| Eps
| Chr (c : code_unit)                  (* a literal character *)
| Cls (p : code_unit -> bool)          (* a class: [\d], [\s], [[\s:]] *)
| Seq (r1 r2 : regex)
| Alt (r1 r2 : regex)
| Rep (min : nat) (max : option nat) (r : regex)  (* greedy {min,max} *)
| Grp (n : nat) (r : regex)            (* capturing group number n *)
| NLook (r : regex)                    (* (?!r) *)
| Bol                                  (* ^ *)
| Eol.                                 (* $ *)

Record flags := { global : bool; ignoreCase : bool; multiline : bool }.

(** A [RegExp] object: its pattern and flags, and the mutable [lastIndex]. *)
Record object := { source : regex; flag : flags; lastIndex : nat }.

(** Match state: the end index and the captures (group, start, end),
    most recent first. *)
Record mstate := { endIndex : nat; captures : list (nat * (nat * nat)) }.

Fixpoint lookup (n : nat) (caps : list (nat * (nat * nat))) : option (nat * nat) :=
  match caps with
  | [] => None
  | (k, se) :: caps' => if Nat.eqb k n then Some se else lookup n caps'
  end.

Fixpoint groups_of (r : regex) : list nat :=
  match r with
  | Seq a b | Alt a b => groups_of a ++ groups_of b
  | Rep _ _ a | NLook a => groups_of a
  | Grp n a => n :: groups_of a
  | _ => []
  end.

Definition clear (gs : list nat) (caps : list (nat * (nat * nat))) :=
  List.filter (fun c => negb (existsb (Nat.eqb (fst c)) gs)) caps.

(** [Canonicalize] without the [u] flag. The patterns fold case on ASCII
    letters only, and a code unit of 128 or more never canonicalizes to
    one below 128, so upper-casing [a-z] decides every comparison with an
    ASCII letter. *)
Definition canonicalize (ic : bool) (c : code_unit) : code_unit :=
  if ic && (97 <=? c)%N && (c <=? 122)%N then (c - 32)%N else c.

Section Matcher.
Variable input : jsstring.
Variable f : flags.

Definition char_at (i : nat) : option code_unit := nth_error input i.

Definition at_line_start (i : nat) : bool :=
  match i with
  | 0 => true
  | S j => multiline f &&
           match char_at j with
           | Some c => Number.is_line_terminator c
           | None => false
           end
  end.

Definition at_line_end (i : nat) : bool :=
  Nat.eqb i (List.length input) ||
  (multiline f &&
   match char_at i with
   | Some c => Number.is_line_terminator c
   | None => false
   end).

Definition step_char (p : code_unit -> bool) (x : mstate)
           (k : mstate -> option mstate) : option mstate :=
  match char_at (endIndex x) with
  | Some c => if p c
              then k {| endIndex := S (endIndex x); captures := captures x |}
              else None
  | None => None
  end.

(** The greedy repetition of a matcher [ma] between [mn] and [mx] times
    ([RepeatMatcher]): the captures of the repeated pattern are cleared
    before each iteration, and an iteration that is not required must
    consume input. [fuel] bounds the number of iterations. *)
Fixpoint rep_loop (ma : mstate -> (mstate -> option mstate) -> option mstate)
         (gs : list nat) (k : mstate -> option mstate)
         (fuel mn : nat) (mx : option nat) (x : mstate)
  {struct fuel} : option mstate :=
  match mx with
  | Some 0 => k x
  | _ =>
      let iter :=
        match fuel with
        | 0 => None
        | S fuel' =>
            ma {| endIndex := endIndex x; captures := clear gs (captures x) |}
               (fun y =>
                  if Nat.eqb mn 0 && Nat.eqb (endIndex y) (endIndex x)
                  then None
                  else rep_loop ma gs k fuel' (Nat.pred mn)
                                (option_map Nat.pred mx) y)
        end in
      match mn with
      | S _ => iter
      | 0 => match iter with
             | Some z => Some z
             | None => k x
             end
      end
  end.

(** [m r x k]: match [r] at state [x] and continue with [k]; the first
    success in backtracking order, or [None]. *)
Fixpoint m (r : regex) (x : mstate) (k : mstate -> option mstate)
  {struct r} : option mstate :=
  match r with
  | Eps => k x
  | Chr c =>
      step_char (fun ch => N.eqb (canonicalize (ignoreCase f) ch)
                                 (canonicalize (ignoreCase f) c)) x k
  | Cls p => step_char p x k
  | Seq a b => m a x (fun y => m b y k)
  | Alt a b =>
      match m a x k with
      | Some z => Some z
      | None => m b x k
      end
  | Rep mn mx a =>
      rep_loop (m a) (groups_of a) k
               (mn + (List.length input - endIndex x) + 1) mn mx x
  | Grp n a =>
      m a x (fun y =>
               k {| endIndex := endIndex y;
                    captures := (n, (endIndex x, endIndex y)) :: captures y |})
  | NLook a =>
      match m a x Some with
      | Some _ => None
      | None => k x
      end
  | Bol => if at_line_start (endIndex x) then k x else None
  | Eol => if at_line_end (endIndex x) then k x else None
  end.

Definition match_at (r : regex) (i : nat) : option mstate :=
  m r {| endIndex := i; captures := [] |} Some.

(** The search of [RegExpBuiltinExec]: the first index from [i] on,
    among [n] candidates, where the pattern matches. *)
Fixpoint scan (r : regex) (n i : nat) : option (nat * mstate) :=
  match n with
  | 0 => None
  | S n' =>
      match match_at r i with
      | Some st => Some (i, st)
      | None => scan r n' (S i)
      end
  end.
End Matcher.

Definition substring (s : jsstring) (a b : nat) : jsstring :=
  firstn (b - a) (skipn a s).

(** The match array of [exec]: [index], element 0 and the numbered groups
    ([None] is [undefined]). *)
Record match_result := { index : nat; matched : jsstring;
                         groups : list (nat * (nat * nat)) }.

Definition group (input : jsstring) (res : match_result) (n : nat) : option jsstring :=
  match n with
  | 0 => Some (matched res)
  | _ => match lookup n (groups res) with
         | Some (a, b) => Some (substring input a b)
         | None => None
         end
  end.

(** [RegExp.prototype.exec]: starts at [lastIndex] when the pattern is
    global, leaves [lastIndex] at the end of the match, and resets it to
    0 when nothing matches. *)
Definition exec (o : object) (input : jsstring) : option match_result * object :=
  let start := if global (flag o) then lastIndex o else 0 in
  match scan input (flag o) (source o) (S (List.length input) - start) start with
  | Some (i, st) =>
      (Some {| index := i; matched := substring input i (endIndex st);
               groups := captures st |},
       if global (flag o)
       then {| source := source o; flag := flag o; lastIndex := endIndex st |}
       else o)
  | None =>
      (None,
       if global (flag o)
       then {| source := source o; flag := flag o; lastIndex := 0 |}
       else o)
  end.

(** Pattern syntax helpers. *)
Definition digit : regex := Cls Number.is_digit.        (* \d *)
Definition space : regex := Cls Number.is_space.        (* \s *)
Definition chr (a : ascii) : regex := Chr (cu a).
Fixpoint seq (rs : list regex) : regex :=
  match rs with
  | [] => Eps
  | [r] => r
  | r :: rs' => Seq r (seq rs')
  end.
Definition lit (s : string) : regex := seq (List.map Chr (str s)).
Definition star (r : regex) : regex := Rep 0 None r.
Definition opt (r : regex) : regex := Rep 0 (Some 1) r.
Definition rep (a b : nat) (r : regex) : regex := Rep a (Some b) r.

End RegExp.

(** ** The receipt scanner ([TestApp/App.tsx]) *)

Module TestApp.

Import RegExp.

(** *** Values *)

Inductive value :=
| Undefined
| Null
| Bool (b : bool)
| Num (x : float)
| Str (s : jsstring)
| Arr (elems : list value)
| Obj (props : list (jsstring * value)).

(** A plain object: its own properties in creation order (the records
    here have no integer-like keys, which JavaScript would list first). *)
Definition object := list (jsstring * value).

(** Property read [o.key]: [undefined] when the property is absent. *)
Fixpoint get (key : jsstring) (o : object) : value :=
  match o with
  | [] => Undefined
  | (k, v) :: o' => if jsstring_eqb k key then v else get key o'
  end.

Definition keys (o : object) : list jsstring := List.map fst o.

(** [ToBoolean]. *)
Definition truthy (v : value) : bool :=
  match v with
  | Undefined | Null => false
  | Bool b => b
  | Num x => negb ((x =? 0)%float || Number.isNaN x)
  | Str s => match s with [] => false | _ => true end
  | Arr _ | Obj _ => true
  end.

(** [a || b]. *)
Definition or_else (a b : value) : value := if truthy a then a else b.

(** Strict equality [===]. Two objects are equal when they are the same
    reference; values here carry no identity, and the identifiers compared
    with it are strings. *)
Definition strict_equals (a b : value) : bool :=
  match a, b with
  | Undefined, Undefined => true
  | Null, Null => true
  | Bool x, Bool y => Bool.eqb x y
  | Num x, Num y => (x =? y)%float
  | Str x, Str y => jsstring_eqb x y
  | _, _ => false
  end.

(** The global [parseFloat] on any value: [ToString], then the string
    parse. [Number::toString] prints a number as a decimal literal that
    denotes it (and both zeros as "0"), so a number parses back to itself.
    An array prints its elements separated by commas, so its first element
    decides; every other value prints as a word that is no literal. *)
Fixpoint parseFloat (v : value) : float :=
  match v with
  | Str s => Number.parseFloat s
  | Num x => if (x =? 0)%float then zero else x
  | Arr (e :: _) =>
      match e with
      | Undefined | Null => nan
      | _ => parseFloat e
      end
  | _ => nan
  end.

(** *** JSON

    A stored string is represented by the JSON document it denotes. *)

Inductive json :=
| JNull
| JBool (b : bool)
| JNum (x : float)
| JStr (s : jsstring)
| JArr (elems : list json)
| JObj (members : list (jsstring * json)).

(** [SerializeJSONProperty]: [None] is [undefined] (nothing is written).
    A number that is not finite is written as [null]; a property whose
    value is [undefined] is left out; [undefined] in an array is [null]. *)
Fixpoint serialize (v : value) : option json :=
  match v with
  | Undefined => None
  | Null => Some JNull
  | Bool b => Some (JBool b)
  | Num x => Some (if is_finite x
                   then JNum (if (x =? 0)%float then zero else x)
                   else JNull)
  | Str s => Some (JStr s)
  | Arr l =>
      Some (JArr (List.map (fun e => match serialize e with
                                     | Some j => j
                                     | None => JNull
                                     end) l))
  | Obj ps =>
      Some (JObj (List.flat_map (fun kv => match serialize (snd kv) with
                                           | Some j => [(fst kv, j)]
                                           | None => []
                                           end) ps))
  end.

Fixpoint revive (j : json) : value :=
  match j with
  | JNull => Null
  | JBool b => Bool b
  | JNum x => Num x
  | JStr s => Str s
  | JArr l => Arr (List.map revive l)
  | JObj ms => Obj (List.map (fun kv => (fst kv, revive (snd kv))) ms)
  end.

Module JSON.
Definition stringify (v : value) : option json := serialize v.
Definition parse (text : json) : value := revive text.
End JSON.

(** *** Outcomes of running code *)

Inductive outcome (A : Type) :=
| Ok (a : A)          (* normal completion *)
| TypeError           (* a property read on [undefined] *)
| OutOfFuel.          (* the loop did not finish within its bound *)
Arguments Ok {A} a.
Arguments TypeError {A}.
Arguments OutOfFuel {A}.

(** *** The heap of [RegExp] objects *)

Definition loc := nat.
Definition heap := list RegExp.object.

Definition alloc (o : RegExp.object) (h : heap) : loc * heap :=
  (List.length h, h ++ [o]).

Fixpoint store (h : heap) (l : loc) (o : RegExp.object) : heap :=
  match h, l with
  | [], _ => []
  | _ :: h', 0 => o :: h'
  | a :: h', S l' => a :: store h' l' o
  end.

(** [pattern.exec(text)] on the object at [pattern]; [None] when there is
    no such object. *)
Definition exec_at (pattern : loc) (text : jsstring) (h : heap)
  : option (option match_result * heap) :=
  match nth_error h pattern with
  | Some o => let '(r, o') := RegExp.exec o text in Some (r, store h pattern o')
  | None => None
  end.

(** *** [Set] of numbers: insertion order, [SameValueZero] membership *)

Definition same_value_zero (x y : float) : bool :=
  (x =? y)%float || (Number.isNaN x && Number.isNaN y).

Definition Set_has (s : list float) (x : float) : bool :=
  existsb (fun y => same_value_zero y x) s.

Definition Set_add (s : list float) (x : float) : list float :=
  if Set_has s x then s else s ++ [x].

Definition Array_from (s : list float) : list float := s.

(** *** [Array.prototype.sort]

    The order of a sort with a consistent comparator is fixed by the
    language (a stable sort); it is produced here by insertion. An
    element moves in front of another when the comparator is positive. *)
Section Sort.
Variable comparefn : float -> float -> float.

Fixpoint insert (x : float) (sorted : list float) : list float :=
  match sorted with
  | [] => [x]
  | y :: rest =>
      if (0 <? comparefn y x)%float
      then x :: y :: rest
      else y :: insert x rest
  end.

Definition sort (l : list float) : list float :=
  List.fold_left (fun acc x => insert x acc) l [].
End Sort.

(** *** [extractAmountsFromText] *)

(** The patterns, with spaces between their parts.

    [$12.34], [$1,234.56]:   \$ ( \d{1,3} (?: , \d{3} )* \. \d{2} )   flag g *)
Definition pattern_dollars_cents : RegExp.object :=
  {| source :=
       seq [chr "$";
            Grp 1 (seq [rep 1 3 digit;
                        star (seq [chr ","; rep 3 3 digit]);
                        chr "."; rep 2 2 digit])];
     flag := {| global := true; ignoreCase := false; multiline := false |};
     lastIndex := 0 |}.

(** [$12], [$1,234]:   \$ ( \d{1,3} (?: , \d{3} )* ) (?! \. \d )   flag g *)
Definition pattern_whole_dollars : RegExp.object :=
  {| source :=
       seq [chr "$";
            Grp 1 (seq [rep 1 3 digit;
                        star (seq [chr ","; rep 3 3 digit])]);
            NLook (seq [chr "."; digit])];
     flag := {| global := true; ignoreCase := false; multiline := false |};
     lastIndex := 0 |}.

(** [12.34], [123.45]:   (?: ^ | \s ) ( \d{1,4} \. \d{2} ) (?: \s | $ )   flags gm *)
Definition pattern_bare_cents : RegExp.object :=
  {| source :=
       seq [Alt Bol space;
            Grp 1 (seq [rep 1 4 digit; chr "."; rep 2 2 digit]);
            Alt space Eol];
     flag := {| global := true; ignoreCase := false; multiline := true |};
     lastIndex := 0 |}.

(** After a keyword:
    (?: total | subtotal | amount | due ) [\s:]* \$?
    ( \d{1,4} (?: , \d{3} )* \.? \d{0,2} )   flags gi *)
Definition pattern_after_keyword : RegExp.object :=
  {| source :=
       seq [Alt (lit "total") (Alt (lit "subtotal") (Alt (lit "amount") (lit "due")));
            star (Cls (fun c => Number.is_space c || (c =? 58)%N));
            opt (chr "$");
            Grp 1 (seq [rep 1 4 digit;
                        star (seq [chr ","; rep 3 3 digit]);
                        opt (chr "."); rep 0 2 digit])];
     flag := {| global := true; ignoreCase := true; multiline := false |};
     lastIndex := 0 |}.

(** [amount.replace(/,/g, '')] *)
Definition remove_commas (s : jsstring) : jsstring :=
  List.filter (fun c => negb (c =? 44)%N) s.

(** The [while ((match = pattern.exec(text)) !== null)] loop for one
    pattern; [fuel] bounds the number of calls to [exec]. *)
Fixpoint while_exec (fuel : nat) (pattern : loc) (text : jsstring)
         (amounts : list float) (h : heap) : outcome (list float) * heap :=
  match fuel with
  | 0 => (OutOfFuel, h)
  | S fuel' =>
      match exec_at pattern text h with
      | None => (TypeError, h)
      | Some (None, h') => (Ok amounts, h')
      | Some (Some match_, h') =>
          match RegExp.group text match_ 1 with
          | None => (TypeError, h')
          | Some g =>
              let amount := remove_commas g in
              let numAmount := Number.parseFloat amount in
              let amounts' :=
                if negb (Number.isNaN numAmount) && (0 <? numAmount)%float
                   && (numAmount <? 10000)%float
                then Set_add amounts numAmount
                else amounts in
              while_exec fuel' pattern text amounts' h'
          end
      end
  end.

(** [patterns.forEach(pattern => ...)] *)
Fixpoint forEach (patterns : list loc) (text : jsstring)
         (amounts : list float) (h : heap) : outcome (list float) * heap :=
  match patterns with
  | [] => (Ok amounts, h)
  | pattern :: rest =>
      match while_exec (List.length text + 2) pattern text amounts h with
      | (Ok amounts', h') => forEach rest text amounts' h'
      | (e, h') => (e, h')
      end
  end.

Definition extractAmountsFromText (text : jsstring) (h : heap)
  : outcome (list float) * heap :=
  let amounts := [] in
  let '(p1, h1) := alloc pattern_dollars_cents h in
  let '(p2, h2) := alloc pattern_whole_dollars h1 in
  let '(p3, h3) := alloc pattern_bare_cents h2 in
  let '(p4, h4) := alloc pattern_after_keyword h3 in
  let patterns := [p1; p2; p3; p4] in
  match forEach patterns text amounts h4 with
  | (Ok amounts', h') =>
      (Ok (sort (fun a b => (b - a)%float) (Array_from amounts')), h')
  | (e, h') => (e, h')
  end.

(** *** Application state *)

(** The component's state variables. *)
Record State := {
  receiptPhoto : value;              (* [null] or the uri of the picked asset *)
  extractedText : jsstring;
  detectedAmounts : list float;
  selectedAmount : jsstring;
  merchant : jsstring;
  expenses : list object;
  totalSpent : float;
  isProcessing : bool
}.

(** What the 'Add' button of the confirmation dialog closes over. *)
Record pending := {
  p_amount : float;
  p_merchantName : jsstring;
  p_expenses : list object;
  p_receiptPhoto : value;
  p_extractedText : jsstring
}.

(** Calls to [Alert.alert], by title. The message of the confirmation
    and of the success alert shows the amount with two decimals. *)
Inductive alert :=
| InvalidAmount                (* 'Invalid Amount' *)
| AddExpense (c : pending)     (* 'Add Expense', with 'Cancel' and 'Add' *)
| Success (amount : float).    (* 'Success' *)

(** The application and what it acts on: the key-value store
    ([AsyncStorage]), the alerts shown and the errors logged. *)
Record World := {
  state : State;
  storage : jsstring -> option json;
  alerts : list alert;
  errors : list string
}.

Definition with_state (f : State -> State) (w : World) : World :=
  {| state := f (state w); storage := storage w;
     alerts := alerts w; errors := errors w |}.

Definition Alert_alert (a : alert) (w : World) : World :=
  {| state := state w; storage := storage w;
     alerts := alerts w ++ [a]; errors := errors w |}.

Definition console_error (msg : string) (w : World) : World :=
  {| state := state w; storage := storage w;
     alerts := alerts w; errors := errors w ++ [msg] |}.

Definition setExpenses (l : list object) (st : State) : State :=
  {| receiptPhoto := receiptPhoto st; extractedText := extractedText st;
     detectedAmounts := detectedAmounts st; selectedAmount := selectedAmount st;
     merchant := merchant st; expenses := l;
     totalSpent := totalSpent st; isProcessing := isProcessing st |}.

Definition setTotalSpent (t : float) (st : State) : State :=
  {| receiptPhoto := receiptPhoto st; extractedText := extractedText st;
     detectedAmounts := detectedAmounts st; selectedAmount := selectedAmount st;
     merchant := merchant st; expenses := expenses st;
     totalSpent := t; isProcessing := isProcessing st |}.

(** The state a fresh component starts from, with nothing stored. *)
Definition initial : World :=
  {| state := {| receiptPhoto := Null; extractedText := []; detectedAmounts := [];
                 selectedAmount := []; merchant := []; expenses := [];
                 totalSpent := 0%float; isProcessing := false |};
     storage := fun _ => None;
     alerts := [];
     errors := [] |}.

(** [AsyncStorage.setItem] and [getItem], when the platform call
    resolves. *)
Definition setItem (key : jsstring) (v : json) (sto : jsstring -> option json)
  : jsstring -> option json :=
  fun k => if jsstring_eqb k key then Some v else sto k.

Definition getItem (key : jsstring) (sto : jsstring -> option json) : option json :=
  sto key.

(** An array of objects as a value, and back. *)
Definition of_list (l : list object) : value := Arr (List.map Obj l).

Fixpoint to_list (l : list value) : option (list object) :=
  match l with
  | [] => Some []
  | Obj o :: l' => option_map (cons o) (to_list l')
  | _ :: _ => None
  end.

(** [calculateTotal]: the reduction, and the state update. *)
Definition total_of (expenseList : list object) : float :=
  List.fold_left
    (fun sum expense =>
       (sum + parseFloat (or_else (get (str "amount") expense) (Num 0)))%float)
    expenseList 0%float.

Definition calculateTotal (expenseList : list object) (w : World) : World :=
  let total := total_of expenseList in
  with_state (setTotalSpent total) w.

(** [loadExpenses]. [io_ok] tells whether the call to the store resolves
    or rejects. The key is written by [saveExpenses] only, so the stored
    document is an array of objects; on any other document the state is
    left as it is. *)
Definition loadExpenses (io_ok : bool) (w : World) : World :=
  if io_ok then
    match getItem (str "expenses") (storage w) with
    | Some savedExpenses =>
        match JSON.parse savedExpenses with
        | Arr l =>
            match to_list l with
            | Some expenseList =>
                calculateTotal expenseList (with_state (setExpenses expenseList) w)
            | None => w
            end
        | _ => w
        end
    | None => w
    end
  else console_error "Error loading expenses:" w.

(** [saveExpenses]; a rejected write is logged and nothing is stored. *)
Definition saveExpenses (expenseList : list object) (io_ok : bool) (w : World) : World :=
  if io_ok then
    match JSON.stringify (of_list expenseList) with
    | Some text =>
        {| state := state w; storage := setItem (str "expenses") text (storage w);
           alerts := alerts w; errors := errors w |}
    | None => w
    end
  else console_error "Error saving expenses:" w.

(** The amount field's [onChangeText]. *)
Definition setSelectedAmount (s : jsstring) (st : State) : State :=
  {| receiptPhoto := receiptPhoto st; extractedText := extractedText st;
     detectedAmounts := detectedAmounts st; selectedAmount := s;
     merchant := merchant st; expenses := expenses st;
     totalSpent := totalSpent st; isProcessing := isProcessing st |}.

(** The merchant field's [onChangeText]. *)
Definition setMerchant (s : jsstring) (st : State) : State :=
  {| receiptPhoto := receiptPhoto st; extractedText := extractedText st;
     detectedAmounts := detectedAmounts st; selectedAmount := selectedAmount st;
     merchant := s; expenses := expenses st;
     totalSpent := totalSpent st; isProcessing := isProcessing st |}.

Definition setReceiptPhoto (uri : value) (st : State) : State :=
  {| receiptPhoto := uri; extractedText := extractedText st;
     detectedAmounts := detectedAmounts st; selectedAmount := selectedAmount st;
     merchant := merchant st; expenses := expenses st;
     totalSpent := totalSpent st; isProcessing := isProcessing st |}.

(** [clearForm] *)
Definition clearForm (st : State) : State :=
  {| receiptPhoto := Null; extractedText := []; detectedAmounts := [];
     selectedAmount := []; merchant := []; expenses := expenses st;
     totalSpent := totalSpent st; isProcessing := isProcessing st |}.

(** [Date.now().toString()]: the decimal digits of the millisecond count. *)
Definition toString_integer (n : N) : jsstring :=
  str (NilZero.string_of_uint (N.to_uint n)).

(** [addExpense]: the validation, then the confirmation dialog. *)
Definition addExpense (w : World) : World :=
  let amount := Number.parseFloat (selectedAmount (state w)) in
  if negb (truthy (Str (selectedAmount (state w))))
     || Number.isNaN amount || (amount <=? 0)%float
  then Alert_alert InvalidAmount w
  else
    let merchantName :=
      match merchant (state w) with
      | [] => str "Unknown Merchant"
      | name => name
      end in
    Alert_alert
      (AddExpense {| p_amount := amount; p_merchantName := merchantName;
                     p_expenses := expenses (state w);
                     p_receiptPhoto := receiptPhoto (state w);
                     p_extractedText := extractedText (state w) |}) w.

(** The record built when 'Add' is pressed. [now] is [Date.now()] and
    [today] is [new Date().toLocaleDateString()]. *)
Definition newExpense (c : pending) (now : N) (today : jsstring) : object :=
  [ (str "id", Str (toString_integer now));
    (str "amount", Num (p_amount c));
    (str "merchant", Str (p_merchantName c));
    (str "date", Str today);
    (str "photo", p_receiptPhoto c);
    (str "extractedText", Str (p_extractedText c)) ].

(** The [onPress] handler of 'Add'. *)
Definition onPressAdd (c : pending) (now : N) (today : jsstring)
           (io_ok : bool) (w : World) : World :=
  let updatedExpenses := p_expenses c ++ [newExpense c now today] in
  let w1 := with_state (setExpenses updatedExpenses) w in
  let w2 := calculateTotal updatedExpenses w1 in
  let w3 := saveExpenses updatedExpenses io_ok w2 in
  let w4 := Alert_alert (Success (p_amount c)) w3 in
  with_state clearForm w4.

(** [deleteExpense] *)
Definition deleteExpense (expenseId : value) (io_ok : bool) (w : World) : World :=
  let updatedExpenses :=
    List.filter (fun expense =>
                   negb (strict_equals (get (str "id") expense) expenseId))
                (expenses (state w)) in
  let w1 := with_state (setExpenses updatedExpenses) w in
  let w2 := calculateTotal updatedExpenses w1 in
  saveExpenses updatedExpenses io_ok w2.

End TestApp.

(** ** The anime converter *)

Module AnimeConverter.

(** [Math.fround]: a number as a [Float32Array] stores it. *)
Definition fround (x : float) : float :=
  match Prim2SF x with
  | S754_finite sx mx ex => SF2Prim (binary_round 24 128 sx mx ex)
  | _ => x
  end.

Record Tensor := {
  type : string;
  data : list float;
  dims : list nat
}.

(** An inference session: the names of the model's inputs and outputs and
    the inference itself, which the runtime provides. It fails with a
    message or yields named output tensors. *)
Record Session := {
  inputNames : list jsstring;
  outputNames : list jsstring;
  run : list (jsstring * Tensor) -> string + list (jsstring * Tensor)
}.

Record State := {
  session : option Session;
  originalPhoto : option jsstring;
  processedPhoto : option jsstring;
  isProcessing : bool
}.

Inductive completion (A : Type) :=
| Return (a : A)
| Throw (message : string).
Arguments Return {A} a.
Arguments Throw {A} message.

Definition setIsProcessing (b : bool) (st : State) : State :=
  {| session := session st; originalPhoto := originalPhoto st;
     processedPhoto := processedPhoto st; isProcessing := b |}.

Definition setProcessedPhoto (p : option jsstring) (st : State) : State :=
  {| session := session st; originalPhoto := originalPhoto st;
     processedPhoto := p; isProcessing := isProcessing st |}.

(** [preprocessImage]. [random] is the stream of results of
    [Math.random()] and [n] the number of calls made so far. *)
Definition preprocessImage (imagePath : jsstring) (random : nat -> float) (n : nat)
  : completion Tensor * nat :=
  let inputSize := 224 in
  let channels := 3 in
  let batchSize := 1 in
  let length := batchSize * channels * inputSize * inputSize in
  let imageData :=
    List.map (fun i => fround ((random (n + i)%nat - 0.5) * 2)%float) (List.seq 0 length) in
  let inputTensor :=
    {| type := "float32"; data := imageData;
       dims := [batchSize; channels; inputSize; inputSize] |} in
  (Return inputTensor, n + length).

Fixpoint lookup (key : jsstring) (results : list (jsstring * Tensor)) : option Tensor :=
  match results with
  | [] => None
  | (k, t) :: rest => if jsstring_eqb k key then Some t else lookup key rest
  end.

(** [names[0] || other]: the first name unless it is missing or empty. *)
Definition first_or (names : list jsstring) (other : option jsstring) : option jsstring :=
  match names with
  | (_ :: _) as name :: _ => Some name
  | _ => other
  end.

(** [processImageWithAI] *)
Definition processImageWithAI (imagePath : jsstring) (random : nat -> float) (n : nat)
           (st : State) : completion jsstring * nat * State :=
  match session st with
  | None => (Throw "AI model not loaded", n, st)
  | Some session =>
      let st1 := setIsProcessing true st in
      match preprocessImage imagePath random n with
      | (Throw message, n') =>
          (Throw ("AI processing failed: " ++ message), n', setIsProcessing false st1)
      | (Return inputTensor, n') =>
          let inputName :=
            match first_or (inputNames session) None with
            | Some name => name
            | None => str "input"
            end in
          let feeds := [(inputName, inputTensor)] in
          match run session feeds with
          | inl message =>
              (Throw ("AI processing failed: " ++ message), n', setIsProcessing false st1)
          | inr results =>
              let outputName :=
                first_or (outputNames session)
                         (match results with (k, _) :: _ => Some k | [] => None end) in
              let outputTensor :=
                match outputName with
                | Some name => lookup name results
                | None => lookup (str "undefined") results
                end in
              match outputTensor with
              | None =>
                  (Throw "AI processing failed: No output received from model",
                   n', setIsProcessing false st1)
              | Some _ => (Return imagePath, n', setIsProcessing false st1)
              end
          end
      end
  end.

Inductive alert :=
| NoPhoto | ModelNotReady | Success | ProcessingError (message : string).

(** [processCurrentPhoto] *)
Definition processCurrentPhoto (random : nat -> float) (n : nat) (st : State)
  : alert * nat * State :=
  match originalPhoto st with
  | None | Some [] => (NoPhoto, n, st)
  | Some originalPhoto =>
      match session st with
      | None => (ModelNotReady, n, st)
      | Some _ =>
          match processImageWithAI originalPhoto random n st with
          | (Return processedPath, n', st') =>
              (Success, n', setProcessedPhoto (Some processedPath) st')
          | (Throw message, n', st') => (ProcessingError message, n', st')
          end
      end
  end.

End AnimeConverter.

(** ** More of the language: string methods and [Math.max] *)

Module JSString.

Import RegExp.

(** [String.prototype.trim]: white space and line terminators are removed
    at both ends. *)
Definition trim_end (s : jsstring) : jsstring :=
  List.rev (Number.trim_start (List.rev s)).

Definition trim (s : jsstring) : jsstring := trim_end (Number.trim_start s).

(** [s.split(sep)] for a separator of one code unit: the pieces between
    the separators, empty pieces included. *)
Fixpoint split (sep : code_unit) (s : jsstring) : list jsstring :=
  match s with
  | [] => [[]]
  | c :: s' =>
      if N.eqb c sep then [] :: split sep s'
      else match split sep s' with
           | piece :: pieces => (c :: piece) :: pieces
           | [] => [[c]]
           end
  end.

(** [parts.join(sep)] *)
Definition join (sep : jsstring) (parts : list jsstring) : jsstring :=
  match parts with
  | [] => []
  | p :: ps => List.fold_left (fun acc q => acc ++ sep ++ q) ps p
  end.

(** The loop of [RegExp.prototype[Symbol.replace]] with a replacement
    that holds no [$]: every match is found with [exec] (an empty match
    moves [lastIndex] on by one), and the text between the matches is
    copied with the replacement in place of each match. A pattern that is
    not global is matched once. [fuel] bounds the number of matches. *)
Fixpoint replace_loop (fuel : nat) (rx : RegExp.object) (s replacement : jsstring)
         (nextSourcePosition : nat) (accumulatedResult : jsstring) : jsstring :=
  match fuel with
  | 0 => accumulatedResult ++ skipn nextSourcePosition s
  | S fuel' =>
      match RegExp.exec rx s with
      | (None, _) => accumulatedResult ++ skipn nextSourcePosition s
      | (Some result, rx') =>
          let matchLength := List.length (matched result) in
          let position := index result in
          let rx'' :=
            if Nat.eqb matchLength 0
            then {| source := source rx'; flag := flag rx';
                    lastIndex := S (lastIndex rx') |}
            else rx' in
          let '(next, acc) :=
            if Nat.leb nextSourcePosition position
            then (position + matchLength,
                  accumulatedResult ++ substring s nextSourcePosition position
                                    ++ replacement)
            else (nextSourcePosition, accumulatedResult) in
          if global (flag rx)
          then replace_loop fuel' rx'' s replacement next acc
          else acc ++ skipn next s
      end
  end.

(** [s.replace(rx, replacement)]: the search starts at 0 whatever
    [lastIndex] was. *)
Definition replace (s : jsstring) (rx : RegExp.object) (replacement : jsstring) : jsstring :=
  replace_loop (List.length s + 2)
               {| source := source rx; flag := flag rx;
                  lastIndex := if global (flag rx) then 0 else lastIndex rx |}
               s replacement 0 [].

(** [\w] *)
Definition is_word (c : code_unit) : bool :=
  ((65 <=? c)%N && (c <=? 90)%N) || ((97 <=? c)%N && (c <=? 122)%N)
  || Number.is_digit c || (c =? 95)%N.

End JSString.

Module Math.

(** [Math.max(...numbers)]: [-Infinity] for no argument, [NaN] when an
    argument is [NaN], and [+0] above [-0]. *)
Definition max (numbers : list float) : float :=
  List.fold_left
    (fun highest number =>
       if PrimFloat.is_nan highest || PrimFloat.is_nan number then nan
       else if PrimFloat.Leibniz.eqb number zero && PrimFloat.Leibniz.eqb highest neg_zero
            then number
            else if (highest <? number)%float then number else highest)
    numbers neg_infinity.

End Math.

(** ** The receipt scanner: scanning and display *)

Module Scanner.

Import RegExp TestApp.

(** Alerts besides those of [addExpense], by title and message. *)
Inductive notice :=
| PermissionRequired                 (* 'Permission Required' *)
| OCRError (message : string)        (* 'OCR Error' *)
| CameraError (message : string)     (* 'Camera Error' *)
| GalleryError (message : string).   (* 'Gallery Error' *)

(** The application with the heap of its [RegExp] objects and the other
    alerts it has shown. *)
Record Device := {
  world : World;
  regexps : heap;
  notices : list notice
}.

Definition start : Device :=
  {| world := initial; regexps := []; notices := [] |}.

Definition on_world (f : World -> World) (d : Device) : Device :=
  {| world := f (world d); regexps := regexps d; notices := notices d |}.

Definition on_state (f : State -> State) (d : Device) : Device :=
  on_world (with_state f) d.

Definition notify (n : notice) (d : Device) : Device :=
  {| world := world d; regexps := regexps d; notices := notices d ++ [n] |}.

Definition setExtractedText (s : jsstring) (st : State) : State :=
  {| receiptPhoto := receiptPhoto st; extractedText := s;
     detectedAmounts := detectedAmounts st; selectedAmount := selectedAmount st;
     merchant := merchant st; expenses := expenses st;
     totalSpent := totalSpent st; isProcessing := isProcessing st |}.

Definition setDetectedAmounts (l : list float) (st : State) : State :=
  {| receiptPhoto := receiptPhoto st; extractedText := extractedText st;
     detectedAmounts := l; selectedAmount := selectedAmount st;
     merchant := merchant st; expenses := expenses st;
     totalSpent := totalSpent st; isProcessing := isProcessing st |}.

Definition setIsProcessing (b : bool) (st : State) : State :=
  {| receiptPhoto := receiptPhoto st; extractedText := extractedText st;
     detectedAmounts := detectedAmounts st; selectedAmount := selectedAmount st;
     merchant := merchant st; expenses := expenses st;
     totalSpent := totalSpent st; isProcessing := b |}.

(** [clearResults] *)
Definition clearResults (st : State) : State :=
  {| receiptPhoto := receiptPhoto st; extractedText := []; detectedAmounts := [];
     selectedAmount := []; merchant := []; expenses := expenses st;
     totalSpent := totalSpent st; isProcessing := isProcessing st |}.

(** The patterns of the merchant clean-up:
    [^\w\s&-] with flag g, and \s+ with flag g. *)
Definition pattern_special : RegExp.object :=
  {| source := Cls (fun c => negb (JSString.is_word c || Number.is_space c
                                   || (c =? 38)%N || (c =? 45)%N));
     flag := {| global := true; ignoreCase := false; multiline := false |};
     lastIndex := 0 |}.

Definition pattern_spaces : RegExp.object :=
  {| source := Rep 1 None space;
     flag := {| global := true; ignoreCase := false; multiline := false |};
     lastIndex := 0 |}.

(** The clean-up of a merchant name. *)
Definition cleanMerchant (merchantName : jsstring) : jsstring :=
  JSString.trim
    (JSString.replace
       (JSString.replace merchantName pattern_special [])
       pattern_spaces (str " ")).

(** The lines of the text that hold more than two characters besides
    surrounding white space. *)
Definition lines (fullText : jsstring) : list jsstring :=
  List.filter (fun line => Nat.ltb 2 (List.length (JSString.trim line)))
              (JSString.split 10%N fullText).

(** [requestPermissions]. [android] is [Platform.OS === 'android'];
    [request] is the result of the permission request: [None] when it
    rejects, else whether the camera was granted. *)
Definition requestPermissions (android : bool) (request : option bool) (d : Device)
  : bool * Device :=
  if android then
    match request with
    | Some cameraGranted =>
        if negb cameraGranted then (false, notify PermissionRequired d)
        else (true, d)
    | None => (false, on_world (console_error "Permission error:") d)
    end
  else (true, d).

Section Formatting.

(** The digits [Number.prototype.toString] prints are not modelled: the
    function is a parameter. *)
Variable Number_toString : float -> jsstring.

(** [extractTextFromImage]. [recognized] is the outcome of the text
    recognition: the message of the error it rejects with, or the text of
    each block. *)
Definition extractTextFromImage (recognized : string + list jsstring) (d : Device) : Device :=
  let d1 := on_state (setIsProcessing true) d in
  match recognized with
  | inr blocks =>
      let fullText := JSString.join [10%N] blocks in
      let d2 := on_state (setExtractedText fullText) d1 in
      match extractAmountsFromText fullText (regexps d2) with
      | (Ok amounts, h) =>
          let d3 := {| world := world d2; regexps := h; notices := notices d2 |} in
          let d4 := on_state (setDetectedAmounts amounts) d3 in
          let d5 :=
            match amounts with
            | _ :: _ =>
                let likelyTotal := Math.max amounts in
                on_state (setSelectedAmount (Number_toString likelyTotal)) d4
            | [] => d4
            end in
          let d6 :=
            match lines fullText with
            | line :: _ =>
                let merchantName := JSString.trim line in
                match cleanMerchant merchantName with
                | (_ :: _) as clean => on_state (setMerchant clean) d5
                | [] => d5
                end
            | [] => d5
            end in
          on_state (setIsProcessing false) d6
      | (TypeError, h) =>
          (* the error is caught; its message is the engine's *)
          let d3 := {| world := world d2; regexps := h; notices := notices d2 |} in
          let d4 := on_world (console_error "OCR error:") d3 in
          let d5 := notify (OCRError "Failed to extract text: TypeError") d4 in
          let d6 := on_state (setExtractedText (str "Failed to extract text from image")) d5 in
          on_state (setIsProcessing false) d6
      | (OutOfFuel, h) =>
          (* the call does not return *)
          {| world := world d2; regexps := h; notices := notices d2 |}
      end
  | inl message =>
      let d2 := on_world (console_error "OCR error:") d1 in
      let d3 := notify (OCRError ("Failed to extract text: " ++ message)) d2 in
      let d4 := on_state (setExtractedText (str "Failed to extract text from image")) d3 in
      on_state (setIsProcessing false) d4
  end.

(** What the picker answers: the assets (none when the user cancels or on
    an error) and the error message, if any. *)
Record response := {
  assets : list value;                 (* the [uri] of each asset *)
  errorMessage : option string
}.

(** The callback of [launchCamera] and [launchImageLibrary]. *)
Definition picked (error : string -> notice) (r : response)
           (recognized : string + list jsstring) (d : Device) : Device :=
  match assets r with
  | uri :: _ =>
      let d1 := on_state (setReceiptPhoto uri) d in
      let d2 := on_state clearResults d1 in
      extractTextFromImage recognized d2
  | [] =>
      match errorMessage r with
      | Some (String _ _ as message) => notify (error message) d
      | _ => d
      end
  end.

(** [takeReceiptPhoto] *)
Definition takeReceiptPhoto (android : bool) (request : option bool) (r : response)
           (recognized : string + list jsstring) (d : Device) : Device :=
  let '(hasPermission, d1) := requestPermissions android request d in
  if negb hasPermission then d1 else picked CameraError r recognized d1.

(** [selectFromGallery] *)
Definition selectFromGallery (android : bool) (request : option bool) (r : response)
           (recognized : string + list jsstring) (d : Device) : Device :=
  let '(hasPermission, d1) := requestPermissions android request d in
  if negb hasPermission then d1 else picked GalleryError r recognized d1.

(** [retryOCR] *)
Definition retryOCR (recognized : string + list jsstring) (d : Device) : Device :=
  if truthy (receiptPhoto (state (world d))) then
    extractTextFromImage recognized (on_state clearResults d)
  else d.

(** Pressing the chip of a detected amount. *)
Definition pressChip (amount : float) (st : State) : State :=
  setSelectedAmount (Number_toString amount) st.

End Formatting.

(** The expenses the list shows:
    [expenses.slice().reverse().slice(0, 5)]. *)
Definition recentExpenses (expenses : list object) : list object :=
  firstn 5 (List.rev expenses).

Section Rendering.

(** The digits [Number.prototype.toFixed] prints are not modelled either. *)
Variable Number_toFixed : float -> nat -> jsstring.

(** [expense.amount.toFixed(2)]: a method call, which throws unless the
    amount is a number. *)
Definition amountText (expense : object) : outcome jsstring :=
  match get (str "amount") expense with
  | Num x => Ok (Number_toFixed x 2)
  | _ => TypeError
  end.

(** The rows of the list of recent expenses: the key, the amount text, the
    merchant and the date of each; rendering throws when one row does. *)
Fixpoint rows (l : list object) : outcome (list (value * jsstring * value * value)) :=
  match l with
  | [] => Ok []
  | expense :: rest =>
      match amountText expense with
      | Ok text =>
          match rows rest with
          | Ok rs => Ok ((get (str "id") expense, text,
                          get (str "merchant") expense, get (str "date") expense) :: rs)
          | e => e
          end
      | TypeError => TypeError
      | OutOfFuel => OutOfFuel
      end
  end.

Definition recentRows (st : State) : outcome (list (value * jsstring * value * value)) :=
  rows (recentExpenses (expenses st)).

End Rendering.

(** The 'Add to Budget' button is disabled when
    [!selectedAmount || isNaN(parseFloat(selectedAmount))]. *)
Definition addDisabled (st : State) : bool :=
  negb (truthy (Str (selectedAmount st)))
  || Number.isNaN (Number.parseFloat (selectedAmount st)).

End Scanner.

(** ** The anime converter: the handlers *)

Module Converter.

Import AnimeConverter.

(** Alerts, by title. *)
Inductive notice :=
| PermissionRequired                  (* 'Permission Required' *)
| CameraError (message : string)      (* 'Camera Error' *)
| GalleryError (message : string)     (* 'Gallery Error' *)
| Processed (a : alert)               (* 'Success!' or 'Processing Error' *)
| NoProcessedPhoto                    (* 'No Processed Photo' *)
| Saved                               (* 'Saved!' *)
| SaveError (message : string)        (* 'Save Error' *)
| ModelError (message : string).      (* 'Model Error' *)

Definition initial : State :=
  {| session := None; originalPhoto := None; processedPhoto := None;
     isProcessing := false |}.

Definition setSession (s : option Session) (st : State) : State :=
  {| session := s; originalPhoto := originalPhoto st;
     processedPhoto := processedPhoto st; isProcessing := isProcessing st |}.

Definition setOriginalPhoto (p : option jsstring) (st : State) : State :=
  {| session := session st; originalPhoto := p;
     processedPhoto := processedPhoto st; isProcessing := isProcessing st |}.

(** [loadModel], run once when the component mounts. [fileExists],
    [copied] and [created] are the outcomes of [RNFS.exists],
    [RNFS.copyFileAssets] and [InferenceSession.create]: the message of
    the error each rejects with, or its result. The copy is only asked for
    when the file is missing. Returns the last model status as well. *)
Definition loadModel (fileExists : string + bool) (copied : option string)
           (created : string + Session) (st : State)
  : jsstring * list notice * State :=
  let failed message :=
    (str "AI Model Failed to Load",
     [ModelError ("Failed to load AI model: " ++ message)], st) in
  match fileExists with
  | inl message => failed message
  | inr present =>
      match (if present then None else copied) with
      | Some message => failed message
      | None =>
          match created with
          | inl message => failed message
          | inr modelSession =>
              (str "AI Model Ready (" ++ JSString.join (str ", ") (inputNames modelSession)
                   ++ str ")",
               [], setSession (Some modelSession) st)
          end
      end
  end.

(** [requestPermissions]: as in the receipt scanner. *)
Definition requestPermissions (android : bool) (request : option bool) : bool * list notice :=
  if android then
    match request with
    | Some cameraGranted =>
        if negb cameraGranted then (false, [PermissionRequired]) else (true, [])
    | None => (false, [])
    end
  else (true, []).

(** What the picker answers: the [uri] of each asset and the error
    message, if any. *)
Record response := {
  assets : list jsstring;
  errorMessage : option string
}.

(** The callback of [launchCamera] and [launchImageLibrary]. *)
Definition picked (error : string -> notice) (r : response)
           (random : nat -> float) (n : nat) (st : State)
  : list notice * nat * State :=
  match assets r with
  | uri :: _ =>
      let st1 := setOriginalPhoto (Some uri) st in
      let st2 := setProcessedPhoto None st1 in
      match session st with
      | Some _ =>
          match processImageWithAI uri random n st2 with
          | (Return processedPath, n', st3) =>
              ([Processed Success], n', setProcessedPhoto (Some processedPath) st3)
          | (Throw message, n', st3) =>
              ([Processed (ProcessingError message)], n', st3)
          end
      | None => ([], n, st2)
      end
  | [] =>
      match errorMessage r with
      | Some (String _ _ as message) => ([error message], n, st)
      | _ => ([], n, st)
      end
  end.

(** [takePhoto] *)
Definition takePhoto (android : bool) (request : option bool) (r : response)
           (random : nat -> float) (n : nat) (st : State) : list notice * nat * State :=
  let '(hasPermission, shown) := requestPermissions android request in
  if negb hasPermission then (shown, n, st) else picked CameraError r random n st.

(** [selectFromGallery] *)
Definition selectFromGallery (android : bool) (request : option bool) (r : response)
           (random : nat -> float) (n : nat) (st : State) : list notice * nat * State :=
  let '(hasPermission, shown) := requestPermissions android request in
  if negb hasPermission then (shown, n, st) else picked GalleryError r random n st.

(** [saveToGallery]. [saved] is the outcome of [CameraRoll.save]: the
    message it rejects with, if it does. Returns the path handed to
    [CameraRoll.save], when it is called, and the alert. *)
Definition saveToGallery (saved : option string) (st : State) : option jsstring * notice :=
  match processedPhoto st with
  | None | Some [] => (None, NoProcessedPhoto)
  | Some path =>
      match saved with
      | None => (Some path, Saved)
      | Some message => (Some path, SaveError ("Failed to save: " ++ message))
      end
  end.

(** [clearPhotos] *)
Definition clearPhotos (st : State) : State :=
  setProcessedPhoto None (setOriginalPhoto None st).

End Converter.

(** * Specification

    The vocabulary of the properties, and sample data. *)

Import RegExp TestApp.

(** ** Rounding *)

(** A finite number other than zero, or an infinity, of sign [s]. *)
Definition signed_nonzero (s : bool) (x : spec_float) : Prop :=
  (exists mm e, x = S754_finite s mm e) \/ x = S754_infinity s.

(** ** Matches *)

(** The number of iterations a repetition always makes. *)
Definition reps (mn : nat) (mx : option nat) : nat :=
  match mx with
  | Some k => Nat.min mn k
  | None => mn
  end.

(** A lower bound on the length of a match. *)
Fixpoint min_len (r : regex) : nat :=
  match r with
  | Eps | NLook _ | Bol | Eol => 0
  | Chr _ | Cls _ => 1
  | Seq a b => min_len a + min_len b
  | Alt a b => Nat.min (min_len a) (min_len b)
  | Rep mn mx a => reps mn mx * min_len a
  | Grp _ a => min_len a
  end.

(** Group [n] occurs in [r]. *)
Definition mentions (n : nat) (r : regex) : bool :=
  existsb (Nat.eqb n) (groups_of r).

(** Group [n] is captured by every match. *)
Fixpoint sets (n : nat) (r : regex) : bool :=
  match r with
  | Seq a b => sets n b || (sets n a && negb (mentions n b))
  | Alt a b => sets n a && sets n b
  | Rep mn mx a => Nat.leb 1 (reps mn mx) && sets n a
  | Grp g a => Nat.eqb n g || sets n a
  | _ => false
  end.

(** Group [n] is defined in state [x]. *)
Definition captured (n : nat) (x : mstate) : Prop := lookup n (captures x) <> None.

(** [y] continues [x] after a match of [r]. *)
Definition follows (r : regex) (x y : mstate) : Prop :=
  endIndex x + min_len r <= endIndex y /\
  forall n, sets n r = true \/ (captured n x /\ mentions n r = false) -> captured n y.

(** Two continuations that agree on the states a match can reach from
    [x]. *)
Definition agree (input : jsstring) (x : mstate) (k1 k2 : mstate -> option mstate) : Prop :=
  forall y, endIndex x <= endIndex y <= List.length input -> k1 y = k2 y.

(** ** Amounts *)

(** A positive finite number. *)
Definition posfin (x : float) : Prop :=
  exists mm e, Prim2SF x = S754_finite false mm e.

(** The filter of the scanner. *)
Definition in_range (x : float) : Prop :=
  (0 <? x)%float = true /\ (x <? 10000)%float = true.

(** [x] stands before [y] in a descending list. *)
Definition gt (x y : float) : Prop := (y <? x)%float = true.

(** Pairwise different, earlier against later. *)
Fixpoint distinct (l : list float) : Prop :=
  match l with
  | [] => True
  | x :: l' => Forall (fun y => (x =? y)%float = false) l' /\ distinct l'
  end.

(** The comparator of the scanner's sort. *)
Definition descending (a b : float) : float := (b - a)%float.

(** What holds of the set of amounts throughout the scan. *)
Definition amounts_inv (s : list float) : Prop :=
  Forall in_range s /\ distinct s.

(** What one match contributes to the set. *)
Definition collect (amounts : list float) (g : jsstring) : list float :=
  let numAmount := Number.parseFloat (remove_commas g) in
  if negb (Number.isNaN numAmount) && (0 <? numAmount)%float
     && (numAmount <? 10000)%float
  then Set_add amounts numAmount
  else amounts.

(** The loop of [while_exec], on the object itself. *)
Fixpoint while_obj (fuel : nat) (o : RegExp.object) (text : jsstring)
         (amounts : list float) : outcome (list float) * RegExp.object :=
  match fuel with
  | 0 => (OutOfFuel, o)
  | S fuel' =>
      match RegExp.exec o text with
      | (None, o') => (Ok amounts, o')
      | (Some match_, o') =>
          match RegExp.group text match_ 1 with
          | None => (TypeError, o')
          | Some g => while_obj fuel' o' text (collect amounts g)
          end
      end
  end.

(** A pattern that cannot match the empty string and always sets group 1,
    freshly created. *)
Definition scanning (o : RegExp.object) : Prop :=
  global (flag o) = true /\ 1 <= min_len (source o) /\ sets 1 (source o) = true.

(** The object once its loop has ended: [lastIndex] is back at 0. *)
Definition rewound (o : RegExp.object) : RegExp.object :=
  {| source := source o; flag := flag o; lastIndex := 0 |}.

(** The four loops in turn, on the objects themselves. *)
Definition run_all (objs : list RegExp.object) (text : jsstring)
           (amounts : list float) : list float :=
  List.fold_left
    (fun acc o =>
       match fst (while_obj (List.length text + 2) o text acc) with
       | Ok acc' => acc'
       | _ => acc
       end) objs amounts.

(** The four patterns as [extractAmountsFromText] creates them. *)
Definition patterns : list RegExp.object :=
  [pattern_dollars_cents; pattern_whole_dollars; pattern_bare_cents; pattern_after_keyword].

(** The amounts a text yields, computed without a heap. *)
Definition detected (text : jsstring) : list float :=
  sort descending (run_all patterns text []).

Definition newline : string := String (ascii_of_nat 10) EmptyString.

(** ** Totals *)

(** Any number but negative zero. *)
Definition neg_zero_free (s : float) : Prop := Prim2SF s <> S754_zero true.

(** What a record adds to the total. *)
Definition contribution (expense : object) : float :=
  parseFloat (or_else (get (str "amount") expense) (Num 0)).

(** Three records with amounts 12.5, 0.1 and 0.2. *)
Definition sample_expenses : list object :=
  [ [(str "id", Str (str "1")); (str "amount", Num 12.5%float)];
    [(str "id", Str (str "2")); (str "amount", Num 0.1%float)];
    [(str "id", Str (str "3")); (str "amount", Num 0.2%float)] ].

(** ** Persistence *)

(** A value that JSON writes and reads back as it is: [null], a boolean, a
    string, or a finite number other than negative zero. *)
Definition plain (v : value) : Prop :=
  match v with
  | Null | Bool _ | Str _ => True
  | Num x => is_finite x = true /\ ((x =? 0)%float = true -> x = zero)
  | _ => False
  end.

(** A record all of whose fields are such values. *)
Definition storable (expense : object) : Prop :=
  Forall (fun kv => plain (snd kv)) expense.

(** The members [JSON.stringify] writes for a record. *)
Definition members (expense : object) : list (jsstring * json) :=
  List.flat_map (fun kv => match serialize (snd kv) with
                           | Some j => [(fst kv, j)]
                           | None => []
                           end) expense.

(** The expense list after one receipt is confirmed in a fresh session:
    the fields are filled in, [addExpense] runs, and 'Add' is pressed. *)
Definition confirmed (amountText merchantText : jsstring) (photo : value) : list object :=
  let w := with_state (setSelectedAmount amountText)
             (with_state (setMerchant merchantText)
                (with_state (setReceiptPhoto photo) initial)) in
  match alerts (addExpense w) with
  | [AddExpense c] =>
      expenses (state (onPressAdd c 1700000000000 (str "11/2/2026") true (addExpense w)))
  | _ => []
  end.

(** Four hundred nines, as typed on a numeric keypad. *)
Definition nines : jsstring := List.repeat (cu "9") 400.

(** ** Record shape *)

(** The properties of a record as [addExpense] builds it: the five fields
    of the glossary and the identifier. *)
Definition expense_keys : list jsstring :=
  List.map str ["id"; "amount"; "merchant"; "date"; "photo"; "extractedText"]%string.

(** The five fields the glossary lists. *)
Definition glossary_keys : list jsstring :=
  List.map str ["amount"; "merchant"; "date"; "photo"; "extractedText"]%string.

(** A record of that shape, none of whose fields is [undefined]. *)
Definition well_formed (expense : object) : Prop :=
  keys expense = expense_keys /\ Forall (fun kv => snd kv <> Undefined) expense.

(** The records in the list and the records in the store are well formed. *)
Definition shape_inv (w : World) : Prop :=
  Forall well_formed (expenses (state w))
  /\ forall doc, getItem (str "expenses") (storage w) = Some doc ->
                 exists l, JSON.parse doc = of_list l /\ Forall well_formed l.

(** A confirmation pending in a fresh session. *)
Definition sample_pending : pending :=
  {| p_amount := 12.5%float; p_merchantName := str "Corner Shop";
     p_expenses := []; p_receiptPhoto := Str (str "file:///r.jpg");
     p_extractedText := str "TOTAL 12.50" |}.

(** [l'] is [l] without the elements that satisfy [P], the others in
    their order. *)
Inductive removed (P : object -> Prop) : list object -> list object -> Prop :=
| removed_nil : removed P [] []
| removed_drop e l l' : P e -> removed P l l' -> removed P (e :: l) l'
| removed_keep e l l' : ~ P e -> removed P l l' -> removed P (e :: l) (e :: l').

(** ** Anime converter *)

(** A session whose model answers with one output. *)
Definition sample_session : AnimeConverter.Session :=
  {| AnimeConverter.inputNames := [str "input1"];
     AnimeConverter.outputNames := [str "output1"];
     AnimeConverter.run :=
       fun feeds =>
         inr [(str "output1",
               {| AnimeConverter.type := "float32";
                  AnimeConverter.data := [0%float];
                  AnimeConverter.dims := [1] |})] |}.

Import Scanner.

(** ** Merchant names *)

(** Runs of white space squeezed to one space each; [in_run] tells
    whether the character before was white space. *)
Fixpoint squeeze_from (in_run : bool) (s : jsstring) : jsstring :=
  match s with
  | [] => []
  | c :: s' =>
      if Number.is_space c
      then if in_run then squeeze_from true s' else 32%N :: squeeze_from true s'
      else c :: squeeze_from false s'
  end.

Definition squeeze (s : jsstring) : jsstring := squeeze_from false s.

(** A character the clean-up keeps: a word character, white space, [&]
    or [-]. *)
Definition kept (c : code_unit) : bool :=
  JSString.is_word c || Number.is_space c || (c =? 38)%N || (c =? 45)%N.

(** A character of a clean name: a word character, a space, [&] or [-]. *)
Definition clean_char (c : code_unit) : bool :=
  JSString.is_word c || (c =? 32)%N || (c =? 38)%N || (c =? 45)%N.

(** No two spaces in a row. *)
Fixpoint single_spaced (s : jsstring) : bool :=
  match s with
  | a :: (b :: _) as rest => negb ((a =? 32)%N && (b =? 32)%N) && single_spaced rest
  | _ => true
  end.

(** Neither the first nor the last character is white space. *)
Definition trimmed (s : jsstring) : Prop :=
  match s with
  | [] => True
  | c :: _ => Number.is_space c = false /\ Number.is_space (List.last s c) = false
  end.

(** The flags of a pattern that is global only. *)
Definition only_global : flags :=
  {| global := true; ignoreCase := false; multiline := false |}.

(** Where a run of the class [q] stops: at the end or before a character
    outside the class. *)
Definition stops (q : code_unit -> bool) (rest : jsstring) : Prop :=
  match rest with
  | [] => True
  | c :: _ => q c = false
  end.

(** ** The scanner's form and ledger *)

(** The fields a scan fills in. *)
Definition form (d : Device) :=
  (receiptPhoto (state (world d)), extractedText (state (world d)),
   detectedAmounts (state (world d)), selectedAmount (state (world d)),
   merchant (state (world d))).

(** The expenses, their total, the store, and the dialogs of
    [addExpense]. *)
Definition ledger (d : Device) :=
  (expenses (state (world d)), totalSpent (state (world d)), storage (world d),
   alerts (world d)).

(** The text joined from the recognized blocks. *)
Definition fullText (blocks : list jsstring) : jsstring := JSString.join [10%N] blocks.

(** The merchant a text yields, if any: the clean-up of its first line
    with more than two characters. *)
Definition merchant_of (text : jsstring) : option jsstring :=
  match lines text with
  | line :: _ =>
      match cleanMerchant (JSString.trim line) with
      | [] => None
      | clean => Some clean
      end
  | [] => None
  end.

(** ** Runs of the scanner *)

(** The store holds nothing under the key of the expenses, or a document
    that [saveExpenses] wrote. *)
Definition written (sto : jsstring -> option json) : Prop :=
  match getItem (str "expenses") sto with
  | None => True
  | Some doc => exists l, doc = JArr (List.map (fun e => JObj (members e)) l)
  end.

(** The application as it starts, over what the store holds. *)
Definition boot (sto : jsstring -> option json) : Device :=
  {| world := {| state := state initial; storage := sto; alerts := []; errors := [] |};
     regexps := []; notices := [] |}.

Section Runs.
Variable toString : float -> jsstring.

(** One handler, run to its end: loading, the two pickers, the retry, a
    chip, typing in either field, 'Add to Budget', 'Add' in a dialog that
    was shown, 'Clear', and a delete button. *)
Inductive step : Device -> Device -> Prop :=
| step_load io_ok d :
    step d (on_world (loadExpenses io_ok) d)
| step_camera android request r recognized d :
    step d (takeReceiptPhoto toString android request r recognized d)
| step_gallery android request r recognized d :
    step d (selectFromGallery toString android request r recognized d)
| step_retry recognized d :
    step d (retryOCR toString recognized d)
| step_chip amount d :
    In amount (detectedAmounts (state (world d))) ->
    step d (on_state (pressChip toString amount) d)
| step_amount s d :
    step d (on_state (setSelectedAmount s) d)
| step_merchant s d :
    step d (on_state (setMerchant s) d)
| step_add d :
    step d (on_world addExpense d)
| step_confirm c now today io_ok d :
    In (AddExpense c) (alerts (world d)) ->
    step d (on_world (onPressAdd c now today io_ok) d)
| step_clear d :
    step d (on_state clearForm d)
| step_delete expenseId io_ok d :
    step d (on_world (deleteExpense expenseId io_ok) d).

(** The states a run of handlers leads to, each handler starting when
    the one before has ended. The store the application starts over
    holds nothing under its key or a list it wrote. *)
Inductive reachable : Device -> Prop :=
| reachable_boot sto : written sto -> reachable (boot sto)
| reachable_step d d' : reachable d -> step d d' -> reachable d'.

End Runs.

(** What holds between the handlers. *)
Definition settled (d : Device) : Prop :=
  totalSpent (state (world d)) = total_of (expenses (state (world d)))
  /\ isProcessing (state (world d)) = false
  /\ StronglySorted gt (detectedAmounts (state (world d)))
  /\ Forall in_range (detectedAmounts (state (world d)))
  /\ Forall (fun a => match a with
                      | AddExpense c => (0 <? p_amount c)%float = true
                      | _ => True
                      end) (alerts (world d))
  /\ written (storage (world d)).

(** The picker was not opened, or it returned no asset. *)
Definition no_photo (android : bool) (request : option bool) (r : response) : Prop :=
  (android = true /\ request <> Some true) \/ assets r = [].

(** ** Records in the store *)

(** A record as it comes back from the store. *)
Definition stored (expense : object) : object :=
  List.map (fun kv => (fst kv, revive (snd kv))) (members expense).

(** The element [JSON.stringify] writes for an array element. *)
Definition element (v : value) : json :=
  match serialize v with
  | Some j => j
  | None => JNull
  end.

(** A confirmation with an amount that is not finite. *)
Definition infinite_pending : pending :=
  {| p_amount := infinity; p_merchantName := str "Corner Shop";
     p_expenses := []; p_receiptPhoto := Str (str "file:///r.jpg");
     p_extractedText := str "TOTAL 1e999" |}.

(** ** Runs of the converter *)

(** The number of values in the input tensor. *)
Definition tensor_length : nat := 1 * 3 * 224 * 224.

(** The number of values the dimensions of a tensor announce. *)
Definition volume (dims : list nat) : nat := List.fold_right Nat.mul 1 dims.

Section ConverterRuns.
Variable random : nat -> float.

(** One handler of the converter, run to its end, on the state and the
    number of calls made to [Math.random]: the model load, the two
    pickers, 'Apply Anime Style', and 'Clear Photos'. *)
Inductive converter_step : nat * AnimeConverter.State -> nat * AnimeConverter.State -> Prop :=
| converter_load fileExists copied created n st :
    converter_step (n, st) (n, snd (Converter.loadModel fileExists copied created st))
| converter_camera android request r n st :
    converter_step (n, st)
      (snd (fst (Converter.takePhoto android request r random n st)),
       snd (Converter.takePhoto android request r random n st))
| converter_gallery android request r n st :
    converter_step (n, st)
      (snd (fst (Converter.selectFromGallery android request r random n st)),
       snd (Converter.selectFromGallery android request r random n st))
| converter_process n st :
    converter_step (n, st)
      (snd (fst (AnimeConverter.processCurrentPhoto random n st)),
       snd (AnimeConverter.processCurrentPhoto random n st))
| converter_clear n st :
    converter_step (n, st) (n, Converter.clearPhotos st).

Inductive converter_reachable : nat * AnimeConverter.State -> Prop :=
| converter_boot : converter_reachable (0, Converter.initial)
| converter_next x y : converter_reachable x -> converter_step x y -> converter_reachable y.

End ConverterRuns.

(** What holds between the handlers of the converter. *)
Definition converter_settled (x : nat * AnimeConverter.State) : Prop :=
  AnimeConverter.isProcessing (snd x) = false
  /\ (AnimeConverter.processedPhoto (snd x) = None
      \/ (AnimeConverter.processedPhoto (snd x) = AnimeConverter.originalPhoto (snd x)
          /\ AnimeConverter.session (snd x) <> None))
  /\ exists k, fst x = k * tensor_length.

(** The alert tells of a processed photo. *)
Definition tells_success (n : Converter.notice) : Prop :=
  n = Converter.Processed AnimeConverter.Success.

(** * Properties *)

(** ** Parsing numbers

    [Number.parseFloat] against the numbers Rocq reads from the same
    literals. *)

Example parseFloat_cents : Number.parseFloat (str "12.34") = 12.34%float.
Proof. vm_compute. reflexivity. Qed.

Example parseFloat_tenth : Number.parseFloat (str "0.1") = 0.1%float.
Proof. vm_compute. reflexivity. Qed.

Example parseFloat_prefix :
  Number.parseFloat (str "  -1234567.5e3xyz") = (-1234567500)%float.
Proof. vm_compute. reflexivity. Qed.

Example parseFloat_ties_to_even :
  Number.parseFloat (str "9007199254740993") = 9007199254740992%float.
Proof. vm_compute. reflexivity. Qed.

Example parseFloat_smallest :
  Number.parseFloat (str "4.9e-324") = 0x1p-1074%float.
Proof. vm_compute. reflexivity. Qed.

Example parseFloat_largest :
  Number.parseFloat (str "1.7976931348623157e308") = 0x1.fffffffffffffp+1023%float.
Proof. vm_compute. reflexivity. Qed.

Example parseFloat_overflow : Number.parseFloat (str "1e999") = infinity.
Proof. vm_compute. reflexivity. Qed.

Example parseFloat_underflow : Number.parseFloat (str "1e-999") = zero.
Proof. vm_compute. reflexivity. Qed.

Example parseFloat_negative_zero : Number.parseFloat (str "-0") = neg_zero.
Proof. vm_compute. reflexivity. Qed.

Example parseFloat_no_literal :
  List.map (fun s => Number.isNaN (Number.parseFloat (str s)))
           ["."; "abc"; "e5"; "-"; "$5"]%string
  = [true; true; true; true; true].
Proof. vm_compute. reflexivity. Qed.

Example parseFloat_forms :
  List.map (fun s => Number.parseFloat (str s))
           [".5e1"; "1.e2"; "12."; "7e"; "3e+"; "+8"; "Infinityx"; "-Infinity"]%string
  = [5; 100; 12; 7; 3; 8; infinity; neg_infinity]%float.
Proof. vm_compute. reflexivity. Qed.

(** ** Binary64 rounding

    Facts about [SpecFloat], the specification of the primitive
    operations, that the comparator of the sort relies on. *)

Section BinaryRounding.

Local Open Scope Z_scope.

Lemma digits2_pos_size (p : positive) : digits2_pos p = Pos.size p.
Proof. induction p; simpl; congruence. Qed.

Lemma digits2_bounds (p : positive) :
  2 ^ (Zpos (digits2_pos p) - 1) <= Zpos p < 2 ^ Zpos (digits2_pos p).
Proof.
  induction p as [p IH | p IH |]; simpl digits2_pos.
  - rewrite Pos2Z.inj_succ.
    replace (Z.succ (Zpos (digits2_pos p)) - 1) with (Z.succ (Zpos (digits2_pos p) - 1)) by lia.
    rewrite !Z.pow_succ_r by lia. lia.
  - rewrite Pos2Z.inj_succ.
    replace (Z.succ (Zpos (digits2_pos p)) - 1) with (Z.succ (Zpos (digits2_pos p) - 1)) by lia.
    rewrite !Z.pow_succ_r by lia. lia.
  - simpl. lia.
Qed.

Lemma shr_1_m (mrs : shr_record) :
  0 <= shr_m mrs -> shr_m (shr_1 mrs) = shr_m mrs / 2.
Proof.
  destruct mrs as [mm r s]; cbn [shr_m]. intros H.
  destruct mm as [| [p | p |] | p]; cbn [shr_1 shr_m]; try lia.
  - reflexivity.
  - apply Z.div_unique with (r := 1); lia.
  - apply Z.div_unique with (r := 0); lia.
  - reflexivity.
Qed.

Lemma iter_shr_1_m (p : positive) : forall mrs,
  0 <= shr_m mrs ->
  shr_m (iter_pos shr_1 p mrs) = shr_m mrs / 2 ^ Zpos p.
Proof.
  induction p as [p IH | p IH |]; intros mrs H; simpl iter_pos.
  - assert (H1 : 0 <= shr_m (shr_1 mrs)) by (rewrite shr_1_m by lia; apply Z.div_pos; lia).
    assert (H2 : 0 <= shr_m (iter_pos shr_1 p (shr_1 mrs)))
      by (rewrite IH by lia; apply Z.div_pos; [lia | apply Z.pow_pos_nonneg; lia]).
    rewrite IH, IH, shr_1_m by lia.
    rewrite !Z.div_div by (try apply Z.pow_pos_nonneg; lia).
    f_equal.
    assert (E : Zpos p~1 = 1 + Zpos p + Zpos p) by lia.
    rewrite E, !Z.pow_add_r by lia. lia.
  - assert (H2 : 0 <= shr_m (iter_pos shr_1 p mrs))
      by (rewrite IH by lia; apply Z.div_pos; [lia | apply Z.pow_pos_nonneg; lia]).
    rewrite IH, IH by lia.
    rewrite !Z.div_div by (try apply Z.pow_pos_nonneg; lia).
    f_equal.
    assert (E : Zpos p~0 = Zpos p + Zpos p) by lia.
    rewrite E, !Z.pow_add_r by lia. lia.
  - rewrite shr_1_m by lia. reflexivity.
Qed.

Lemma shr_record_of_loc_m (mm : Z) (l : location) :
  shr_m (shr_record_of_loc mm l) = mm.
Proof. destruct l as [| []]; reflexivity. Qed.

Local Abbreviation emin := (SpecFloat.emin prec emax).

(** Shifting a positive mantissa to its format exponent keeps it
    positive, as long as the exponent is not below [emin]. *)
Lemma shr_fexp_pos (p : positive) (e : Z) (l : location) :
  emin <= e ->
  0 < shr_m (fst (shr_fexp prec emax (Zpos p) e l)) /\
  emin <= snd (shr_fexp prec emax (Zpos p) e l).
Proof.
  intros He. unfold shr_fexp, shr.
  pose proof (digits2_bounds p) as [Hlo Hhi].
  simpl Zdigits2. set (d := Zpos (digits2_pos p)) in *.
  destruct (fexp prec emax (d + e) - e) as [| n | n] eqn:En; simpl;
    rewrite ?shr_record_of_loc_m; try lia.
  rewrite iter_shr_1_m by (rewrite shr_record_of_loc_m; lia).
  rewrite shr_record_of_loc_m.
  unfold fexp, SpecFloat.emin, prec, emax in *.
  assert (Hn : Zpos n = d - 53) by lia.
  split; [| lia].
  apply Z.div_str_pos. split; [apply Z.pow_pos_nonneg; lia |].
  rewrite Hn. apply Z.le_trans with (2 ^ (d - 1)); [| exact Hlo].
  apply Z.pow_le_mono_r; lia.
Qed.

Lemma round_nearest_even_ge (mm : Z) (l : location) :
  mm <= round_nearest_even mm l.
Proof. destruct l as [| []]; simpl; try lia. destruct (Z.even mm); lia. Qed.

Lemma binary_round_aux_nonzero (s : bool) (p : positive) (e : Z) (l : location) :
  emin <= e -> signed_nonzero s (binary_round_aux prec emax s (Zpos p) e l).
Proof.
  intros He. unfold binary_round_aux.
  pose proof (shr_fexp_pos p e l He) as [H1 H2].
  destruct (shr_fexp prec emax (Zpos p) e l) as [mrs' e'] eqn:E1. simpl in H1, H2.
  pose proof (round_nearest_even_ge (shr_m mrs') (loc_of_shr_record mrs')) as H3.
  destruct (round_nearest_even (shr_m mrs') (loc_of_shr_record mrs')) as [| q | q] eqn:E2;
    try lia.
  pose proof (shr_fexp_pos q e' loc_Exact H2) as [H4 H5].
  destruct (shr_fexp prec emax (Zpos q) e' loc_Exact) as [mrs'' e''] eqn:E3. simpl in H4.
  destruct (shr_m mrs'') as [| r | r]; try lia.
  destruct (e'' <=? emax - prec); [left; eauto | right; reflexivity].
Qed.

Lemma iter_xO_pow (n : positive) : forall p,
  Zpos (Pos.iter xO p n) = Zpos p * 2 ^ Zpos n.
Proof.
  induction n using Pos.peano_ind; intros p.
  - simpl. lia.
  - rewrite Pos.iter_succ, Pos2Z.inj_succ, Z.pow_succ_r by lia.
    rewrite Pos2Z.inj_xO, IHn. lia.
Qed.

Lemma shl_align_fst (p : positive) (e e' : Z) :
  e' <= e -> Zpos (fst (shl_align p e e')) = Zpos p * 2 ^ (e - e').
Proof.
  intros H. unfold shl_align.
  destruct (e' - e) as [| n | n] eqn:En; simpl.
  - replace (e - e') with 0 by lia. simpl. lia.
  - lia.
  - replace (e - e') with (Zpos n) by lia.
    apply iter_xO_pow.
Qed.

Lemma binary_round_nonzero (s : bool) (p : positive) (e : Z) :
  emin <= e -> signed_nonzero s (binary_round prec emax s p e).
Proof.
  intros He. unfold binary_round.
  destruct (shl_align p e (fexp prec emax (Zpos (digits2_pos p) + e))) as [mz ez] eqn:E.
  apply binary_round_aux_nonzero.
  unfold shl_align in E.
  destruct (fexp prec emax (Zpos (digits2_pos p) + e) - e) eqn:E'; inversion E; subst; try lia.
  unfold fexp. lia.
Qed.

(** The sign of a sum or difference is the sign of the exact result. *)
Lemma binary_normalize_sign (d e : Z) :
  emin <= e ->
  match d with
  | Z0 => binary_normalize prec emax d e false = S754_zero false
  | Zpos _ => signed_nonzero false (binary_normalize prec emax d e false)
  | Zneg _ => signed_nonzero true (binary_normalize prec emax d e false)
  end.
Proof.
  intros He. destruct d; simpl; auto using binary_round_nonzero.
Qed.

Lemma valid_binary_bounds (s : bool) (p : positive) (e : Z) :
  valid_binary (S754_finite s p e) = true ->
  emin <= e /\ Zpos p < 2 ^ 53 /\ (emin < e -> 2 ^ 52 <= Zpos p).
Proof.
  cbn [valid_binary]. unfold bounded, canonical_mantissa, fexp. intros H.
  apply andb_prop in H. destruct H as [H _]. apply Z.eqb_eq in H.
  pose proof (digits2_bounds p) as [Hlo Hhi].
  set (d := Zpos (digits2_pos p)) in *.
  unfold SpecFloat.emin, prec, emax in *.
  split; [lia |]. split.
  - apply Z.lt_le_trans with (2 ^ d); [exact Hhi |].
    apply Z.pow_le_mono_r; lia.
  - intros H1. assert (d = 53) by lia.
    replace 52 with (d - 1) by lia. exact Hlo.
Qed.

(** On positive finite numbers, [b - a] is positive exactly when
    [a < b]. *)
Lemma SFsub_pos_ltb (ma mb : positive) (ea eb : Z) :
  valid_binary (S754_finite false ma ea) = true ->
  valid_binary (S754_finite false mb eb) = true ->
  SFltb (S754_zero false)
        (SFsub prec emax (S754_finite false mb eb) (S754_finite false ma ea))
  = SFltb (S754_finite false ma ea) (S754_finite false mb eb).
Proof.
  intros Va Vb.
  apply valid_binary_bounds in Va. destruct Va as (Ha1 & Ha2 & Ha3).
  apply valid_binary_bounds in Vb. destruct Vb as (Hb1 & Hb2 & Hb3).
  unfold SFsub. cbn [cond_Zopp].
  rewrite !shl_align_fst by lia.
  set (ez := Z.min eb ea).
  set (d := Zpos mb * 2 ^ (eb - ez) - Zpos ma * 2 ^ (ea - ez)).
  assert (Hez : emin <= ez) by (unfold ez; lia).
  pose proof (binary_normalize_sign d ez Hez) as Hs.
  assert (Hd : (0 < d <-> (ea < eb \/ (ea = eb /\ Zpos ma < Zpos mb)))
               /\ (d = 0 <-> (ea = eb /\ Zpos ma = Zpos mb))).
  { unfold d, ez. destruct (Z.compare_spec ea eb) as [E | E | E].
    - subst eb. rewrite Z.min_id, Z.sub_diag. change (2 ^ 0) with 1. lia.
    - rewrite Z.min_r by lia. rewrite Z.sub_diag.
      assert (2 <= 2 ^ (eb - ea)) by (change 2 with (2 ^ 1) at 1; apply Z.pow_le_mono_r; lia).
      specialize (Hb3 ltac:(lia)). simpl (2 ^ 0). nia.
    - rewrite Z.min_l by lia. rewrite Z.sub_diag.
      assert (2 <= 2 ^ (ea - eb)) by (change 2 with (2 ^ 1) at 1; apply Z.pow_le_mono_r; lia).
      specialize (Ha3 ltac:(lia)). simpl (2 ^ 0). nia. }
  destruct Hd as [Hd1 Hd2].
  unfold SFltb at 2. cbn [SFcompare].
  change (PosDef.Pos.compare_cont Eq ma mb) with (Z.compare (Zpos ma) (Zpos mb)).
  pose proof (Z.compare_spec ea eb) as C1.
  pose proof (Z.compare_spec (Zpos ma) (Zpos mb)) as C2.
  destruct d as [| q | q] eqn:Ed.
  - rewrite Hs.
    destruct C1, C2; try reflexivity; exfalso; lia.
  - assert (L : SFltb (S754_zero false) (binary_normalize prec emax (Zpos q) ez false) = true)
      by (destruct Hs as [(m' & e' & ->) | ->]; reflexivity).
    rewrite L.
    destruct C1, C2; try reflexivity; exfalso; lia.
  - assert (L : SFltb (S754_zero false) (binary_normalize prec emax (Zneg q) ez false) = false)
      by (destruct Hs as [(m' & e' & ->) | ->]; reflexivity).
    rewrite L.
    destruct C1, C2; try reflexivity; exfalso; lia.
Qed.

End BinaryRounding.

(** ** What a successful match guarantees *)

Lemma lookup_clear (n : nat) (gs : list nat) caps :
  existsb (Nat.eqb n) gs = false ->
  lookup n (clear gs caps) = lookup n caps.
Proof.
  intros H. induction caps as [| [k se] caps IH]; simpl; [reflexivity |].
  destruct (Nat.eqb k n) eqn:E.
  - apply Nat.eqb_eq in E. subst k.
    assert (existsb (Nat.eqb n) gs = existsb (Nat.eqb n) gs) by reflexivity.
    rewrite H. simpl. rewrite Nat.eqb_refl. reflexivity.
  - destruct (negb (existsb (Nat.eqb k) gs)); simpl; rewrite ?E; exact IH.
Qed.

Lemma mentions_app n a b :
  existsb (Nat.eqb n) (a ++ b) = false ->
  existsb (Nat.eqb n) a = false /\ existsb (Nat.eqb n) b = false.
Proof. rewrite existsb_app. apply orb_false_elim. Qed.

Section MatcherFacts.
Variable input : jsstring.
Variable f : flags.

Lemma step_char_follows p x k z :
  step_char input p x k = Some z ->
  exists y, k y = Some z /\ endIndex y = S (endIndex x) /\ captures y = captures x.
Proof.
  unfold step_char. destruct (char_at input (endIndex x)); [| discriminate].
  destruct (p c); [| discriminate]. intros H. eexists; split; [exact H |]. auto.
Qed.

(** The repetition, given the fact for the repeated matcher. *)
Lemma rep_loop_follows (ma : mstate -> (mstate -> option mstate) -> option mstate)
      (a : regex) (k : mstate -> option mstate) :
  (forall x k' z, ma x k' = Some z -> exists y, k' y = Some z /\ follows a x y) ->
  forall fuel mn mx x z,
    rep_loop ma (groups_of a) k fuel mn mx x = Some z ->
    exists y, k y = Some z /\
              endIndex x + reps mn mx * min_len a <= endIndex y /\
              forall n,
                (sets n a = true /\ (1 <= reps mn mx \/ captured n x))
                \/ (captured n x /\ mentions n a = false) ->
                captured n y.
Proof.
  intros Ha. induction fuel as [| fuel IH]; intros mn mx x z H.
  - (* no fuel: only the exit can succeed *)
    simpl in H.
    assert (E : k x = Some z /\ reps mn mx = 0).
    { destruct mx as [[| j] |]; destruct mn; try discriminate; auto. }
    destruct E as [E R]. exists x. rewrite R. split; [exact E |]. split; [lia |].
    intros n [[_ [C | C]] | [C _]]; [lia | exact C | exact C].
  - simpl in H.
    set (x' := {| endIndex := endIndex x;
                  captures := clear (groups_of a) (captures x) |}) in *.
    set (k' := fun y => if Nat.eqb mn 0 && Nat.eqb (endIndex y) (endIndex x)
                        then None
                        else rep_loop ma (groups_of a) k fuel (Nat.pred mn)
                                      (option_map Nat.pred mx) y) in *.
    assert (Hexit : k x = Some z -> reps mn mx = 0 ->
                    exists y, k y = Some z /\
                              endIndex x + reps mn mx * min_len a <= endIndex y /\
                              forall n,
                                (sets n a = true /\ (1 <= reps mn mx \/ captured n x))
                                \/ (captured n x /\ mentions n a = false) ->
                                captured n y).
    { intros E R. exists x. rewrite R. split; [exact E |]. split; [lia |].
      intros n [[_ [C | C]] | [C _]]; [lia | exact C | exact C]. }
    assert (Hiter : ma x' k' = Some z -> (mx <> Some 0) ->
                    exists y, k y = Some z /\
                              endIndex x + reps mn mx * min_len a <= endIndex y /\
                              forall n,
                                (sets n a = true /\ (1 <= reps mn mx \/ captured n x))
                                \/ (captured n x /\ mentions n a = false) ->
                                captured n y).
    { intros E Hmx. apply Ha in E. destruct E as (y1 & E1 & L1 & C1).
      unfold k' in E1.
      destruct (Nat.eqb mn 0 && Nat.eqb (endIndex y1) (endIndex x)); [discriminate |].
      apply IH in E1. destruct E1 as (y & E & L & C).
      exists y. split; [exact E |]. split.
      - simpl in L1.
        assert (reps mn mx <= 1 + reps (Nat.pred mn) (option_map Nat.pred mx)).
        { destruct mx as [j |]; simpl; [| lia]. destruct j; [congruence | lia]. }
        nia.
      - intros n Hn. apply C.
        destruct (sets n a) eqn:Sa.
        + left. split; [reflexivity |]. right. apply C1. left. exact Sa.
        + right. destruct Hn as [[Hn _] | [Hc Hm]]; [discriminate |].
          split; [| exact Hm]. apply C1. right. split; [| exact Hm].
          unfold captured, x'. simpl. rewrite lookup_clear by exact Hm. exact Hc. }
    destruct mx as [[| j] |].
    + apply Hexit; [exact H | simpl; lia].
    + destruct mn.
      * destruct (ma x' k') eqn:E.
        -- inversion H; subst. apply Hiter; [reflexivity | discriminate].
        -- apply Hexit; [exact H | reflexivity].
      * apply Hiter; [exact H | discriminate].
    + destruct mn.
      * destruct (ma x' k') eqn:E.
        -- inversion H; subst. apply Hiter; [reflexivity | discriminate].
        -- apply Hexit; [exact H | reflexivity].
      * apply Hiter; [exact H | discriminate].
Qed.

Lemma m_follows (r : regex) : forall x k z,
  m input f r x k = Some z -> exists y, k y = Some z /\ follows r x y.
Proof.
  induction r as [| c | p | a IHa b IHb | a IHa b IHb | mn mx a IHa | g a IHa | a IHa | |];
    intros x k z H; simpl in H.
  - exists x. split; [exact H |]. split; [simpl; lia |].
    intros n [C | [C _]]; [discriminate | exact C].
  - apply step_char_follows in H. destruct H as (y & H & L & C).
    exists y. split; [exact H |]. split; [simpl; lia |].
    intros n [S | [S _]]; [discriminate |]. unfold captured. rewrite C. exact S.
  - apply step_char_follows in H. destruct H as (y & H & L & C).
    exists y. split; [exact H |]. split; [simpl; lia |].
    intros n [S | [S _]]; [discriminate |]. unfold captured. rewrite C. exact S.
  - apply IHa in H. destruct H as (y1 & H & [L1 C1]).
    apply IHb in H. destruct H as (y & H & [L2 C2]).
    exists y. split; [exact H |]. split; [simpl; lia |].
    intros n Hn. simpl in Hn. unfold mentions in Hn. simpl in Hn.
    apply C2.
    destruct (sets n b) eqn:Sb; [left; reflexivity | right].
    destruct Hn as [Hn | [Hc Hm]].
    + simpl in Hn. apply andb_prop in Hn. destruct Hn as [Sa Mb].
      split; [apply C1; left; exact Sa |]. apply negb_true_iff in Mb. exact Mb.
    + apply mentions_app in Hm. destruct Hm as [Ma Mb].
      split; [apply C1; right; split; assumption | exact Mb].
  - assert (H' : m input f a x k = Some z \/ m input f b x k = Some z).
    { destruct (m input f a x k); [left; exact H | right; exact H]. }
    destruct H' as [H' | H'].
    + apply IHa in H'. destruct H' as (y & H' & [L C]).
      exists y. split; [exact H' |]. split; [simpl; lia |].
      intros n Hn. apply C. simpl in Hn. unfold mentions in Hn. simpl in Hn.
      destruct Hn as [Hn | [Hc Hm]].
      * apply andb_prop in Hn. left. tauto.
      * apply mentions_app in Hm. right. tauto.
    + apply IHb in H'. destruct H' as (y & H' & [L C]).
      exists y. split; [exact H' |]. split; [simpl; lia |].
      intros n Hn. apply C. simpl in Hn. unfold mentions in Hn. simpl in Hn.
      destruct Hn as [Hn | [Hc Hm]].
      * apply andb_prop in Hn. left. tauto.
      * apply mentions_app in Hm. right. tauto.
  - apply rep_loop_follows with (a := a) in H; [| exact IHa].
    destruct H as (y & H & L & C).
    exists y. split; [exact H |]. split; [exact L |].
    intros n Hn. apply C. cbn [sets] in Hn.
    destruct Hn as [Hn | Hn]; [| right; exact Hn].
    apply andb_prop in Hn. destruct Hn as [R Sa]. apply Nat.leb_le in R.
    left. split; [exact Sa | left; exact R].
  - apply IHa in H. destruct H as (y & H & [L C]).
    eexists. split; [exact H |]. split; [simpl in *; lia |].
    intros n Hn. unfold captured. simpl.
    destruct (Nat.eqb g n) eqn:E; [discriminate |].
    apply C. simpl in Hn. unfold mentions in Hn. simpl in Hn.
    rewrite (Nat.eqb_sym n g), E in Hn. simpl in Hn. exact Hn.
  - destruct (m input f a x Some); [discriminate |].
    exists x. split; [exact H |]. split; [simpl; lia |].
    intros n [C | [C _]]; [discriminate | exact C].
  - destruct (at_line_start input f (endIndex x)); [| discriminate].
    exists x. split; [exact H |]. split; [simpl; lia |].
    intros n [C | [C _]]; [discriminate | exact C].
  - destruct (at_line_end input f (endIndex x)); [| discriminate].
    exists x. split; [exact H |]. split; [simpl; lia |].
    intros n [C | [C _]]; [discriminate | exact C].
Qed.

(** A match of a pattern that cannot match the empty string ends after
    its start; a group the pattern always sets is defined. *)
Lemma match_at_follows (r : regex) (i : nat) (st : mstate) :
  match_at input f r i = Some st ->
  i + min_len r <= endIndex st /\
  forall n, sets n r = true -> captured n st.
Proof.
  unfold match_at. intros H. apply m_follows in H.
  destruct H as (y & E & [L C]). inversion E; subst y. simpl in L.
  split; [exact L |]. intros n S. apply C. left. exact S.
Qed.

Lemma scan_index (r : regex) (n : nat) : forall i j st,
  scan input f r n i = Some (j, st) ->
  i <= j < i + n /\ match_at input f r j = Some st.
Proof.
  induction n as [| n IH]; intros i j st H; simpl in H; [discriminate |].
  destruct (match_at input f r i) eqn:E.
  - inversion H; subst. split; [lia | exact E].
  - apply IH in H. destruct H as [H1 H2]. split; [lia | exact H2].
Qed.

End MatcherFacts.

(** ** The iteration counter never cuts a repetition short *)

Section Fuel.
Variable input : jsstring.
Variable f : flags.

Lemma step_char_agree p x k1 k2 :
  agree input x k1 k2 -> step_char input p x k1 = step_char input p x k2.
Proof.
  intros A. unfold step_char, char_at.
  destruct (nth_error input (endIndex x)) as [c |] eqn:E; [| reflexivity].
  destruct (p c); [| reflexivity].
  apply A. simpl.
  assert (endIndex x < List.length input) by (apply nth_error_Some; congruence).
  lia.
Qed.

Lemma rep_loop_agree (ma : mstate -> (mstate -> option mstate) -> option mstate)
      (gs : list nat) (k1 k2 : mstate -> option mstate) :
  (forall x k k', endIndex x <= List.length input -> agree input x k k' -> ma x k = ma x k') ->
  forall fuel1 fuel2 mn mx x,
    endIndex x <= List.length input ->
    agree input x k1 k2 ->
    mn + (List.length input - endIndex x) < fuel1 ->
    mn + (List.length input - endIndex x) < fuel2 ->
    rep_loop ma gs k1 fuel1 mn mx x = rep_loop ma gs k2 fuel2 mn mx x.
Proof.
  intros Ha. induction fuel1 as [| fuel1 IH]; intros fuel2 mn mx x Hx A F1 F2; [lia |].
  destruct fuel2 as [| fuel2]; [lia |].
  cbn [rep_loop].
  assert (E : ma {| endIndex := endIndex x; captures := clear gs (captures x) |}
                 (fun y => if Nat.eqb mn 0 && Nat.eqb (endIndex y) (endIndex x)
                           then None
                           else rep_loop ma gs k1 fuel1 (Nat.pred mn) (option_map Nat.pred mx) y)
              = ma {| endIndex := endIndex x; captures := clear gs (captures x) |}
                   (fun y => if Nat.eqb mn 0 && Nat.eqb (endIndex y) (endIndex x)
                             then None
                             else rep_loop ma gs k2 fuel2 (Nat.pred mn) (option_map Nat.pred mx) y)).
  { apply Ha; [exact Hx |]. intros y Hy. cbn [endIndex] in Hy.
    destruct (Nat.eqb mn 0 && Nat.eqb (endIndex y) (endIndex x)) eqn:T; [reflexivity |].
    apply IH.
    - lia.
    - intros z Hz. apply A. lia.
    - apply andb_false_iff in T. destruct T as [T | T].
      + apply Nat.eqb_neq in T. lia.
      + apply Nat.eqb_neq in T. lia.
    - apply andb_false_iff in T. destruct T as [T | T].
      + apply Nat.eqb_neq in T. lia.
      + apply Nat.eqb_neq in T. lia. }
  rewrite E. rewrite (A x) by lia. reflexivity.
Qed.

Lemma m_agree (r : regex) : forall x k1 k2,
  endIndex x <= List.length input -> agree input x k1 k2 ->
  m input f r x k1 = m input f r x k2.
Proof.
  induction r as [| c | p | a IHa b IHb | a IHa b IHb | mn mx a IHa | g a IHa | a IHa | |];
    intros x k1 k2 Hx A; cbn [m].
  - apply A. lia.
  - apply step_char_agree. exact A.
  - apply step_char_agree. exact A.
  - apply IHa; [exact Hx |]. intros y Hy. apply IHb; [lia |].
    intros z Hz. apply A. lia.
  - rewrite (IHa x k1 k2 Hx A), (IHb x k1 k2 Hx A). reflexivity.
  - apply rep_loop_agree; try assumption; lia.
  - apply IHa; [exact Hx |]. intros y Hy. apply A. cbn [endIndex]. lia.
  - rewrite (A x) by lia. reflexivity.
  - rewrite (A x) by lia. reflexivity.
  - rewrite (A x) by lia. reflexivity.
Qed.

(** More iterations than the counter allows are never needed: a larger
    counter gives the same result. *)
Lemma rep_loop_fuel (a : regex) (k : mstate -> option mstate)
      (fuel1 fuel2 mn : nat) (mx : option nat) (x : mstate) :
  endIndex x <= List.length input ->
  mn + (List.length input - endIndex x) < fuel1 ->
  mn + (List.length input - endIndex x) < fuel2 ->
  rep_loop (m input f a) (groups_of a) k fuel1 mn mx x
  = rep_loop (m input f a) (groups_of a) k fuel2 mn mx x.
Proof.
  intros Hx F1 F2. apply rep_loop_agree; try assumption.
  - intros y k1 k2. apply m_agree.
  - intros y _. reflexivity.
Qed.

End Fuel.

(** ** Order on positive finite numbers *)

Lemma in_range_posfin (x : float) : in_range x -> posfin x.
Proof.
  unfold in_range, posfin. rewrite !ltb_spec.
  change (Prim2SF 0) with (S754_zero false).
  intros [H1 H2].
  destruct (Prim2SF x) as [s | s | | s mm e].
  - discriminate.
  - destruct s; [discriminate |]. vm_compute in H2. discriminate.
  - discriminate.
  - destruct s; [discriminate |]. eauto.
Qed.

Lemma sub_pos_ltb (a b : float) :
  posfin a -> posfin b -> (0 <? b - a)%float = (a <? b)%float.
Proof.
  intros (ma & ea & Ha) (mb & eb & Hb).
  rewrite !ltb_spec, sub_spec, Ha, Hb.
  change (Prim2SF 0) with (S754_zero false).
  apply SFsub_pos_ltb.
  - rewrite <- Ha. apply Prim2SF_valid.
  - rewrite <- Hb. apply Prim2SF_valid.
Qed.

Lemma ltb_trans (a b c : float) :
  posfin a -> posfin b -> posfin c ->
  (a <? b)%float = true -> (b <? c)%float = true -> (a <? c)%float = true.
Proof.
  intros (ma & ea & Ha) (mb & eb & Hb) (mc & ec & Hc).
  rewrite !ltb_spec, Ha, Hb, Hc. unfold SFltb. cbn [SFcompare].
  change (PosDef.Pos.compare_cont Eq ma mb) with (Z.compare (Zpos ma) (Zpos mb)).
  change (PosDef.Pos.compare_cont Eq mb mc) with (Z.compare (Zpos mb) (Zpos mc)).
  change (PosDef.Pos.compare_cont Eq ma mc) with (Z.compare (Zpos ma) (Zpos mc)).
  destruct (Z.compare_spec ea eb), (Z.compare_spec eb ec), (Z.compare_spec ea ec),
    (Z.compare_spec (Zpos ma) (Zpos mb)), (Z.compare_spec (Zpos mb) (Zpos mc)),
    (Z.compare_spec (Zpos ma) (Zpos mc)); intros; try discriminate; try reflexivity; exfalso; lia.
Qed.

Lemma ltb_total (a b : float) :
  posfin a -> posfin b ->
  (a =? b)%float = false -> (a <? b)%float = true \/ (b <? a)%float = true.
Proof.
  intros (ma & ea & Ha) (mb & eb & Hb).
  rewrite !ltb_spec, eqb_spec, Ha, Hb. unfold SFltb, SFeqb. cbn [SFcompare].
  change (PosDef.Pos.compare_cont Eq ma mb) with (Z.compare (Zpos ma) (Zpos mb)).
  change (PosDef.Pos.compare_cont Eq mb ma) with (Z.compare (Zpos mb) (Zpos ma)).
  destruct (Z.compare_spec ea eb), (Z.compare_spec eb ea),
    (Z.compare_spec (Zpos ma) (Zpos mb)), (Z.compare_spec (Zpos mb) (Zpos ma));
    intros; try discriminate; auto; exfalso; lia.
Qed.

(** ** The sort *)

Lemma insert_In (cmp : float -> float -> float) (x z : float) (l : list float) :
  In z (insert cmp x l) <-> z = x \/ In z l.
Proof.
  induction l as [| y l IH]; simpl.
  - intuition.
  - destruct (0 <? cmp y x)%float; simpl; [intuition |].
    rewrite IH. intuition.
Qed.

Lemma sort_In (cmp : float -> float -> float) (z : float) (l : list float) :
  In z (sort cmp l) <-> In z l.
Proof.
  unfold sort.
  assert (G : forall acc, In z (fold_left (fun acc x => insert cmp x acc) l acc)
                          <-> In z acc \/ In z l).
  { induction l as [| x l IH]; intros acc; simpl.
    - intuition.
    - rewrite IH, insert_In. intuition. }
  rewrite G. simpl. intuition.
Qed.

Lemma insert_sorted (x : float) (l : list float) :
  posfin x -> Forall posfin l ->
  Forall (fun y => (y =? x)%float = false) l ->
  StronglySorted gt l ->
  StronglySorted gt (insert descending x l).
Proof.
  intros Px Pl Dl Sl. induction l as [| y l IH]; simpl.
  - constructor; constructor.
  - inversion Pl as [| ? ? Py Pl']; subst.
    inversion Dl as [| ? ? Dy Dl']; subst.
    inversion Sl as [| ? ? Sl' Hy]; subst.
    unfold descending at 1. rewrite sub_pos_ltb by assumption.
    destruct (y <? x)%float eqn:E.
    + constructor; [exact Sl |]. constructor; [exact E |].
      rewrite Forall_forall in *. intros z Hz. unfold gt.
      apply ltb_trans with y; auto. apply Hy. exact Hz.
    + constructor; [apply IH; assumption |].
      rewrite Forall_forall. intros z Hz. apply insert_In in Hz.
      destruct Hz as [-> | Hz].
      * destruct (ltb_total y x Py Px Dy) as [H | H]; [congruence | exact H].
      * rewrite Forall_forall in Hy. apply Hy. exact Hz.
Qed.

Lemma sort_sorted (l : list float) :
  Forall posfin l -> distinct l -> StronglySorted gt (sort descending l).
Proof.
  unfold sort.
  assert (G : forall acc,
             Forall posfin acc -> StronglySorted gt acc ->
             Forall posfin l -> distinct l ->
             (forall y x, In y acc -> In x l -> (y =? x)%float = false) ->
             StronglySorted gt (fold_left (fun acc x => insert descending x acc) l acc)).
  { induction l as [| x l IH]; intros acc Pa Sa Pl Dl Hd; simpl; [exact Sa |].
    inversion Pl as [| ? ? Px Pl']; subst. destruct Dl as [Dx Dl].
    apply IH; try assumption.
    - rewrite Forall_forall in *. intros z Hz. apply insert_In in Hz.
      destruct Hz as [-> | Hz]; auto.
    - apply insert_sorted; try assumption.
      rewrite Forall_forall. intros y Hy. apply Hd; simpl; auto.
    - intros y z Hy Hz. apply insert_In in Hy. destruct Hy as [-> | Hy].
      + rewrite Forall_forall in Dx. apply Dx. exact Hz.
      + apply Hd; simpl; auto. }
  intros Pl Dl. apply G; try assumption; try constructor.
  intros y x [].
Qed.

(** ** The set of amounts *)

Lemma distinct_snoc (s : list float) (x : float) :
  distinct s -> Forall (fun y => (y =? x)%float = false) s -> distinct (s ++ [x]).
Proof.
  induction s as [| y s IH]; simpl; intros D H.
  - split; [constructor | exact I].
  - destruct D as [Dy D]. inversion H; subst.
    split; [| apply IH; assumption].
    apply Forall_app. split; [exact Dy |]. constructor; [assumption | constructor].
Qed.

Lemma Set_add_inv (s : list float) (x : float) :
  amounts_inv s -> in_range x -> amounts_inv (Set_add s x).
Proof.
  intros [R D] Rx. unfold Set_add, Set_has.
  destruct (existsb (fun y => same_value_zero y x) s) eqn:E; [split; assumption |].
  split.
  - apply Forall_app. split; [exact R |]. constructor; [exact Rx | constructor].
  - apply distinct_snoc; [exact D |].
    rewrite Forall_forall. intros y Hy.
    assert (H : same_value_zero y x = false).
    { destruct (same_value_zero y x) eqn:H; [| reflexivity].
      rewrite <- E. symmetry. apply existsb_exists. exists y. auto. }
    unfold same_value_zero in H. apply orb_false_elim in H. tauto.
Qed.

(** ** The heap *)

Lemma store_app (pre : heap) (o o' : RegExp.object) (rest : heap) :
  store (pre ++ o :: rest) (List.length pre) o' = pre ++ o' :: rest.
Proof. induction pre as [| a pre IH]; simpl; [reflexivity | rewrite IH; reflexivity]. Qed.

Lemma nth_error_mid (pre : heap) (o : RegExp.object) (rest : heap) :
  nth_error (pre ++ o :: rest) (List.length pre) = Some o.
Proof. induction pre as [| a pre IH]; simpl; [reflexivity | exact IH]. Qed.

(** ** The loop over one pattern *)

Lemma while_exec_obj (text : jsstring) (pre rest : heap) (fuel : nat) :
  forall (o : RegExp.object) (amounts : list float),
    while_exec fuel (List.length pre) text amounts (pre ++ o :: rest)
    = (fst (while_obj fuel o text amounts),
       pre ++ snd (while_obj fuel o text amounts) :: rest).
Proof.
  induction fuel as [| fuel IH]; intros o amounts; cbn [while_exec while_obj];
    [reflexivity |].
  unfold exec_at. rewrite nth_error_mid.
  destruct (RegExp.exec o text) as [[match_ |] o'] eqn:E; rewrite store_app.
  - destruct (group text match_ 1) as [g |]; [| reflexivity].
    apply IH.
  - reflexivity.
Qed.

Lemma collect_inv (amounts : list float) (g : jsstring) :
  amounts_inv amounts -> amounts_inv (collect amounts g).
Proof.
  intros H. unfold collect.
  destruct (negb _ && _ && _) eqn:E; [| exact H].
  apply andb_prop in E. destruct E as [E E3]. apply andb_prop in E. destruct E as [_ E2].
  apply Set_add_inv; [exact H | split; assumption].
Qed.

Lemma while_obj_ok (text : jsstring) (fuel : nat) :
  forall (o : RegExp.object) (amounts : list float),
    scanning o ->
    S (List.length text) - lastIndex o < fuel ->
    amounts_inv amounts ->
    exists amounts',
      while_obj fuel o text amounts = (Ok amounts', rewound o) /\ amounts_inv amounts'.
Proof.
  induction fuel as [| fuel IH]; intros o amounts S F A; [lia |].
  destruct S as (G & L & C). cbn [while_obj]. unfold RegExp.exec. rewrite G.
  destruct (scan text (flag o) (source o) (S (List.length text) - lastIndex o) (lastIndex o))
    as [[i st] |] eqn:E.
  - apply scan_index in E. destruct E as [Hi E].
    apply match_at_follows in E. destruct E as [Hl Hc].
    specialize (Hc 1 C). unfold captured in Hc. cbn [group groups].
    destruct (lookup 1 (captures st)) as [[a b] |]; [| congruence].
    destruct (IH {| source := source o; flag := flag o; lastIndex := endIndex st |}
                 (collect amounts (substring text a b))) as (amounts' & E' & A').
    + repeat split; assumption.
    + cbn [lastIndex]. lia.
    + apply collect_inv. exact A.
    + exists amounts'. split; [exact E' | exact A'].
  - exists amounts. split; [reflexivity | exact A].
Qed.

Lemma forEach_run (text : jsstring) (objs : heap) :
  forall (pre : heap) (amounts : list float),
    Forall (fun o => scanning o /\ lastIndex o = 0) objs ->
    amounts_inv amounts ->
    forEach (List.seq (List.length pre) (List.length objs)) text amounts (pre ++ objs)
    = (Ok (run_all objs text amounts), pre ++ objs)
    /\ amounts_inv (run_all objs text amounts).
Proof.
  induction objs as [| o objs IH]; intros pre amounts G A; simpl.
  - split; [reflexivity | exact A].
  - inversion G as [| ? ? [So Lo] G']; subst.
    rewrite while_exec_obj.
    destruct (while_obj_ok text (List.length text + 2) o amounts So) as (amounts' & E & A');
      [lia | exact A |].
    rewrite E. cbn [fst snd].
    assert (R : rewound o = o) by (destruct o; unfold rewound; simpl in *; subst; reflexivity).
    rewrite R.
    specialize (IH (pre ++ [o]) amounts' G' A').
    rewrite length_app, Nat.add_1_r in IH. simpl in IH.
    rewrite <- app_assoc in IH. simpl in IH. exact IH.
Qed.

Lemma patterns_scanning :
  Forall (fun o => scanning o /\ lastIndex o = 0) patterns.
Proof.
  unfold patterns, scanning.
  repeat constructor; vm_compute; lia.
Qed.

Lemma extract_detected (text : jsstring) (h : heap) :
  extractAmountsFromText text h = (Ok (detected text), h ++ patterns)
  /\ amounts_inv (run_all patterns text []).
Proof.
  destruct (forEach_run text patterns h [] patterns_scanning) as [E A].
  { split; constructor. }
  split; [| exact A].
  unfold extractAmountsFromText, alloc.
  rewrite !length_app. simpl List.length.
  rewrite <- !app_assoc. simpl app.
  rewrite !Nat.add_1_r.
  change [List.length h; S (List.length h); S (S (List.length h)); S (S (S (List.length h)))]
    with (List.seq (List.length h) (List.length patterns)).
  change [pattern_dollars_cents; pattern_whole_dollars; pattern_bare_cents; pattern_after_keyword]
    with patterns.
  rewrite E. reflexivity.
Qed.

Lemma posfin_ltb_irrefl (x : float) : posfin x -> (x <? x)%float = false.
Proof.
  intros (mm & e & H). rewrite ltb_spec, H. unfold SFltb. cbn [SFcompare].
  change (PosDef.Pos.compare_cont Eq mm mm) with (Z.compare (Zpos mm) (Zpos mm)).
  rewrite !Z.compare_refl. reflexivity.
Qed.

Lemma posfin_not_nan (x : float) : posfin x -> Number.isNaN x = false.
Proof.
  intros (mm & e & H). unfold Number.isNaN, is_nan.
  rewrite eqb_spec, H. unfold SFeqb. cbn [SFcompare].
  change (PosDef.Pos.compare_cont Eq mm mm) with (Z.compare (Zpos mm) (Zpos mm)).
  rewrite !Z.compare_refl. reflexivity.
Qed.

Lemma in_range_leb (x : float) :
  in_range x -> (x <=? 0)%float = false /\ (10000 <=? x)%float = false.
Proof.
  intros R. pose proof (in_range_posfin x R) as (mm & e & H).
  destruct R as [_ R2]. revert R2.
  rewrite ltb_spec, !leb_spec, H.
  change (Prim2SF 0) with (S754_zero false).
  destruct (Prim2SF 10000) as [s | s | | s q eq]; try (destruct s); cbn; try discriminate; auto.
  change (PosDef.Pos.compare_cont Eq mm q) with (Z.compare (Zpos mm) (Zpos q)).
  change (PosDef.Pos.compare_cont Eq q mm) with (Z.compare (Zpos q) (Zpos mm)).
  destruct (Z.compare_spec (Zpos mm) (Zpos q)), (Z.compare_spec (Zpos q) (Zpos mm)),
    (Z.compare_spec e eq), (Z.compare_spec eq e);
    intros; try discriminate; auto; exfalso; lia.
Qed.

Lemma sorted_NoDup (l : list float) :
  Forall posfin l -> StronglySorted gt l -> NoDup l.
Proof.
  intros P S. induction S as [| x l S IH H]; constructor.
  - inversion P as [| ? ? Px Pl]; subst. intros Hin.
    rewrite Forall_forall in H. specialize (H x Hin). unfold gt in H.
    rewrite posfin_ltb_irrefl in H by exact Px. discriminate.
  - apply IH. inversion P; assumption.
Qed.

(** C1: for every text, [extractAmountsFromText] returns, and the list it
    returns is strictly decreasing: every amount is greater than all the
    amounts after it, so the list is in descending order and holds no
    amount twice. *)
Theorem extractAmountsFromText_strictly_decreasing (text : jsstring) (h : heap) :
  exists (amounts : list float) (h' : heap),
    extractAmountsFromText text h = (Ok amounts, h')
    /\ StronglySorted (fun a b => (b <? a)%float = true) amounts
    /\ NoDup amounts.
Proof.
  destruct (extract_detected text h) as [E [R D]].
  exists (detected text), (h ++ patterns).
  assert (P : Forall posfin (run_all patterns text [])).
  { rewrite Forall_forall in *. intros x Hx. apply in_range_posfin. apply R. exact Hx. }
  assert (S : StronglySorted gt (detected text)) by (apply sort_sorted; assumption).
  split; [exact E |]. split; [exact S |].
  apply sorted_NoDup; [| exact S].
  rewrite Forall_forall in *. intros x Hx. apply P. apply (sort_In descending). exact Hx.
Qed.

(** C2: for every text, every amount in the list [extractAmountsFromText]
    returns is a number greater than 0 and less than 10000; a value that is
    [NaN], at most 0 or at least 10000 is not in the list. *)
Theorem extractAmountsFromText_in_range (text : jsstring) (h : heap) :
  exists (amounts : list float) (h' : heap),
    extractAmountsFromText text h = (Ok amounts, h')
    /\ Forall (fun x => (0 <? x)%float = true /\ (x <? 10000)%float = true) amounts
    /\ Forall (fun x => Number.isNaN x = false /\ (x <=? 0)%float = false
                        /\ (10000 <=? x)%float = false) amounts.
Proof.
  destruct (extract_detected text h) as [E [R D]].
  exists (detected text), (h ++ patterns).
  assert (R' : Forall in_range (detected text)).
  { rewrite Forall_forall in *. intros x Hx. apply R. apply (sort_In descending). exact Hx. }
  split; [exact E |]. split; [exact R' |].
  rewrite Forall_forall in *. intros x Hx. specialize (R' x Hx).
  split; [apply posfin_not_nan, in_range_posfin; exact R' | apply in_range_leb; exact R'].
Qed.

(** C5: the result of [extractAmountsFromText] depends on the text only.
    Whatever [RegExp] objects exist when it is called, and whatever their
    [lastIndex], it returns the same list; it leaves those objects as they
    are (its patterns are new objects); and a second call on what the
    first left behind returns the same list again. *)
Theorem extractAmountsFromText_stateless (text : jsstring) (h1 h2 : heap) :
  fst (extractAmountsFromText text h1) = fst (extractAmountsFromText text h2)
  /\ firstn (List.length h1) (snd (extractAmountsFromText text h1)) = h1
  /\ fst (extractAmountsFromText text (snd (extractAmountsFromText text h1)))
     = fst (extractAmountsFromText text h1).
Proof.
  destruct (extract_detected text h1) as [E1 _].
  destruct (extract_detected text h2) as [E2 _].
  destruct (extract_detected text (snd (extractAmountsFromText text h1))) as [E3 _].
  rewrite E3, E1, E2. cbn [fst snd].
  split; [reflexivity |]. split; [| reflexivity].
  rewrite firstn_app, Nat.sub_diag, firstn_all. simpl. apply app_nil_r.
Qed.

(** A receipt line: both dollar patterns, the bare amount and the keyword
    pattern find amounts; the whole-dollar pattern also finds the [1] that
    starts [$1,234.56] and [$12.34]. *)
Example extract_line :
  fst (extractAmountsFromText (str "Total: $1,234.56 and $12.34 x $5 7.25") [])
  = Ok [1234.56%float; 12.34%float; 7.25%float; 5%float; 1%float].
Proof. vm_compute. reflexivity. Qed.

(** Amounts of 0 and of 10000 or more are left out. *)
Example extract_receipt :
  fst (extractAmountsFromText
         (str ("STORE" ++ newline ++ "12.50" ++ newline
               ++ "SubTotal 12.5 due:3 TOTAL $ 9" ++ newline
               ++ " 0.00 $0.00 $10,000.00 amount 9999.99")) [])
  = Ok [9999.99%float; 12.5%float; 10%float; 3%float].
Proof. vm_compute. reflexivity. Qed.

(** [exec] itself is stateful: on the same object it goes on from
    [lastIndex]. *)
Example exec_goes_on_from_lastIndex :
  let text := str "$1.00 $2.00" in
  let '(r1, o1) := RegExp.exec pattern_dollars_cents text in
  let '(r2, o2) := RegExp.exec o1 text in
  let '(r3, o3) := RegExp.exec o2 text in
  (option_map index r1, option_map index r2, option_map index r3,
   lastIndex o1, lastIndex o2, lastIndex o3)
  = (Some 0, Some 6, None, 5, 11, 0).
Proof. vm_compute. reflexivity. Qed.

(** ** Sums *)

Lemma SFadd_not_neg_zero (x y : spec_float) :
  valid_binary x = true -> valid_binary y = true ->
  x <> S754_zero true ->
  SFadd prec emax x y <> S754_zero true.
Proof.
  intros Vx Vy Hx.
  destruct x as [sx | sx | | sx mx ex], y as [sy | sy | | sy my ey];
    try (destruct sx); try (destruct sy); cbn [SFadd]; try congruence.
  all: apply valid_binary_bounds in Vx; destruct Vx as [Hx1 _].
  all: apply valid_binary_bounds in Vy; destruct Vy as [Hy1 _].
  all: assert (Hez : (SpecFloat.emin prec emax <= Z.min ex ey)%Z) by lia.
  all: match goal with
       | |- binary_normalize _ _ ?d _ _ <> _ =>
           pose proof (binary_normalize_sign d (Z.min ex ey) Hez) as Hs;
           destruct d;
           [ rewrite Hs; discriminate
           | destruct Hs as [(m' & e' & ->) | ->]; discriminate
           | destruct Hs as [(m' & e' & ->) | ->]; discriminate ]
       end.
Qed.

Lemma add_not_neg_zero (s v : float) :
  neg_zero_free s -> neg_zero_free (s + v)%float.
Proof.
  unfold neg_zero_free. intros H. rewrite add_spec.
  apply SFadd_not_neg_zero; auto using Prim2SF_valid.
Qed.

Lemma add_zero_r (s : float) : neg_zero_free s -> (s + 0)%float = s.
Proof.
  unfold neg_zero_free. intros H. apply Prim2SF_inj. rewrite add_spec.
  change (Prim2SF 0) with (S754_zero false).
  destruct (Prim2SF s) as [[] | [] | | sx mx ex]; try reflexivity. congruence.
Qed.

Lemma add_neg_zero_r (s : float) : (s + neg_zero)%float = s.
Proof.
  apply Prim2SF_inj. rewrite add_spec.
  change (Prim2SF neg_zero) with (S754_zero true).
  destruct (Prim2SF s) as [[] | [] | | sx mx ex]; reflexivity.
Qed.

Lemma eqb_zero (x : float) :
  (x =? 0)%float = true -> x = zero \/ x = neg_zero.
Proof.
  rewrite eqb_spec. change (Prim2SF 0) with (S754_zero false).
  destruct (Prim2SF x) as [[] | [] | | [] mx ex] eqn:E; try discriminate; intros _.
  - right. apply Prim2SF_inj. exact E.
  - left. apply Prim2SF_inj. exact E.
Qed.

Lemma total_of_fold (l : list object) :
  total_of l = fold_left (fun sum expense => (sum + contribution expense)%float) l 0%float.
Proof. reflexivity. Qed.

Lemma fold_neg_zero_free (l : list object) : forall s,
  neg_zero_free s ->
  neg_zero_free (fold_left (fun sum expense => (sum + contribution expense)%float) l s).
Proof.
  induction l as [| e l IH]; intros s H; simpl; [exact H |].
  apply IH. apply add_not_neg_zero. exact H.
Qed.

Lemma zero_neg_zero_free : neg_zero_free 0%float.
Proof. unfold neg_zero_free. change (Prim2SF 0) with (S754_zero false). discriminate. Qed.

Lemma contribution_number (e : object) (x : float) :
  get (str "amount") e = Num x -> Number.isNaN x = false ->
  forall s, neg_zero_free s -> (s + contribution e)%float = (s + x)%float.
Proof.
  intros G N s Hs. unfold contribution, or_else. rewrite G. cbn [truthy]. rewrite N.
  destruct (x =? 0)%float eqn:Z; cbn [orb negb parseFloat].
  - change (0 =? 0)%float with true. cbn iota.
    destruct (eqb_zero x Z) as [-> | ->]; [reflexivity |].
    rewrite add_neg_zero_r. apply add_zero_r. exact Hs.
  - rewrite Z. reflexivity.
Qed.

(** C3: for every expense list whose records have a number (not [NaN]) as
    their amount, the total [calculateTotal] computes and stores is the sum
    of the amounts, added from zero in list order, each record once. *)
Theorem calculateTotal_sum (expenseList : list object) (amounts : list float) (w : World) :
  Forall2 (fun expense x => get (str "amount") expense = Num x /\ Number.isNaN x = false)
          expenseList amounts ->
  totalSpent (state (calculateTotal expenseList w))
  = fold_left (fun sum x => (sum + x)%float) amounts 0%float.
Proof.
  intros H. cbn [calculateTotal with_state state setTotalSpent totalSpent].
  rewrite total_of_fold.
  generalize zero_neg_zero_free. generalize 0%float as s.
  induction H as [| e x l xs [G N] H IH]; intros s Hs; simpl; [reflexivity |].
  rewrite (contribution_number e x G N s Hs).
  apply IH. apply add_not_neg_zero. exact Hs.
Qed.

Lemma calculateTotal_sum_witness :
  Forall2 (fun expense x => get (str "amount") expense = Num x /\ Number.isNaN x = false)
          sample_expenses [12.5%float; 0.1%float; 0.2%float]
  /\ totalSpent (state (calculateTotal sample_expenses initial))
     = fold_left (fun sum x => (sum + x)%float) [12.5%float; 0.1%float; 0.2%float] 0%float.
Proof.
  assert (H : Forall2 (fun expense x => get (str "amount") expense = Num x
                                        /\ Number.isNaN x = false)
                      sample_expenses [12.5%float; 0.1%float; 0.2%float]).
  { repeat constructor. }
  split; [exact H |].
  exact (calculateTotal_sum sample_expenses [12.5%float; 0.1%float; 0.2%float] initial H).
Defined.

(** C10: [calculateTotal] gives 0 on the empty list, and a record whose
    amount is missing, [null] or otherwise falsy adds nothing: the total is
    the total of the list without it. *)
Theorem calculateTotal_falsy_amount (w : World) :
  totalSpent (state (calculateTotal [] w)) = 0%float
  /\ forall (before after : list object) (expense : object),
       truthy (get (str "amount") expense) = false ->
       totalSpent (state (calculateTotal (before ++ expense :: after) w))
       = totalSpent (state (calculateTotal (before ++ after) w)).
Proof.
  split; [reflexivity |].
  intros before after e F.
  cbn [calculateTotal with_state state setTotalSpent totalSpent].
  rewrite !total_of_fold, !fold_left_app. cbn [fold_left].
  assert (C : contribution e = 0%float).
  { unfold contribution, or_else. rewrite F. reflexivity. }
  rewrite C, add_zero_r; [reflexivity |].
  apply fold_neg_zero_free, zero_neg_zero_free.
Qed.

Lemma calculateTotal_falsy_amount_witness :
  truthy (get (str "amount") [(str "id", Str (str "4")); (str "amount", Null)]) = false
  /\ totalSpent (state (calculateTotal
                          (sample_expenses
                             ++ [(str "id", Str (str "4")); (str "amount", Null)] :: [])
                          initial))
     = totalSpent (state (calculateTotal (sample_expenses ++ []) initial)).
Proof.
  split; [reflexivity |].
  exact (proj2 (calculateTotal_falsy_amount initial) sample_expenses []
               [(str "id", Str (str "4")); (str "amount", Null)] eq_refl).
Defined.

(** ** Persistence *)

Lemma jsstring_eqb_eq (a b : jsstring) : jsstring_eqb a b = true <-> a = b.
Proof.
  revert b. induction a as [| x a IH]; intros [| y b]; simpl; split; intros H;
    try reflexivity; try discriminate.
  - apply andb_prop in H. destruct H as [H1 H2].
    apply N.eqb_eq in H1. apply IH in H2. congruence.
  - inversion H; subst. rewrite N.eqb_refl. apply IH. reflexivity.
Qed.

Lemma plain_round_trip (v : value) :
  plain v -> exists j, serialize v = Some j /\ revive j = v.
Proof.
  destruct v as [| | b | x | s | l | ps]; simpl; intros H; try contradiction;
    try (eexists; split; reflexivity).
  destruct H as [F Z]. rewrite F. eexists. split; [reflexivity |].
  simpl. destruct (x =? 0)%float; [rewrite Z; reflexivity | reflexivity].
Qed.

Lemma members_round_trip (expense : object) :
  storable expense ->
  List.map (fun kv => (fst kv, revive (snd kv))) (members expense) = expense.
Proof.
  induction 1 as [| [k v] e P _ IH]; [reflexivity |].
  destruct (plain_round_trip v P) as (j & S & R).
  unfold members. cbn [flat_map snd fst]. rewrite S. cbn [app map fst snd].
  rewrite R. f_equal. exact IH.
Qed.

Lemma stringify_of_list (l : list object) :
  JSON.stringify (of_list l) = Some (JArr (List.map (fun e => JObj (members e)) l)).
Proof.
  unfold JSON.stringify, of_list. simpl. rewrite map_map. reflexivity.
Qed.

Lemma to_list_map_Obj (l : list object) : to_list (List.map Obj l) = Some l.
Proof. induction l as [| e l IH]; simpl; [reflexivity | rewrite IH; reflexivity]. Qed.

Lemma parse_stringify (l : list object) :
  Forall storable l ->
  JSON.parse (JArr (List.map (fun e => JObj (members e)) l)) = of_list l.
Proof.
  intros H. unfold JSON.parse, of_list. cbn [revive]. f_equal.
  induction H as [| e l P _ IH]; [reflexivity |].
  cbn [map revive]. rewrite members_round_trip by exact P. f_equal. exact IH.
Qed.

Lemma getItem_setItem (v : json) (sto : jsstring -> option json) :
  getItem (str "expenses") (setItem (str "expenses") v sto) = Some v.
Proof. reflexivity. Qed.

(** C4, amended: for every expense list whose records hold [null],
    booleans, strings and finite numbers other than negative zero (as the
    records [addExpense] creates from a finite amount do), saving the list
    and then loading restores that list, and the total of that list. *)
Theorem save_then_load (expenseList : list object) (w : World) :
  Forall storable expenseList ->
  expenses (state (loadExpenses true (saveExpenses expenseList true w))) = expenseList
  /\ totalSpent (state (loadExpenses true (saveExpenses expenseList true w)))
     = total_of expenseList.
Proof.
  intros H. unfold saveExpenses. rewrite stringify_of_list.
  unfold loadExpenses. cbn [storage]. rewrite getItem_setItem.
  rewrite (parse_stringify expenseList H). unfold of_list. rewrite to_list_map_Obj.
  split; reflexivity.
Qed.

Lemma save_then_load_witness :
  Forall storable (confirmed (str "12.50") (str "Corner Shop") (Str (str "file:///r.jpg")))
  /\ expenses (state (loadExpenses true
                        (saveExpenses (confirmed (str "12.50") (str "Corner Shop")
                                                 (Str (str "file:///r.jpg"))) true initial)))
     = confirmed (str "12.50") (str "Corner Shop") (Str (str "file:///r.jpg")).
Proof.
  assert (H : Forall storable (confirmed (str "12.50") (str "Corner Shop")
                                         (Str (str "file:///r.jpg")))).
  { vm_compute. repeat constructor; discriminate. }
  split; [exact H |].
  exact (proj1 (save_then_load _ initial H)).
Defined.

(** C4 as stated fails: with a receipt picked, an amount field that reads
    [1e999], or four hundred nines, parses to [Infinity], passes the
    validation of [addExpense], and is stored as [null]; what is loaded
    differs from what was saved. *)
Lemma save_then_load_infinite_amount :
  List.map (get (str "amount")) (confirmed (str "1e999") (str "Corner Shop") (Str (str "file:///r.jpg")))
  = [Num infinity]
  /\ List.map (get (str "amount")) (confirmed nines (str "Corner Shop") (Str (str "file:///r.jpg")))
     = [Num infinity]
  /\ List.map (get (str "amount"))
       (expenses (state (loadExpenses true
                           (saveExpenses (confirmed (str "1e999") (str "Corner Shop") (Str (str "file:///r.jpg")))
                                         true initial))))
     = [Null]
  /\ expenses (state (loadExpenses true
                        (saveExpenses (confirmed (str "1e999") (str "Corner Shop") (Str (str "file:///r.jpg")))
                                      true initial)))
     <> confirmed (str "1e999") (str "Corner Shop") (Str (str "file:///r.jpg")).
Proof.
  assert (A : List.map (get (str "amount")) (confirmed (str "1e999") (str "Corner Shop") (Str (str "file:///r.jpg")))
              = [Num infinity]) by (vm_compute; reflexivity).
  assert (A' : List.map (get (str "amount")) (confirmed nines (str "Corner Shop") (Str (str "file:///r.jpg")))
               = [Num infinity]) by (vm_compute; reflexivity).
  assert (B : List.map (get (str "amount"))
                (expenses (state (loadExpenses true
                                    (saveExpenses (confirmed (str "1e999") (str "Corner Shop") (Str (str "file:///r.jpg")))
                                                  true initial))))
              = [Null]) by (vm_compute; reflexivity).
  split; [exact A |]. split; [exact A' |]. split; [exact B |].
  intros E. rewrite E, A in B. discriminate B.
Qed.

(** ** The shape of expense records *)

Lemma serialize_defined (v : value) : v <> Undefined -> serialize v <> None.
Proof. destruct v; simpl; congruence. Qed.

Lemma revive_defined (j : json) : revive j <> Undefined.
Proof. destruct j; simpl; discriminate. Qed.

Lemma members_well_formed (expense : object) :
  Forall (fun kv => snd kv <> Undefined) expense ->
  keys (List.map (fun kv => (fst kv, revive (snd kv))) (members expense)) = keys expense
  /\ Forall (fun kv => snd kv <> Undefined)
            (List.map (fun kv => (fst kv, revive (snd kv))) (members expense)).
Proof.
  induction 1 as [| [k v] e D _ [IH1 IH2]]; [split; [reflexivity | constructor] |].
  unfold members. cbn [flat_map fst snd] in *.
  destruct (serialize v) as [j |] eqn:S; [| exfalso; exact (serialize_defined v D S)].
  cbn [app map fst snd keys]. split.
  - f_equal. exact IH1.
  - constructor; [apply revive_defined | exact IH2].
Qed.

Lemma saveExpenses_shape (l : list object) (io_ok : bool) (w : World) :
  shape_inv w -> Forall well_formed l -> shape_inv (saveExpenses l io_ok w).
Proof.
  intros I Hl. pose proof I as [He Hs]. unfold saveExpenses.
  destruct io_ok; [| exact I].
  rewrite stringify_of_list. split; [exact He |].
  cbn [storage]. rewrite getItem_setItem. intros doc E. inversion E; subst doc.
  exists (List.map (fun e => List.map (fun kv => (fst kv, revive (snd kv))) (members e)) l).
  split.
  - unfold JSON.parse, of_list. cbn [revive]. rewrite !map_map. reflexivity.
  - rewrite Forall_forall in *. intros e' Hin. apply in_map_iff in Hin.
    destruct Hin as (e & <- & Hin). destruct (Hl e Hin) as [K D].
    destruct (members_well_formed e D) as [K' D'].
    split; [rewrite K'; exact K | exact D'].
Qed.

Lemma loadExpenses_shape (io_ok : bool) (w : World) :
  shape_inv w -> shape_inv (loadExpenses io_ok w).
Proof.
  intros I. pose proof I as [He Hs]. unfold loadExpenses.
  destruct io_ok; [| exact I].
  destruct (getItem (str "expenses") (storage w)) as [doc |] eqn:G; [| exact I].
  destruct (Hs doc eq_refl) as (l & P & Hl). rewrite P. unfold of_list.
  rewrite to_list_map_Obj. split; [exact Hl |].
  exact (proj2 I).
Qed.

Lemma with_expenses_shape (l : list object) (w : World) :
  shape_inv w -> Forall well_formed l ->
  shape_inv (calculateTotal l (with_state (setExpenses l) w)).
Proof. intros [He Hs] Hl. split; [exact Hl | exact Hs]. Qed.

(** C6, amended: a record built by [addExpense] has the five fields of the
    glossary and an identifier, [id]; adding, deleting, saving and loading
    keep every record of the list and of the store in that shape, with no
    field [undefined]. *)
Theorem expense_shape_invariant (w : World) (c : pending) (now : N) (today : jsstring)
        (expenseId : value) (io_ok : bool) :
  shape_inv w ->
  Forall well_formed (p_expenses c) ->
  p_receiptPhoto c <> Undefined ->
  keys (newExpense c now today) = expense_keys
  /\ shape_inv (onPressAdd c now today io_ok w)
  /\ shape_inv (deleteExpense expenseId io_ok w)
  /\ shape_inv (saveExpenses (expenses (state w)) io_ok w)
  /\ shape_inv (loadExpenses io_ok w).
Proof.
  intros I Hc Hp.
  assert (Hn : well_formed (newExpense c now today)).
  { split; [reflexivity |]. unfold newExpense. repeat constructor; simpl; congruence. }
  assert (Hu : Forall well_formed (p_expenses c ++ [newExpense c now today])).
  { apply Forall_app. split; [exact Hc | constructor; [exact Hn | constructor]]. }
  split; [reflexivity |]. split; [| split; [| split]].
  - unfold onPressAdd.
    pose proof (saveExpenses_shape _ io_ok _ (with_expenses_shape _ w I Hu) Hu) as [A B].
    split; [exact A | exact B].
  - unfold deleteExpense.
    assert (Hf : Forall well_formed
                   (List.filter (fun expense =>
                                   negb (strict_equals (get (str "id") expense) expenseId))
                                (expenses (state w)))).
    { destruct I as [He _]. rewrite Forall_forall in *. intros e Hin.
      apply filter_In in Hin. apply He. tauto. }
    exact (saveExpenses_shape _ io_ok _ (with_expenses_shape _ w I Hf) Hf).
  - apply saveExpenses_shape; [exact I | exact (proj1 I)].
  - apply loadExpenses_shape. exact I.
Qed.

Lemma initial_shape_inv : shape_inv initial.
Proof. split; [constructor | intros doc E; discriminate E]. Qed.

Lemma expense_shape_invariant_witness :
  shape_inv initial
  /\ keys (newExpense sample_pending 1700000000000 (str "11/2/2026")) = expense_keys
  /\ shape_inv (onPressAdd sample_pending 1700000000000 (str "11/2/2026") true initial).
Proof.
  split; [exact initial_shape_inv |].
  assert (H := expense_shape_invariant initial sample_pending 1700000000000
                 (str "11/2/2026") Null true initial_shape_inv
                 (Forall_nil well_formed)
                 (fun E : p_receiptPhoto sample_pending = Undefined =>
                    eq_ind (Str (str "file:///r.jpg"))
                           (fun v => match v with Undefined => False | _ => True end)
                           I Undefined E)).
  split; [exact (proj1 H) | exact (proj1 (proj2 H))].
Defined.

(** C6 as stated fails: the record has an [id] besides the five fields of
    the glossary. *)
Lemma expense_shape_has_id :
  keys (newExpense sample_pending 1700000000000 (str "11/2/2026"))
  = str "id" :: glossary_keys
  /\ keys (newExpense sample_pending 1700000000000 (str "11/2/2026")) <> glossary_keys.
Proof. split; [reflexivity | discriminate]. Qed.

(** ** Deleting *)

Lemma filter_removed (p : object -> bool) (l : list object) :
  removed (fun e => p e = false) l (List.filter p l).
Proof.
  induction l as [| e l IH]; simpl; [constructor |].
  destruct (p e) eqn:E.
  - apply removed_keep; [congruence | exact IH].
  - apply removed_drop; [exact E | exact IH].
Qed.

Lemma removed_iff (P Q : object -> Prop) (l l' : list object) :
  (forall e, P e <-> Q e) -> removed P l l' -> removed Q l l'.
Proof.
  intros E H. induction H.
  - constructor.
  - apply removed_drop; [apply E; assumption | assumption].
  - apply removed_keep; [rewrite <- E; assumption | assumption].
Qed.

(** C8: [deleteExpense] removes the records whose [id] is strictly equal to
    the given one and no other; the records that stay are unchanged and in
    their order; the total is the total of the records that stay, and they
    are what is saved (when the store accepts the write). *)
Theorem deleteExpense_removes (expenseId : value) (io_ok : bool) (w : World) :
  removed (fun expense => strict_equals (get (str "id") expense) expenseId = true)
          (expenses (state w))
          (expenses (state (deleteExpense expenseId io_ok w)))
  /\ totalSpent (state (deleteExpense expenseId io_ok w))
     = total_of (expenses (state (deleteExpense expenseId io_ok w)))
  /\ (if io_ok
      then option_map JSON.parse
             (getItem (str "expenses") (storage (deleteExpense expenseId io_ok w)))
           = option_map JSON.parse
               (JSON.stringify (of_list (expenses (state (deleteExpense expenseId io_ok w)))))
      else storage (deleteExpense expenseId io_ok w) = storage w).
Proof.
  unfold deleteExpense.
  set (l' := List.filter _ (expenses (state w))).
  assert (E : expenses (state (saveExpenses l' io_ok (calculateTotal l' (with_state (setExpenses l') w)))) = l'
              /\ totalSpent (state (saveExpenses l' io_ok (calculateTotal l' (with_state (setExpenses l') w)))) = total_of l').
  { unfold saveExpenses. rewrite stringify_of_list. destruct io_ok; split; reflexivity. }
  destruct E as [E1 E2]. rewrite E1, E2.
  split; [| split; [reflexivity |]].
  - unfold l'.
    pose proof (filter_removed
                  (fun expense => negb (strict_equals (get (str "id") expense) expenseId))
                  (expenses (state w))) as H.
    apply removed_iff with (2 := H). intros e. apply negb_false_iff.
  - unfold saveExpenses. rewrite stringify_of_list. destruct io_ok; reflexivity.
Qed.

(** Two receipts are confirmed and the first is deleted: the second stays. *)
Example deleteExpense_first_of_two :
  let c1 := sample_pending in
  let w1 := onPressAdd c1 1700000000000 (str "11/2/2026") true initial in
  let c2 := {| p_amount := 3%float; p_merchantName := str "Bakery";
               p_expenses := expenses (state w1); p_receiptPhoto := Null;
               p_extractedText := [] |} in
  let w2 := onPressAdd c2 1700000000555 (str "11/2/2026") true w1 in
  let w3 := deleteExpense (Str (str "1700000000000")) true w2 in
  List.map (get (str "id")) (expenses (state w2))
  = [Str (str "1700000000000"); Str (str "1700000000555")]
  /\ List.map (get (str "id")) (expenses (state w3)) = [Str (str "1700000000555")]
  /\ totalSpent (state w2) = 15.5%float
  /\ totalSpent (state w3) = 3%float.
Proof. vm_compute. repeat split; reflexivity. Qed.

(** ** Validation *)

(** C9: when the amount field is empty, does not parse to a number, or
    parses to a value that is at most 0, [addExpense] shows the
    invalid-amount alert and does nothing else: the list, the store and
    the total are as before. *)
Theorem addExpense_invalid (w : World) :
  selectedAmount (state w) = []
  \/ Number.isNaN (Number.parseFloat (selectedAmount (state w))) = true
  \/ (Number.parseFloat (selectedAmount (state w)) <=? 0)%float = true ->
  addExpense w = Alert_alert InvalidAmount w
  /\ expenses (state (addExpense w)) = expenses (state w)
  /\ totalSpent (state (addExpense w)) = totalSpent (state w)
  /\ storage (addExpense w) = storage w
  /\ state (addExpense w) = state w.
Proof.
  intros H.
  assert (E : addExpense w = Alert_alert InvalidAmount w).
  { unfold addExpense. cbn [truthy].
    destruct H as [H | [H | H]]; rewrite H; rewrite ?orb_true_r; reflexivity. }
  rewrite E. repeat split; reflexivity.
Qed.

Lemma addExpense_invalid_witness :
  (Number.parseFloat (str "-3") <=? 0)%float = true
  /\ addExpense (with_state (setSelectedAmount (str "-3")) initial)
     = Alert_alert InvalidAmount (with_state (setSelectedAmount (str "-3")) initial).
Proof.
  assert (H : (Number.parseFloat (str "-3") <=? 0)%float = true) by (vm_compute; reflexivity).
  split; [exact H |].
  exact (proj1 (addExpense_invalid (with_state (setSelectedAmount (str "-3")) initial)
                                   (or_intror (or_intror H)))).
Defined.

(** ** Replacing with a pattern *)

Section ReplaceClass.
Variable p : code_unit -> bool.

Lemma nth_error_after (pre suf : jsstring) :
  nth_error (pre ++ suf) (List.length pre) = nth_error suf 0.
Proof. induction pre as [| a pre IH]; simpl; [reflexivity | exact IH]. Qed.

Lemma skipn_after (pre suf : jsstring) : skipn (List.length pre) (pre ++ suf) = suf.
Proof. induction pre as [| a pre IH]; simpl; [reflexivity | exact IH]. Qed.

Lemma substring_middle (pre a rest : jsstring) :
  substring (pre ++ a ++ rest) (List.length pre) (List.length pre + List.length a) = a.
Proof.
  unfold substring. rewrite skipn_after.
  replace (List.length pre + List.length a - List.length pre) with (List.length a) by lia.
  rewrite firstn_app, Nat.sub_diag, firstn_all. simpl. apply app_nil_r.
Qed.

(** The first character of [suf] in the class, if any. *)
Lemma first_in_class (suf : jsstring) :
  Forall (fun c => p c = false) suf
  \/ exists a c b, suf = a ++ c :: b /\ Forall (fun c => p c = false) a /\ p c = true.
Proof.
  induction suf as [| c suf IH]; [left; constructor |].
  destruct (p c) eqn:E.
  - right. exists [], c, suf. repeat split; [constructor | exact E].
  - destruct IH as [IH | (a & c' & b & -> & Ha & Hc)].
    + left. constructor; assumption.
    + right. exists (c :: a), c', b. repeat split; [constructor; assumption | exact Hc].
Qed.

Lemma scan_class_none (f : flags) (suf : jsstring) : forall pre,
  Forall (fun c => p c = false) suf ->
  scan (pre ++ suf) f (Cls p) (S (List.length suf)) (List.length pre) = None.
Proof.
  induction suf as [| c suf IH]; intros pre H; cbn [scan].
  - unfold match_at. cbn [m]. unfold step_char, char_at. cbn [endIndex].
    rewrite nth_error_after. reflexivity.
  - inversion H as [| ? ? Hc Hs]; subst.
    unfold match_at at 1. cbn [m]. unfold step_char, char_at. cbn [endIndex].
    rewrite nth_error_after. cbn [nth_error]. rewrite Hc.
    specialize (IH (pre ++ [c]) Hs).
    rewrite <- app_assoc, length_app, Nat.add_1_r in IH. exact IH.
Qed.

Lemma scan_class_some (f : flags) (a : jsstring) : forall pre c b n,
  Forall (fun c => p c = false) a -> p c = true ->
  scan (pre ++ a ++ c :: b) f (Cls p) (S (List.length a + n)) (List.length pre)
  = Some (List.length pre + List.length a,
          {| endIndex := S (List.length pre + List.length a); captures := [] |}).
Proof.
  induction a as [| x a IH]; intros pre c b n Ha Hc; cbn [scan].
  - unfold match_at. cbn [m]. unfold step_char, char_at. cbn [endIndex app].
    rewrite nth_error_after. cbn [nth_error]. rewrite Hc. cbn [List.length].
    rewrite Nat.add_0_r. reflexivity.
  - inversion Ha as [| ? ? Hx Ha']; subst.
    unfold match_at at 1. cbn [m]. unfold step_char, char_at. cbn [endIndex].
    rewrite nth_error_after. cbn [app nth_error]. rewrite Hx.
    specialize (IH (pre ++ [x]) c b n Ha' Hc).
    rewrite <- app_assoc, length_app, Nat.add_1_r in IH. cbn [app] in IH.
    change (List.length (x :: a) + n) with (S (List.length a + n)).
    rewrite IH. cbn [List.length]. f_equal. f_equal; [lia | f_equal; lia].
Qed.

Lemma replace_loop_class (replacement : jsstring) (fuel : nat) : forall suf pre acc,
  List.length suf < fuel ->
  JSString.replace_loop fuel
    {| source := Cls p; flag := only_global; lastIndex := List.length pre |}
    (pre ++ suf) replacement (List.length pre) acc
  = acc ++ List.flat_map (fun c => if p c then replacement else [c]) suf.
Proof.
  induction fuel as [| fuel IH]; intros suf pre acc F; [lia |].
  cbn [JSString.replace_loop]. unfold RegExp.exec.
  cbn [flag global only_global lastIndex source].
  replace (S (List.length (pre ++ suf)) - List.length pre) with (S (List.length suf))
    by (rewrite length_app; lia).
  destruct (first_in_class suf) as [H | (a & c & b & -> & Ha & Hc)].
  - rewrite scan_class_none by exact H. rewrite skipn_after. f_equal.
    clear -H. induction H as [| c suf Hc _ IH]; [reflexivity |].
    cbn [flat_map]. rewrite Hc, <- IH. reflexivity.
  - replace (S (List.length (a ++ c :: b))) with (S (List.length a + S (List.length b)))
      by (rewrite length_app; simpl; lia).
    rewrite scan_class_some by assumption.
    cbn [matched index endIndex].
    assert (M : substring (pre ++ a ++ c :: b) (List.length pre + List.length a)
                          (S (List.length pre + List.length a)) = [c]).
    { pose proof (substring_middle (pre ++ a) [c] b) as S.
      rewrite <- !app_assoc, length_app in S. cbn [app List.length] in S.
      rewrite Nat.add_1_r in S. exact S. }
    rewrite M. cbn [List.length Nat.eqb].
    assert (L : Nat.leb (List.length pre) (List.length pre + List.length a) = true)
      by (apply Nat.leb_le; lia).
    rewrite L. rewrite substring_middle.
    specialize (IH b (pre ++ a ++ [c]) (acc ++ a ++ replacement)).
    rewrite <- !app_assoc, !length_app in IH. cbn [app List.length] in IH.
    replace (List.length pre + (List.length a + 1)) with (S (List.length pre + List.length a)) in IH by lia.
    replace (List.length pre + List.length a + 1) with (S (List.length pre + List.length a)) by lia.
    rewrite IH by (rewrite length_app in F; simpl in F; lia).
    assert (A : List.flat_map (fun c => if p c then replacement else [c]) a = a).
    { clear -Ha. induction Ha as [| x a Hx _ IH]; [reflexivity |].
      cbn [flat_map]. rewrite Hx, IH. reflexivity. }
    rewrite flat_map_app, A. cbn [flat_map]. rewrite Hc.
    repeat rewrite <- app_assoc. reflexivity.
Qed.

End ReplaceClass.

Section ReplaceRuns.
Variable q : code_unit -> bool.

Lemma span_class (l : jsstring) :
  exists run rest, l = run ++ rest /\ Forall (fun c => q c = true) run /\ stops q rest.
Proof.
  induction l as [| c l (run & rest & -> & Hr & Hs)].
  - exists [], []. repeat split. constructor.
  - destruct (q c) eqn:E.
    + exists (c :: run), rest. repeat split; [constructor; assumption | exact Hs].
    + exists [], (c :: run ++ rest). repeat split; [constructor | exact E].
Qed.

Lemma first_run (suf : jsstring) :
  Forall (fun c => q c = false) suf
  \/ exists a run rest, suf = a ++ run ++ rest /\ Forall (fun c => q c = false) a
                        /\ 0 < List.length run /\ Forall (fun c => q c = true) run
                        /\ stops q rest.
Proof.
  induction suf as [| c suf IH]; [left; constructor |].
  destruct (q c) eqn:E.
  - right. destruct (span_class suf) as (run & rest & -> & Hr & Hs).
    exists [], (c :: run), rest. repeat split;
      [constructor | simpl; lia | constructor; assumption | exact Hs].
  - destruct IH as [IH | (a & run & rest & -> & Ha & Hn & Hr & Hs)].
    + left. constructor; assumption.
    + right. exists (c :: a), run, rest. repeat split; try assumption.
      constructor; assumption.
Qed.

Lemma rep_loop_unbounded (ma : mstate -> (mstate -> option mstate) -> option mstate)
      (gs : list nat) (k : mstate -> option mstate) (fuel mn : nat) (x : mstate) :
  rep_loop ma gs k (S fuel) mn None x
  = match mn with
    | S _ =>
        ma {| endIndex := endIndex x; captures := clear gs (captures x) |}
           (fun y => rep_loop ma gs k fuel (Nat.pred mn) None y)
    | 0 =>
        match ma {| endIndex := endIndex x; captures := clear gs (captures x) |}
                 (fun y => if Nat.eqb (endIndex y) (endIndex x) then None
                           else rep_loop ma gs k fuel 0 None y) with
        | Some z => Some z
        | None => k x
        end
    end.
Proof. destruct mn; reflexivity. Qed.

Lemma m_class_hit (s : jsstring) (f : flags) (x : mstate)
      (k : mstate -> option mstate) (c : code_unit) :
  nth_error s (endIndex x) = Some c -> q c = true ->
  m s f (Cls q) x k = k {| endIndex := S (endIndex x); captures := captures x |}.
Proof. intros E Q. cbn [m]. unfold step_char, char_at. rewrite E, Q. reflexivity. Qed.

Lemma m_class_miss (s : jsstring) (f : flags) (x : mstate)
      (k : mstate -> option mstate) :
  stops q (skipn (endIndex x) s) -> m s f (Cls q) x k = None.
Proof.
  intros H. cbn [m]. unfold step_char, char_at.
  rewrite <- (Nat.add_0_r (endIndex x)), <- nth_error_skipn.
  destruct (skipn (endIndex x) s) as [| c r]; [reflexivity |].
  cbn [stops] in H. cbn [nth_error]. rewrite H. reflexivity.
Qed.

Lemma rep_loop_run (f : flags) (run : jsstring) : forall pre rest fuel mn,
  Forall (fun c => q c = true) run -> stops q rest -> List.length run <= fuel ->
  rep_loop (m (pre ++ run ++ rest) f (Cls q)) [] Some fuel mn None
           {| endIndex := List.length pre; captures := [] |}
  = if Nat.leb mn (List.length run)
    then Some {| endIndex := List.length pre + List.length run; captures := [] |}
    else None.
Proof.
  induction run as [| c run IH]; intros pre rest fuel mn Hr Hs F.
  - cbn [app List.length]. rewrite Nat.add_0_r.
    destruct fuel as [| fuel']; [destruct mn; reflexivity |].
    rewrite rep_loop_unbounded. cbn [endIndex captures clear List.filter].
    rewrite !m_class_miss by (cbn [endIndex]; rewrite skipn_after; exact Hs).
    destruct mn; reflexivity.
  - destruct fuel as [| fuel']; [simpl in F; lia |].
    inversion Hr as [| ? ? Hc Hr']; subst.
    rewrite rep_loop_unbounded. cbn [endIndex captures clear List.filter].
    rewrite !(m_class_hit _ _ _ _ c)
      by (cbn [endIndex]; try rewrite nth_error_after; try reflexivity; exact Hc).
    cbn [endIndex captures].
    replace (Nat.eqb (S (List.length pre)) (List.length pre)) with false
      by (symmetry; apply Nat.eqb_neq; lia).
    pose proof (IH (pre ++ [c]) rest fuel') as IH'.
    rewrite <- app_assoc, length_app, Nat.add_1_r in IH'. cbn [app] in IH'.
    cbn [app]. rewrite !IH' by (assumption || (simpl in F; lia)).
    cbn [List.length Nat.pred].
    replace (S (List.length pre) + List.length run)
      with (List.length pre + S (List.length run)) by lia.
    destruct mn as [| mn]; cbn [Nat.leb]; reflexivity.
Qed.

Lemma match_at_run (f : flags) (pre run rest : jsstring) :
  Forall (fun c => q c = true) run -> stops q rest ->
  match_at (pre ++ run ++ rest) f (Rep 1 None (Cls q)) (List.length pre)
  = if Nat.leb 1 (List.length run)
    then Some {| endIndex := List.length pre + List.length run; captures := [] |}
    else None.
Proof.
  intros Hr Hs. unfold match_at.
  apply (rep_loop_run f run pre rest); [exact Hr | exact Hs |].
  cbn [endIndex]. rewrite !length_app. lia.
Qed.

Lemma scan_run_none (f : flags) (suf : jsstring) : forall pre,
  Forall (fun c => q c = false) suf ->
  scan (pre ++ suf) f (Rep 1 None (Cls q)) (S (List.length suf)) (List.length pre) = None.
Proof.
  induction suf as [| c suf IH]; intros pre H; cbn [scan].
  - change (pre ++ []) with (pre ++ [] ++ []).
    rewrite (match_at_run f pre [] []) by (constructor || exact I). reflexivity.
  - inversion H as [| ? ? Hc Hs]; subst.
    change (pre ++ c :: suf) with (pre ++ [] ++ c :: suf) at 1.
    rewrite (match_at_run f pre [] (c :: suf)) by (constructor || exact Hc).
    cbn [List.length Nat.leb].
    specialize (IH (pre ++ [c]) Hs).
    rewrite <- app_assoc, length_app, Nat.add_1_r in IH. exact IH.
Qed.

Lemma scan_run_some (f : flags) (a : jsstring) : forall pre run rest n,
  Forall (fun c => q c = false) a -> 0 < List.length run ->
  Forall (fun c => q c = true) run -> stops q rest ->
  scan (pre ++ a ++ run ++ rest) f (Rep 1 None (Cls q)) (S (List.length a + n))
       (List.length pre)
  = Some (List.length pre + List.length a,
          {| endIndex := List.length pre + List.length a + List.length run;
             captures := [] |}).
Proof.
  induction a as [| x a IH]; intros pre run rest n Ha Hn Hr Hs; cbn [scan].
  - cbn [app]. rewrite match_at_run by assumption.
    destruct run as [| c run]; [simpl in Hn; lia |]. cbn [Nat.leb List.length].
    rewrite !Nat.add_0_r. reflexivity.
  - inversion Ha as [| ? ? Hx Ha']; subst.
    change (pre ++ (x :: a) ++ run ++ rest) with (pre ++ [] ++ x :: a ++ run ++ rest) at 1.
    rewrite (match_at_run f pre [] (x :: a ++ run ++ rest)) by (constructor || exact Hx).
    cbn [List.length Nat.leb].
    specialize (IH (pre ++ [x]) run rest n Ha' Hn Hr Hs).
    rewrite <- app_assoc, length_app, Nat.add_1_r in IH. cbn [app] in IH.
    change (S (List.length a) + n) with (S (List.length a + n)).
    cbn [app]. rewrite IH. f_equal. f_equal; [lia | f_equal; lia].
Qed.

End ReplaceRuns.

Lemma squeeze_from_plain (a l : jsstring) :
  Forall (fun c => Number.is_space c = false) a ->
  squeeze_from false (a ++ l) = a ++ squeeze_from false l.
Proof.
  induction 1 as [| c a Hc _ IH]; [reflexivity |].
  cbn [app squeeze_from]. rewrite Hc, IH. reflexivity.
Qed.

Lemma squeeze_from_run (run rest : jsstring) :
  Forall (fun c => Number.is_space c = true) run -> stops Number.is_space rest ->
  squeeze_from true (run ++ rest) = squeeze_from false rest.
Proof.
  induction 1 as [| c run Hc _ IH]; intros Hs.
  - destruct rest as [| c rest]; [reflexivity |]. cbn [stops] in Hs.
    cbn [app squeeze_from]. rewrite Hs. reflexivity.
  - cbn [app squeeze_from]. rewrite Hc. apply IH, Hs.
Qed.

Lemma replace_loop_spaces (fuel : nat) : forall suf pre acc,
  List.length suf < fuel ->
  JSString.replace_loop fuel
    {| source := Rep 1 None space; flag := only_global; lastIndex := List.length pre |}
    (pre ++ suf) (str " ") (List.length pre) acc
  = acc ++ squeeze suf.
Proof.
  induction fuel as [| fuel IH]; intros suf pre acc F; [lia |].
  cbn [JSString.replace_loop]. unfold RegExp.exec, space.
  cbn [flag global only_global lastIndex source].
  replace (S (List.length (pre ++ suf)) - List.length pre) with (S (List.length suf))
    by (rewrite length_app; lia).
  destruct (first_run Number.is_space suf) as [H | (a & run & rest & -> & Ha & Hn & Hr & Hs)].
  - rewrite scan_run_none by exact H. rewrite skipn_after. f_equal.
    unfold squeeze. rewrite <- (app_nil_r suf) at 2.
    rewrite squeeze_from_plain by exact H. cbn [squeeze_from]. rewrite app_nil_r. reflexivity.
  - replace (S (List.length (a ++ run ++ rest)))
      with (S (List.length a + (List.length run + List.length rest)))
      by (rewrite !length_app; lia).
    rewrite scan_run_some by assumption.
    cbn [matched index endIndex].
    assert (M : substring (pre ++ a ++ run ++ rest) (List.length pre + List.length a)
                          (List.length pre + List.length a + List.length run) = run).
    { pose proof (substring_middle (pre ++ a) run rest) as S.
      rewrite <- !app_assoc, length_app in S. exact S. }
    rewrite M.
    destruct (Nat.eqb_spec (List.length run) 0) as [E | _]; [lia |].
    assert (L : Nat.leb (List.length pre) (List.length pre + List.length a) = true)
      by (apply Nat.leb_le; lia).
    rewrite L. rewrite substring_middle.
    specialize (IH rest (pre ++ a ++ run) (acc ++ a ++ str " ")).
    rewrite <- !app_assoc, !length_app in IH.
    replace (List.length pre + (List.length a + List.length run))
      with (List.length pre + List.length a + List.length run) in IH by lia.
    fold space in IH |- *.
    rewrite IH by (rewrite !length_app in F; lia).
    unfold squeeze. rewrite squeeze_from_plain by exact Ha.
    destruct run as [| c run]; [simpl in Hn; lia |].
    inversion Hr as [| ? ? Hc Hr']; subst.
    cbn [app squeeze_from]. rewrite Hc. rewrite squeeze_from_run by assumption.
    repeat rewrite <- app_assoc. reflexivity.
Qed.

Lemma replace_special (s : jsstring) :
  JSString.replace s pattern_special [] = List.filter kept s.
Proof.
  unfold JSString.replace, pattern_special. cbn [source flag global lastIndex].
  pose proof (replace_loop_class
                (fun c => negb (JSString.is_word c || Number.is_space c
                                || (c =? 38)%N || (c =? 45)%N))
                [] (List.length s + 2) s [] [] ltac:(lia)) as R.
  cbn [app List.length] in R. unfold only_global in R. rewrite R.
  clear R. induction s as [| c s IH]; [reflexivity |].
  cbn [flat_map List.filter]. rewrite IH. unfold kept.
  destruct (JSString.is_word c || Number.is_space c || (c =? 38)%N || (c =? 45)%N);
    reflexivity.
Qed.

Lemma replace_spaces (s : jsstring) :
  JSString.replace s pattern_spaces (str " ") = squeeze s.
Proof.
  unfold JSString.replace, pattern_spaces. cbn [source flag global lastIndex].
  pose proof (replace_loop_spaces (List.length s + 2) s [] [] ltac:(lia)) as R.
  cbn [app List.length] in R. unfold only_global in R. exact R.
Qed.

(** ** Trimming *)

Lemma trim_start_suffix (s : jsstring) :
  exists a, s = a ++ Number.trim_start s.
Proof.
  induction s as [| c s (a & E)]; [exists []; reflexivity |].
  cbn [Number.trim_start]. destruct (Number.is_space c).
  - exists (c :: a). cbn [app]. f_equal. exact E.
  - exists []. reflexivity.
Qed.

Lemma trim_start_stops (s : jsstring) : stops Number.is_space (Number.trim_start s).
Proof.
  induction s as [| c s IH]; [exact I |].
  cbn [Number.trim_start]. destruct (Number.is_space c) eqn:E; [exact IH | exact E].
Qed.

Lemma trim_start_id (s : jsstring) :
  stops Number.is_space s -> Number.trim_start s = s.
Proof.
  destruct s as [| c s]; [reflexivity |]. cbn [stops Number.trim_start].
  intros ->. reflexivity.
Qed.

Lemma trim_end_prefix (s : jsstring) :
  exists b, s = JSString.trim_end s ++ b.
Proof.
  unfold JSString.trim_end. destruct (trim_start_suffix (List.rev s)) as (a & E).
  exists (List.rev a). rewrite <- rev_app_distr, <- E, rev_involutive. reflexivity.
Qed.

Lemma trim_middle (s : jsstring) :
  exists a b, s = a ++ JSString.trim s ++ b.
Proof.
  unfold JSString.trim. destruct (trim_start_suffix s) as (a & E).
  destruct (trim_end_prefix (Number.trim_start s)) as (b & F).
  exists a, b. rewrite <- F. exact E.
Qed.

Lemma last_rev_head (c d : code_unit) (r : jsstring) :
  List.last (List.rev (c :: r)) d = c.
Proof. cbn [List.rev]. apply last_last. Qed.

Lemma trim_trimmed (s : jsstring) : trimmed (JSString.trim s).
Proof.
  unfold JSString.trim.
  pose proof (trim_start_stops s) as H.
  destruct (trim_end_prefix (Number.trim_start s)) as (b & F).
  remember (Number.trim_start s) as w eqn:W. clear W s.
  unfold JSString.trim_end in *.
  pose proof (trim_start_stops (List.rev w)) as K.
  destruct (Number.trim_start (List.rev w)) as [| c r] eqn:E; [exact I |].
  cbn [stops] in K.
  destruct (List.rev (c :: r)) as [| x t] eqn:R.
  - exact I.
  - cbn [trimmed]. split.
    + rewrite F in H. cbn [app stops] in H. exact H.
    + rewrite <- R. rewrite last_rev_head. exact K.
Qed.

Lemma trim_id (s : jsstring) : trimmed s -> JSString.trim s = s.
Proof.
  destruct s as [| c s]; [reflexivity |]. cbn [trimmed]. intros [H L].
  unfold JSString.trim. rewrite trim_start_id by exact H.
  unfold JSString.trim_end.
  destruct (List.rev (c :: s)) as [| x t] eqn:R.
  - apply (f_equal (@List.length _)) in R. rewrite length_rev in R. discriminate R.
  - assert (X : List.last (c :: s) c = x).
    { rewrite <- (rev_involutive (c :: s)), R. cbn [List.rev]. apply last_last. }
    rewrite X in L. cbn [Number.trim_start]. rewrite L.
    rewrite <- R. apply rev_involutive.
Qed.

(** ** Clean names *)

Lemma word_not_space (c : code_unit) :
  JSString.is_word c = true -> Number.is_space c = false.
Proof.
  intros W. destruct (Number.is_space c) eqn:E; [exfalso | reflexivity].
  unfold JSString.is_word, Number.is_digit in W.
  unfold Number.is_space, Number.is_white_space, Number.is_line_terminator in E.
  rewrite ?orb_true_iff, ?andb_true_iff, ?N.eqb_eq, ?N.leb_le in W.
  rewrite ?orb_true_iff, ?andb_true_iff, ?N.eqb_eq, ?N.leb_le in E.
  lia.
Qed.

Lemma clean_char_space (c : code_unit) :
  clean_char c = true -> Number.is_space c = true -> c = 32%N.
Proof.
  unfold clean_char. intros C S.
  destruct (JSString.is_word c) eqn:W.
  - rewrite (word_not_space c W) in S. discriminate S.
  - cbn [orb] in C. rewrite !orb_true_iff, !N.eqb_eq in C.
    destruct C as [[C | C] | C]; [exact C | |]; subst c; discriminate S.
Qed.

Lemma kept_clean_char (c : code_unit) :
  kept c = true -> Number.is_space c = false -> clean_char c = true.
Proof.
  unfold kept, clean_char. intros K S. rewrite S in K.
  destruct (JSString.is_word c), (c =? 38)%N, (c =? 45)%N, (c =? 32)%N;
    try reflexivity; discriminate K.
Qed.

Lemma clean_char_kept (c : code_unit) : clean_char c = true -> kept c = true.
Proof.
  unfold kept, clean_char. intros C.
  destruct (JSString.is_word c); [reflexivity |]. cbn [orb] in C |- *.
  destruct (c =? 32)%N eqn:E.
  - apply N.eqb_eq in E. rewrite E. reflexivity.
  - cbn [orb] in C. destruct (Number.is_space c); [reflexivity |]. exact C.
Qed.

Lemma squeeze_from_clean (s : jsstring) : forall b,
  Forall (fun c => kept c = true) s ->
  Forall (fun c => clean_char c = true) (squeeze_from b s).
Proof.
  induction s as [| c s IH]; intros b H; [constructor |].
  inversion H as [| ? ? Hc Hs]; subst. cbn [squeeze_from].
  destruct (Number.is_space c) eqn:E.
  - destruct b; [apply IH, Hs |]. constructor; [reflexivity | apply IH, Hs].
  - constructor; [apply kept_clean_char; assumption | apply IH, Hs].
Qed.

Lemma squeeze_from_single (s : jsstring) : forall b,
  single_spaced (squeeze_from b s) = true
  /\ (b = true -> forall c r, squeeze_from b s = c :: r -> c <> 32%N).
Proof.
  induction s as [| c s IH]; intros b; [split; [reflexivity | discriminate 2] |].
  cbn [squeeze_from]. destruct (Number.is_space c) eqn:E.
  - destruct b.
    + apply IH.
    + split; [| discriminate 1].
      destruct (IH true) as [S N]. cbn [single_spaced].
      destruct (squeeze_from true s) as [| d r] eqn:Q; [reflexivity |].
      rewrite S, andb_true_r. specialize (N eq_refl d r eq_refl).
      destruct (N.eqb_spec d 32) as [-> | _]; [contradiction N; reflexivity |].
      reflexivity.
  - assert (N : c <> 32%N) by (intros ->; discriminate E).
    split.
    + destruct (IH false) as [S _]. cbn [single_spaced].
      destruct (squeeze_from false s) as [| d r] eqn:Q; [reflexivity |].
      rewrite S, andb_true_r.
      destruct (N.eqb_spec c 32) as [-> | _]; [contradiction N; reflexivity |].
      reflexivity.
    + intros _ c' r [= <- _]. exact N.
Qed.

Lemma single_spaced_app (a b : jsstring) :
  single_spaced (a ++ b) = true -> single_spaced a = true /\ single_spaced b = true.
Proof.
  induction a as [| x a IH]; intros H; [split; [reflexivity | exact H] |].
  destruct a as [| y a].
  - split; [reflexivity |]. cbn [app] in H. destruct b as [| z b]; [reflexivity |].
    cbn [single_spaced] in H. apply andb_true_iff in H. apply H.
  - change ((x :: y :: a) ++ b) with (x :: y :: (a ++ b)) in H.
    cbn [single_spaced] in H. apply andb_true_iff in H. destruct H as [H1 H2].
    destruct (IH H2) as [Ia Ib]. split; [| exact Ib].
    cbn [single_spaced]. rewrite H1. exact Ia.
Qed.

Lemma squeeze_from_id (s : jsstring) : forall b,
  Forall (fun c => clean_char c = true) s -> single_spaced s = true ->
  (b = true -> stops Number.is_space s) ->
  squeeze_from b s = s.
Proof.
  induction s as [| c s IH]; intros b C S B; [reflexivity |].
  inversion C as [| ? ? Cc Cs]; subst. cbn [squeeze_from].
  assert (S' : single_spaced s = true).
  { destruct s as [| d s]; [reflexivity |]. cbn [single_spaced] in S.
    apply andb_true_iff in S. apply S. }
  destruct (Number.is_space c) eqn:E.
  - destruct b; [specialize (B eq_refl); cbn [stops] in B; congruence |].
    rewrite (clean_char_space c Cc E) in *.
    f_equal. apply IH; [exact Cs | exact S' |]. intros _.
    destruct s as [| d s]; [exact I |]. cbn [stops].
    cbn [single_spaced] in S. apply andb_true_iff in S. destruct S as [S _].
    destruct (Number.is_space d) eqn:D; [| reflexivity].
    inversion Cs as [| ? ? Cd _]; subst.
    rewrite (clean_char_space d Cd D) in S. discriminate S.
  - f_equal. apply IH; [exact Cs | exact S' | discriminate 1].
Qed.

Lemma filter_kept_id (s : jsstring) :
  Forall (fun c => clean_char c = true) s -> List.filter kept s = s.
Proof.
  induction 1 as [| c s Hc _ IH]; [reflexivity |].
  cbn [List.filter]. rewrite (clean_char_kept c Hc), IH. reflexivity.
Qed.

Lemma filter_kept_all (s : jsstring) :
  Forall (fun c => kept c = true) (List.filter kept s).
Proof. apply Forall_forall. intros c H. apply filter_In in H. apply H. Qed.

(** ** The merchant name *)

(** X1: the two replacements and the trim of the merchant clean-up compute
    this: the characters other than word characters, white space, [&] and
    [-] are dropped, every run of white space becomes one space, and the
    white space at both ends is removed. *)
Theorem cleanMerchant_squeeze (merchantName : jsstring) :
  cleanMerchant merchantName
  = JSString.trim (squeeze (List.filter kept merchantName)).
Proof.
  unfold cleanMerchant. rewrite replace_special, replace_spaces. reflexivity.
Qed.

Lemma tidy_clean (s : jsstring) :
  Forall (fun c => clean_char c = true) (JSString.trim (squeeze (List.filter kept s)))
  /\ single_spaced (JSString.trim (squeeze (List.filter kept s))) = true
  /\ trimmed (JSString.trim (squeeze (List.filter kept s))).
Proof.
  set (v := squeeze (List.filter kept s)).
  assert (C : Forall (fun c => clean_char c = true) v)
    by apply squeeze_from_clean, filter_kept_all.
  assert (S : single_spaced v = true) by apply squeeze_from_single.
  destruct (trim_middle v) as (a & b & E).
  split; [| split].
  - rewrite E in C. apply Forall_app in C. destruct C as [_ C].
    apply Forall_app in C. apply C.
  - rewrite E in S. apply single_spaced_app in S. destruct S as [_ S].
    apply single_spaced_app in S. apply S.
  - apply trim_trimmed.
Qed.

Lemma tidy_fixed (t : jsstring) :
  Forall (fun c => clean_char c = true) t -> single_spaced t = true -> trimmed t ->
  JSString.trim (squeeze (List.filter kept t)) = t.
Proof.
  intros C S T. rewrite filter_kept_id by exact C.
  unfold squeeze. rewrite squeeze_from_id by (assumption || discriminate 1).
  apply trim_id, T.
Qed.

(** X2: a cleaned merchant name holds only word characters, spaces, [&]
    and [-], never two spaces in a row, and neither starts nor ends with
    white space. *)
Theorem cleanMerchant_clean (merchantName : jsstring) :
  Forall (fun c => clean_char c = true) (cleanMerchant merchantName)
  /\ single_spaced (cleanMerchant merchantName) = true
  /\ trimmed (cleanMerchant merchantName).
Proof.
  unfold cleanMerchant. rewrite replace_special, replace_spaces. apply tidy_clean.
Qed.

(** X3: cleaning a cleaned merchant name changes nothing. *)
Theorem cleanMerchant_idempotent (merchantName : jsstring) :
  cleanMerchant (cleanMerchant merchantName) = cleanMerchant merchantName.
Proof.
  unfold cleanMerchant. rewrite !replace_special, !replace_spaces.
  destruct (tidy_clean merchantName) as (C & S & T).
  apply tidy_fixed; assumption.
Qed.

(** ** The largest amount *)

Lemma ltb_asym (a b : float) :
  posfin a -> posfin b -> (a <? b)%float = true -> (b <? a)%float = false.
Proof.
  intros (ma & ea & Ha) (mb & eb & Hb).
  rewrite !ltb_spec, Ha, Hb. unfold SFltb. cbn [SFcompare].
  change (PosDef.Pos.compare_cont Eq ma mb) with (Z.compare (Zpos ma) (Zpos mb)).
  change (PosDef.Pos.compare_cont Eq mb ma) with (Z.compare (Zpos mb) (Zpos ma)).
  destruct (Z.compare_spec ea eb), (Z.compare_spec eb ea),
    (Z.compare_spec (Zpos ma) (Zpos mb)), (Z.compare_spec (Zpos mb) (Zpos ma));
    intros; try discriminate; try reflexivity; exfalso; lia.
Qed.

Lemma posfin_not_zero (x : float) : posfin x -> PrimFloat.Leibniz.eqb x zero = false.
Proof.
  intros (mm & e & H). destruct (PrimFloat.Leibniz.eqb x zero) eqn:E; [| reflexivity].
  apply FloatAxioms.Leibniz.eqb_spec in E. rewrite E in H. discriminate H.
Qed.

Lemma posfin_above_neg_infinity (x : float) : posfin x -> (neg_infinity <? x)%float = true.
Proof. intros (mm & e & H). rewrite ltb_spec, H. reflexivity. Qed.

Lemma max_descending (x : float) (l : list float) :
  Forall posfin (x :: l) -> StronglySorted gt (x :: l) -> Math.max (x :: l) = x.
Proof.
  intros P S. inversion P as [| ? ? Px Pl]; subst.
  inversion S as [| ? ? _ G]; subst.
  unfold Math.max. cbn [fold_left].
  pose proof (posfin_not_nan x Px) as Nx. unfold Number.isNaN in Nx.
  rewrite Nx, (posfin_not_zero x Px), (posfin_above_neg_infinity x Px).
  change (is_nan neg_infinity) with false. cbn [orb andb].
  clear P S. induction l as [| y l IH]; [reflexivity |].
  inversion Pl as [| ? ? Py Pl']; subst. inversion G as [| ? ? Gy G']; subst.
  cbn [fold_left]. pose proof (posfin_not_nan y Py) as Ny. unfold Number.isNaN in Ny.
  rewrite Nx, Ny, (posfin_not_zero y Py). cbn [orb andb].
  unfold gt in Gy. rewrite (ltb_asym y x Py Px Gy). apply IH; assumption.
Qed.

Lemma detected_in_range (text : jsstring) : Forall in_range (detected text).
Proof.
  destruct (extract_detected text []) as [_ [R _]].
  rewrite Forall_forall in *. intros x Hx. apply R. apply (sort_In descending). exact Hx.
Qed.

Lemma detected_posfin (text : jsstring) : Forall posfin (detected text).
Proof.
  pose proof (detected_in_range text) as R.
  rewrite Forall_forall in *. intros x Hx. apply in_range_posfin, R, Hx.
Qed.

Lemma detected_sorted (text : jsstring) : StronglySorted gt (detected text).
Proof.
  destruct (extract_detected text []) as [_ [R D]].
  apply sort_sorted; [| exact D].
  rewrite Forall_forall in *. intros x Hx. apply in_range_posfin, R, Hx.
Qed.

(** ** Scanning a receipt *)

Lemma extract_on (text : jsstring) (h : heap) :
  extractAmountsFromText text h = (Ok (detected text), h ++ patterns).
Proof. exact (proj1 (extract_detected text h)). Qed.

(** X4: when the recognition succeeds, the scan ends with the progress
    flag off, the text of the blocks joined by line feeds, and the amounts
    of that text as chips, strictly decreasing and between 0 and 10000;
    the amount field then holds the first chip, which is the largest
    amount, or what it held when there is no chip. *)
Theorem scan_selects_largest (toString : float -> jsstring)
        (blocks : list jsstring) (d : Device) :
  let d' := extractTextFromImage toString (inr blocks) d in
  isProcessing (state (world d')) = false
  /\ extractedText (state (world d')) = fullText blocks
  /\ detectedAmounts (state (world d')) = detected (fullText blocks)
  /\ StronglySorted gt (detectedAmounts (state (world d')))
  /\ Forall in_range (detectedAmounts (state (world d')))
  /\ selectedAmount (state (world d'))
     = match detectedAmounts (state (world d')) with
       | largest :: _ => toString largest
       | [] => selectedAmount (state (world d))
       end.
Proof.
  cbv zeta. unfold extractTextFromImage. fold (fullText blocks).
  rewrite extract_on.
  pose proof (detected_sorted (fullText blocks)) as S.
  pose proof (detected_in_range (fullText blocks)) as R.
  pose proof (detected_posfin (fullText blocks)) as P.
  destruct (detected (fullText blocks)) as [| x l] eqn:D;
    destruct (lines (fullText blocks)) as [| line rest];
    try destruct (cleanMerchant (JSString.trim line)) as [| c clean];
    cbn [on_state on_world with_state world state setIsProcessing setExtractedText
         setDetectedAmounts setSelectedAmount setMerchant isProcessing extractedText
         detectedAmounts selectedAmount merchant regexps notices];
    try rewrite (max_descending x l P S); repeat split; assumption.
Qed.

Lemma extractTextFromImage_ledger (toString : float -> jsstring)
      (recognized : string + list jsstring) (d : Device) :
  ledger (extractTextFromImage toString recognized d) = ledger d.
Proof.
  unfold extractTextFromImage. destruct recognized as [message | blocks]; [reflexivity |].
  rewrite extract_on.
  destruct (detected (JSString.join [10%N] blocks)) as [| x l];
    destruct (lines (JSString.join [10%N] blocks)) as [| line rest];
    try destruct (cleanMerchant (JSString.trim line)) as [| c clean];
    reflexivity.
Qed.

Lemma extractTextFromImage_done (toString : float -> jsstring)
      (recognized : string + list jsstring) (d : Device) :
  isProcessing (state (world (extractTextFromImage toString recognized d))) = false.
Proof.
  unfold extractTextFromImage. destruct recognized as [message | blocks]; [reflexivity |].
  rewrite extract_on.
  destruct (detected (JSString.join [10%N] blocks)) as [| x l];
    destruct (lines (JSString.join [10%N] blocks)) as [| line rest];
    try destruct (cleanMerchant (JSString.trim line)) as [| c clean];
    reflexivity.
Qed.

Lemma extractTextFromImage_amounts (toString : float -> jsstring)
      (recognized : string + list jsstring) (d : Device) :
  detectedAmounts (state (world (extractTextFromImage toString recognized d)))
  = match recognized with
    | inr blocks => detected (fullText blocks)
    | inl _ => detectedAmounts (state (world d))
    end.
Proof.
  unfold extractTextFromImage, fullText. destruct recognized as [message | blocks];
    [reflexivity |].
  rewrite extract_on.
  destruct (detected (JSString.join [10%N] blocks)) as [| x l];
    destruct (lines (JSString.join [10%N] blocks)) as [| line rest];
    try destruct (cleanMerchant (JSString.trim line)) as [| c clean];
    reflexivity.
Qed.

(** X5: whatever the recognition answers, a scan ends with the progress
    flag off, and neither a scan nor a picker nor the retry changes the
    expenses, their total, the store or the dialogs shown. *)
Theorem scan_keeps_ledger (toString : float -> jsstring) (android : bool)
        (request : option bool) (r : response)
        (recognized : string + list jsstring) (d : Device) :
  isProcessing (state (world (extractTextFromImage toString recognized d))) = false
  /\ ledger (extractTextFromImage toString recognized d) = ledger d
  /\ ledger (takeReceiptPhoto toString android request r recognized d) = ledger d
  /\ ledger (selectFromGallery toString android request r recognized d) = ledger d
  /\ ledger (retryOCR toString recognized d) = ledger d.
Proof.
  split; [apply extractTextFromImage_done |].
  split; [apply extractTextFromImage_ledger |].
  assert (P : forall error d0, ledger (picked toString error r recognized d0) = ledger d0).
  { intros error d0. unfold picked. destruct (assets r) as [| uri others].
    - destruct (errorMessage r) as [[| a m] |]; reflexivity.
    - rewrite extractTextFromImage_ledger. reflexivity. }
  assert (Q : forall d0, ledger (snd (requestPermissions android request d0)) = ledger d0).
  { intros d0. unfold requestPermissions.
    destruct android; [| reflexivity]. destruct request as [[|] |]; reflexivity. }
  split; [| split].
  - unfold takeReceiptPhoto. specialize (Q d).
    destruct (requestPermissions android request d) as [[|] d1]; cbn [negb snd] in *;
      [rewrite P |]; exact Q.
  - unfold selectFromGallery. specialize (Q d).
    destruct (requestPermissions android request d) as [[|] d1]; cbn [negb snd] in *;
      [rewrite P |]; exact Q.
  - unfold retryOCR. destruct (truthy (receiptPhoto (state (world d)))); [| reflexivity].
    rewrite extractTextFromImage_ledger. reflexivity.
Qed.

Lemma picked_fields (toString : float -> jsstring) (error : string -> notice)
      (r : response) (uri : value) (others : list value)
      (blocks : list jsstring) (d : Device) :
  assets r = uri :: others ->
  let st := state (world (picked toString error r (inr blocks) d)) in
  receiptPhoto st = uri
  /\ extractedText st = fullText blocks
  /\ detectedAmounts st = detected (fullText blocks)
  /\ selectedAmount st = match detected (fullText blocks) with
                         | largest :: _ => toString largest
                         | [] => []
                         end
  /\ merchant st = match merchant_of (fullText blocks) with
                   | Some clean => clean
                   | None => []
                   end.
Proof.
  intros A. cbv zeta. unfold picked. rewrite A. unfold extractTextFromImage, merchant_of.
  fold (fullText blocks). rewrite extract_on.
  pose proof (detected_sorted (fullText blocks)) as S.
  pose proof (detected_posfin (fullText blocks)) as P.
  destruct (detected (fullText blocks)) as [| x l] eqn:D;
    destruct (lines (fullText blocks)) as [| line rest];
    try destruct (cleanMerchant (JSString.trim line)) as [| c clean];
    cbn [on_state on_world with_state world state setIsProcessing setExtractedText
         setDetectedAmounts setSelectedAmount setMerchant setReceiptPhoto clearResults
         isProcessing extractedText receiptPhoto
         detectedAmounts selectedAmount merchant regexps notices];
    try rewrite (max_descending x l P S); repeat split; reflexivity.
Qed.

(** X6: a picked photo replaces the whole form, whatever it held: the
    photo, the text (or the failure message), the chips, the largest
    amount in the amount field, and the cleaned first line as merchant;
    where the scan finds nothing the field is empty. *)
Theorem new_photo_replaces_form (toString : float -> jsstring) (error : string -> notice)
        (r : response) (uri : value) (others : list value)
        (recognized : string + list jsstring) (d : Device) :
  assets r = uri :: others ->
  form (picked toString error r recognized d)
  = match recognized with
    | inr blocks =>
        (uri, fullText blocks, detected (fullText blocks),
         match detected (fullText blocks) with
         | largest :: _ => toString largest
         | [] => []
         end,
         match merchant_of (fullText blocks) with
         | Some clean => clean
         | None => []
         end)
    | inl _ => (uri, str "Failed to extract text from image", [], [], [])
    end.
Proof.
  intros A. destruct recognized as [message | blocks].
  - unfold picked. rewrite A. reflexivity.
  - destruct (picked_fields toString error r uri others blocks d A)
      as (F1 & F2 & F3 & F4 & F5).
    unfold form. rewrite F1, F2, F3, F4, F5. reflexivity.
Qed.

Lemma new_photo_replaces_form_witness :
  form (picked (fun _ => str "12.34") CameraError
          {| assets := [Str (str "file:///r.jpg")]; errorMessage := None |}
          (inl "no text"%string) start)
  = (Str (str "file:///r.jpg"), str "Failed to extract text from image", [], [], []).
Proof.
  exact (new_photo_replaces_form (fun _ => str "12.34") CameraError
           {| assets := [Str (str "file:///r.jpg")]; errorMessage := None |}
           (Str (str "file:///r.jpg")) [] (inl "no text"%string) start eq_refl).
Defined.

(** X7: when the permission is refused or its request fails, and when
    the picker returns no asset, the state and the store are what they
    were. *)
Theorem no_photo_no_change (toString : float -> jsstring) (android : bool)
        (request : option bool) (r : response)
        (recognized : string + list jsstring) (d : Device) :
  no_photo android request r ->
  state (world (takeReceiptPhoto toString android request r recognized d)) = state (world d)
  /\ state (world (selectFromGallery toString android request r recognized d)) = state (world d)
  /\ ledger (takeReceiptPhoto toString android request r recognized d) = ledger d
  /\ ledger (selectFromGallery toString android request r recognized d) = ledger d.
Proof.
  intros H.
  unfold takeReceiptPhoto, selectFromGallery, requestPermissions, picked.
  destruct H as [[-> N] | A].
  - destruct request as [[|] |]; [contradiction N; reflexivity | |];
      repeat split; reflexivity.
  - rewrite A. destruct android; [destruct request as [[|] |] |];
      destruct (errorMessage r) as [[| a m] |]; repeat split; reflexivity.
Qed.

Lemma no_photo_no_change_witness :
  no_photo true (Some false)
           {| assets := [Str (str "file:///r.jpg")]; errorMessage := None |}
  /\ state (world (takeReceiptPhoto (fun _ => str "1") true (Some false)
                     {| assets := [Str (str "file:///r.jpg")]; errorMessage := None |}
                     (inr [str "TOTAL 5.00"]) start))
     = state (world start).
Proof.
  assert (H : no_photo true (Some false)
                {| assets := [Str (str "file:///r.jpg")]; errorMessage := None |})
    by (left; split; [reflexivity | discriminate]).
  split; [exact H |].
  pose proof (no_photo_no_change (fun _ => str "1") true (Some false)
                {| assets := [Str (str "file:///r.jpg")]; errorMessage := None |}
                (inr [str "TOTAL 5.00"]) start H) as K.
  destruct K as [E _]. exact E.
Defined.

(** ** Between the handlers *)

Lemma positive_of_guard (x : float) :
  Number.isNaN x = false -> (x <=? 0)%float = false -> (0 <? x)%float = true.
Proof.
  unfold Number.isNaN, is_nan. rewrite eqb_spec, leb_spec, ltb_spec.
  change (Prim2SF 0) with (S754_zero false).
  destruct (Prim2SF x) as [[] | [] | | [] mx ex]; cbn; try discriminate; try reflexivity.
  all: change (PosDef.Pos.compare_cont Eq mx mx) with (Z.compare (Zpos mx) (Zpos mx));
    rewrite ?Z.compare_refl; try discriminate; reflexivity.
Qed.

Lemma settled_ledger (d d' : Device) :
  ledger d' = ledger d ->
  isProcessing (state (world d')) = false ->
  StronglySorted gt (detectedAmounts (state (world d')))
  /\ Forall in_range (detectedAmounts (state (world d'))) ->
  settled d -> settled d'.
Proof.
  unfold ledger, settled. intros L P [S R] (T & _ & _ & _ & A & W).
  pose proof (f_equal (fun t => fst (fst (fst t))) L) as E1.
  pose proof (f_equal (fun t => snd (fst (fst t))) L) as E2.
  pose proof (f_equal (fun t => snd (fst t)) L) as E3.
  pose proof (f_equal snd L) as E4.
  cbn [fst snd] in E1, E2, E3, E4. rewrite E1, E2, E3, E4.
  repeat split; assumption.
Qed.

Lemma extractTextFromImage_settled (toString : float -> jsstring)
      (recognized : string + list jsstring) (d : Device) :
  settled d -> settled (extractTextFromImage toString recognized d).
Proof.
  intros H. apply (settled_ledger d); [apply extractTextFromImage_ledger
                                      | apply extractTextFromImage_done | | exact H].
  rewrite extractTextFromImage_amounts. destruct recognized as [message | blocks].
  - destruct H as (_ & _ & S & R & _). split; assumption.
  - split; [apply detected_sorted | apply detected_in_range].
Qed.

Lemma picked_settled (toString : float -> jsstring) (error : string -> notice)
      (r : response) (recognized : string + list jsstring) (d : Device) :
  settled d -> settled (picked toString error r recognized d).
Proof.
  intros H. unfold picked. destruct (assets r) as [| uri others].
  - destruct (errorMessage r) as [[| a m] |]; exact H.
  - apply extractTextFromImage_settled.
    destruct H as (T & P & _ & _ & A & W). repeat split; try assumption; constructor.
Qed.

Lemma requestPermissions_settled (android : bool) (request : option bool) (d : Device) :
  settled d -> settled (snd (requestPermissions android request d)).
Proof.
  intros H. unfold requestPermissions.
  destruct android; [| exact H]. destruct request as [[|] |]; exact H.
Qed.

Lemma saveExpenses_written (l : list object) (io_ok : bool) (w : World) :
  written (storage w) -> written (storage (saveExpenses l io_ok w)).
Proof.
  intros W. unfold saveExpenses. destruct io_ok; [| exact W].
  rewrite stringify_of_list. unfold written. cbn [storage].
  rewrite getItem_setItem. exists l. reflexivity.
Qed.

Lemma saveExpenses_state (l : list object) (io_ok : bool) (w : World) :
  state (saveExpenses l io_ok w) = state w
  /\ alerts (saveExpenses l io_ok w) = alerts w.
Proof.
  unfold saveExpenses. destruct io_ok; [rewrite stringify_of_list |]; split; reflexivity.
Qed.

Lemma step_settled (toString : float -> jsstring) (d d' : Device) :
  step toString d d' -> settled d -> settled d'.
Proof.
  intros St H. destruct St.
  - destruct H as (T & P & S & R & A & W). unfold loadExpenses, on_world.
    destruct io_ok; [| repeat split; assumption].
    destruct (getItem (str "expenses") (storage (world d))) as [doc |];
      [| repeat split; assumption].
    destruct (JSON.parse doc) as [| | | | | l |]; try (repeat split; assumption).
    destruct (to_list l) as [expenseList |]; repeat split; assumption.
  - unfold takeReceiptPhoto.
    pose proof (requestPermissions_settled android request d H) as K.
    destruct (requestPermissions android request d) as [[|] d1]; cbn [negb snd] in *;
      [apply picked_settled |]; exact K.
  - unfold selectFromGallery.
    pose proof (requestPermissions_settled android request d H) as K.
    destruct (requestPermissions android request d) as [[|] d1]; cbn [negb snd] in *;
      [apply picked_settled |]; exact K.
  - unfold retryOCR. destruct (truthy (receiptPhoto (state (world d)))); [| exact H].
    apply extractTextFromImage_settled.
    destruct H as (T & P & _ & _ & A & W). repeat split; try assumption; constructor.
  - exact H.
  - exact H.
  - exact H.
  - destruct H as (T & P & S & R & A & W). unfold addExpense, on_world.
    destruct (negb (truthy (Str (selectedAmount (state (world d))))))%bool;
      [repeat split; try assumption; apply Forall_app; split;
       [exact A | repeat constructor] |].
    destruct (Number.isNaN (Number.parseFloat (selectedAmount (state (world d))))) eqn:N;
      [repeat split; try assumption; apply Forall_app; split;
       [exact A | repeat constructor] |].
    destruct (Number.parseFloat (selectedAmount (state (world d))) <=? 0)%float eqn:L;
      cbn [orb]; repeat split; try assumption; apply Forall_app; split;
      try exact A; repeat constructor.
    cbn [p_amount]. apply positive_of_guard; assumption.
  - destruct H as (T & P & S & R & A & W). unfold onPressAdd, on_world.
    set (l := p_expenses c ++ [newExpense c now today]).
    set (w2 := calculateTotal l (with_state (setExpenses l) (world d))).
    destruct (saveExpenses_state l io_ok w2) as [E1 E2].
    pose proof (saveExpenses_written l io_ok w2 W) as W'.
    unfold settled.
    cbn [world state with_state Alert_alert alerts storage clearForm expenses totalSpent
         isProcessing detectedAmounts].
    rewrite E1, E2.
    split; [reflexivity |]. split; [exact P |]. split; [constructor |].
    split; [constructor |]. split; [| exact W'].
    apply Forall_app. split; [exact A | repeat constructor].
  - destruct H as (T & P & S & R & A & W). repeat split; try assumption; constructor.
  - destruct H as (T & P & S & R & A & W). unfold deleteExpense, on_world.
    match goal with |- settled {| world := saveExpenses ?l io_ok ?w2 |} =>
      destruct (saveExpenses_state l io_ok w2) as [E1 E2];
      pose proof (saveExpenses_written l io_ok w2 W) as W' end.
    unfold settled. cbn [world]. rewrite E1, E2.
    repeat split; assumption.
Qed.

(** X8: after every run of handlers the total shown is the total of the
    expense list, no scan is in progress, the chips are strictly
    decreasing amounts between 0 and 10000, every confirmation dialog
    shown asks about an amount greater than 0, and what the store holds
    under the key of the expenses is a list the application wrote. *)
Theorem scanner_settled (toString : float -> jsstring) (d : Device) :
  reachable toString d -> settled d.
Proof.
  induction 1 as [sto W | d d' _ IH St].
  - repeat split; try constructor. exact W.
  - exact (step_settled toString d d' St IH).
Qed.

Lemma scanner_settled_witness :
  settled (on_world addExpense (on_state (setSelectedAmount (str "12.50")) (boot (fun _ => None)))).
Proof.
  apply (scanner_settled (fun _ => [])).
  eapply reachable_step; [eapply reachable_step; [apply (reachable_boot _ (fun _ => None)); exact I |] |].
  - apply step_amount.
  - apply step_add.
Defined.

(** ** Confirming an expense *)

Lemma total_of_snoc (l : list object) (e : object) (x : float) :
  get (str "amount") e = Num x -> Number.isNaN x = false ->
  total_of (l ++ [e]) = (total_of l + x)%float.
Proof.
  intros G N. rewrite !total_of_fold, fold_left_app. cbn [fold_left].
  apply contribution_number; [exact G | exact N |].
  apply fold_neg_zero_free, zero_neg_zero_free.
Qed.

Lemma addExpense_dialog (w : World) (c : pending) :
  alerts (addExpense w) = alerts w ++ [AddExpense c] ->
  c = {| p_amount := Number.parseFloat (selectedAmount (state w));
         p_merchantName := match merchant (state w) with
                           | [] => str "Unknown Merchant"
                           | name => name
                           end;
         p_expenses := expenses (state w);
         p_receiptPhoto := receiptPhoto (state w);
         p_extractedText := extractedText (state w) |}
  /\ Number.isNaN (Number.parseFloat (selectedAmount (state w))) = false
  /\ (Number.parseFloat (selectedAmount (state w)) <=? 0)%float = false
  /\ selectedAmount (state w) <> [].
Proof.
  unfold addExpense.
  destruct (selectedAmount (state w)) as [| a sel] eqn:Sel; cbn [truthy negb orb].
  - cbn [Alert_alert alerts]. intros E. apply app_inv_head in E. discriminate E.
  - destruct (Number.isNaN (Number.parseFloat (a :: sel))) eqn:N; cbn [orb].
    + cbn [Alert_alert alerts]. intros E. apply app_inv_head in E. discriminate E.
    + destruct (Number.parseFloat (a :: sel) <=? 0)%float eqn:L.
      * cbn [Alert_alert alerts]. intros E. apply app_inv_head in E. discriminate E.
      * cbn [Alert_alert alerts]. intros E. apply app_inv_head in E.
        injection E as <-. repeat split. discriminate 1.
Qed.

(** X9: pressing 'Add' in the dialog that [addExpense] opened appends
    one record to the expense list as it was when the dialog opened,
    whatever the list is by then; its amount is the parsed amount field,
    greater than 0; the total becomes the total of that earlier list plus
    the amount; and the form is emptied. *)
Theorem confirm_appends (w w' : World) (c : pending) (now : N) (today : jsstring)
        (io_ok : bool) :
  alerts (addExpense w) = alerts w ++ [AddExpense c] ->
  let after := state (onPressAdd c now today io_ok w') in
  expenses after = expenses (state w) ++ [newExpense c now today]
  /\ get (str "amount") (newExpense c now today)
     = Num (Number.parseFloat (selectedAmount (state w)))
  /\ (0 <? Number.parseFloat (selectedAmount (state w)))%float = true
  /\ totalSpent after
     = (total_of (expenses (state w)) + Number.parseFloat (selectedAmount (state w)))%float
  /\ (receiptPhoto after, extractedText after, detectedAmounts after,
      selectedAmount after, merchant after) = (Null, [], [], [], []).
Proof.
  intros D. destruct (addExpense_dialog w c D) as (-> & N & L & _).
  cbv zeta. unfold onPressAdd, saveExpenses. cbn [p_expenses p_amount].
  set (e := newExpense _ now today).
  assert (G : get (str "amount") e = Num (Number.parseFloat (selectedAmount (state w))))
    by reflexivity.
  assert (T : totalSpent (state (calculateTotal (expenses (state w) ++ [e])
                                   (with_state (setExpenses (expenses (state w) ++ [e])) w')))
              = (total_of (expenses (state w))
                 + Number.parseFloat (selectedAmount (state w)))%float).
  { cbn [calculateTotal with_state state setTotalSpent totalSpent].
    apply total_of_snoc; assumption. }
  destruct io_ok; [destruct (JSON.stringify (of_list (expenses (state w) ++ [e]))) |];
    (split; [reflexivity |]); (split; [exact G |]);
    (split; [apply positive_of_guard; assumption |]);
    (split; [exact T | reflexivity]).
Qed.

Lemma confirm_appends_witness :
  expenses (state (onPressAdd sample_pending 1700000000000 (str "11/2/2026") true initial))
  = [newExpense sample_pending 1700000000000 (str "11/2/2026")].
Proof.
  pose (w := with_state (setSelectedAmount (str "12.5"))
               (with_state (setMerchant (str "Corner Shop"))
                  (with_state (setReceiptPhoto (Str (str "file:///r.jpg")))
                     (with_state (Scanner.setExtractedText (str "TOTAL 12.50")) initial)))).
  assert (D : alerts (addExpense w) = alerts w ++ [AddExpense sample_pending])
    by (vm_compute; reflexivity).
  pose proof (confirm_appends w initial sample_pending 1700000000000 (str "11/2/2026")
                true D) as K.
  destruct K as [E _]. exact E.
Defined.

(** X10: the 'Add to Budget' handler shows the invalid-amount alert
    exactly when the button's own test disables it or the parsed amount is
    at most 0: an enabled button still leads to the alert for [0] and for
    a negative amount. *)
Theorem addExpense_rejects_iff (w : World) :
  alerts (addExpense w) = alerts w ++ [InvalidAmount]
  <-> addDisabled (state w) = true
      \/ (Number.parseFloat (selectedAmount (state w)) <=? 0)%float = true.
Proof.
  unfold addExpense, addDisabled.
  destruct (negb (truthy (Str (selectedAmount (state w))))
            || Number.isNaN (Number.parseFloat (selectedAmount (state w))))%bool;
    cbn [orb].
  - split; [left; reflexivity | reflexivity].
  - destruct (Number.parseFloat (selectedAmount (state w)) <=? 0)%float.
    + split; [right; reflexivity | reflexivity].
    + cbn [Alert_alert alerts]. split.
      * intros E. apply app_inv_head in E. discriminate E.
      * intros [E | E]; discriminate E.
Qed.

(** ** Deleting again *)

Lemma deleteExpense_expenses (expenseId : value) (io_ok : bool) (w : World) :
  expenses (state (deleteExpense expenseId io_ok w))
  = List.filter (fun expense => negb (strict_equals (get (str "id") expense) expenseId))
                (expenses (state w))
  /\ totalSpent (state (deleteExpense expenseId io_ok w))
     = total_of (expenses (state (deleteExpense expenseId io_ok w))).
Proof.
  unfold deleteExpense, saveExpenses.
  destruct io_ok; [destruct (JSON.stringify _) |]; split; reflexivity.
Qed.

Lemma filter_twice (A : Type) (f : A -> bool) (l : list A) :
  List.filter f (List.filter f l) = List.filter f l.
Proof.
  induction l as [| a l IH]; [reflexivity |]. cbn [List.filter].
  destruct (f a) eqn:E; [| exact IH]. cbn [List.filter]. rewrite E, IH. reflexivity.
Qed.

Lemma filter_all (A : Type) (f : A -> bool) (l : list A) :
  (forall a, In a l -> f a = true) -> List.filter f l = l.
Proof.
  induction l as [| a l IH]; intros H; [reflexivity |]. cbn [List.filter].
  rewrite (H a (or_introl eq_refl)), IH; [reflexivity |].
  intros b Hb. apply H. right. exact Hb.
Qed.

(** X11: deleting with an identifier that no record has leaves the
    expense list as it is. *)
Theorem deleteExpense_absent (expenseId : value) (io_ok : bool) (w : World) :
  (forall e, In e (expenses (state w)) ->
             strict_equals (get (str "id") e) expenseId = false) ->
  expenses (state (deleteExpense expenseId io_ok w)) = expenses (state w).
Proof.
  intros H. rewrite (proj1 (deleteExpense_expenses expenseId io_ok w)).
  apply filter_all. intros e He. rewrite (H e He). reflexivity.
Qed.

Lemma deleteExpense_absent_witness :
  expenses (state (deleteExpense Undefined true
                     (with_state (setExpenses sample_expenses) initial)))
  = sample_expenses.
Proof.
  apply (deleteExpense_absent Undefined true
           (with_state (setExpenses sample_expenses) initial)).
  intros e H. cbn in H.
  destruct H as [<- | [<- | [<- | []]]]; reflexivity.
Defined.

(** X12: deleting with the same identifier a second time changes
    neither the expense list nor the total. *)
Theorem deleteExpense_twice (expenseId : value) (io_ok io_ok' : bool) (w : World) :
  expenses (state (deleteExpense expenseId io_ok' (deleteExpense expenseId io_ok w)))
  = expenses (state (deleteExpense expenseId io_ok w))
  /\ totalSpent (state (deleteExpense expenseId io_ok' (deleteExpense expenseId io_ok w)))
     = totalSpent (state (deleteExpense expenseId io_ok w)).
Proof.
  assert (T : expenses (state (deleteExpense expenseId io_ok' (deleteExpense expenseId io_ok w)))
              = expenses (state (deleteExpense expenseId io_ok w))).
  { rewrite (proj1 (deleteExpense_expenses expenseId io_ok' _)).
    rewrite (proj1 (deleteExpense_expenses expenseId io_ok w)). apply filter_twice. }
  split; [exact T |].
  rewrite (proj2 (deleteExpense_expenses expenseId io_ok' _)).
  rewrite (proj2 (deleteExpense_expenses expenseId io_ok w)). rewrite T. reflexivity.
Qed.

(** ** The list of recent expenses *)

(** X13: the list shows at most five records, all of them expenses, the
    newest first: a record just added is the first row, followed by the
    four added before it. *)
Theorem recentExpenses_newest_first (l : list object) (e : object) :
  recentExpenses (l ++ [e]) = e :: firstn 4 (List.rev l)
  /\ List.length (recentExpenses l) <= 5
  /\ (forall x, In x (recentExpenses l) -> In x l).
Proof.
  unfold recentExpenses. split; [| split].
  - rewrite rev_app_distr. reflexivity.
  - rewrite length_firstn. lia.
  - intros x H. apply In_rev. rewrite <- (firstn_skipn 5 (List.rev l)).
    apply in_or_app. left. exact H.
Qed.

Lemma rows_spec (toFixed : float -> nat -> jsstring) (l : list object) :
  match rows toFixed l with
  | Ok rs => List.length rs = List.length l
             /\ Forall (fun e => exists x, get (str "amount") e = Num x) l
  | TypeError => Exists (fun e => forall x, get (str "amount") e <> Num x) l
  | OutOfFuel => False
  end.
Proof.
  induction l as [| e l IH]; cbn [rows]; [split; [reflexivity | constructor] |].
  unfold amountText.
  destruct (get (str "amount") e) as [| | b | x | t | a | o] eqn:G;
    try (apply Exists_cons_hd; intros x; rewrite G; discriminate).
  destruct (rows toFixed l) as [rs | |].
  - destruct IH as [L F]. split; [cbn [List.length]; rewrite L; reflexivity |].
    constructor; [exists x; exact G | exact F].
  - apply Exists_cons_tl. exact IH.
  - exact IH.
Qed.

(** X14: drawing the rows of the expense list throws a [TypeError] exactly
    when the amount of one of the records is not a number, and otherwise
    gives one row for each record. *)
Theorem rows_throw_iff (toFixed : float -> nat -> jsstring) (l : list object) :
  (rows toFixed l = TypeError
   <-> Exists (fun e => forall x, get (str "amount") e <> Num x) l)
  /\ ((exists rs, rows toFixed l = Ok rs /\ List.length rs = List.length l)
      <-> Forall (fun e => exists x, get (str "amount") e = Num x) l).
Proof.
  pose proof (rows_spec toFixed l) as R.
  assert (X : Exists (fun e => forall x, get (str "amount") e <> Num x) l ->
              Forall (fun e => exists x, get (str "amount") e = Num x) l -> False).
  { intros E F. rewrite Exists_exists in E. rewrite Forall_forall in F.
    destruct E as (e & He & N). destruct (F e He) as (x & G). exact (N x G). }
  destruct (rows toFixed l) as [rs | |]; [| | contradiction R].
  - destruct R as [L F]. split; split.
    + discriminate 1.
    + intros E. contradiction (X E F).
    + intros _. exact F.
    + intros _. exists rs. split; [reflexivity | exact L].
  - split; split.
    + intros _. exact R.
    + reflexivity.
    + intros (rs & E & _). discriminate E.
    + intros F. contradiction (X R F).
Qed.

(** ** Through the store *)

Lemma loadExpenses_document (l : list object) (w : World) :
  getItem (str "expenses") (storage w)
  = Some (JArr (List.map (fun e => JObj (members e)) l)) ->
  expenses (state (loadExpenses true w)) = List.map stored l.
Proof.
  intros G. unfold loadExpenses. rewrite G.
  unfold JSON.parse. cbn [revive]. rewrite map_map. cbn [revive].
  rewrite <- (map_map stored Obj). rewrite to_list_map_Obj. reflexivity.
Qed.

Lemma load_save (l : list object) (w : World) :
  expenses (state (loadExpenses true (saveExpenses l true w))) = List.map stored l.
Proof.
  apply loadExpenses_document. unfold saveExpenses. rewrite stringify_of_list.
  reflexivity.
Qed.

Lemma value_nested_ind (P : value -> Prop) :
  P Undefined -> P Null -> (forall b, P (Bool b)) -> (forall x, P (Num x)) ->
  (forall s, P (Str s)) ->
  (forall l, Forall P l -> P (Arr l)) ->
  (forall ps, Forall (fun kv => P (snd kv)) ps -> P (Obj ps)) ->
  forall v, P v.
Proof.
  intros HU HN HB HNum HS HA HO. fix IH 1. intros [| | b | x | s | l | ps].
  - exact HU.
  - exact HN.
  - apply HB.
  - apply HNum.
  - apply HS.
  - apply HA. induction l as [| v l IHl]; constructor; [apply IH | exact IHl].
  - apply HO. induction ps as [| [k v] ps IHps]; constructor; [apply IH | exact IHps].
Qed.

Lemma is_finite_zero_or (x : float) :
  is_finite x = true ->
  is_finite (if (x =? 0)%float then zero else x) = true
  /\ (if ((if (x =? 0)%float then zero else x) =? 0)%float
      then zero else (if (x =? 0)%float then zero else x))
     = (if (x =? 0)%float then zero else x).
Proof.
  intros F. destruct (x =? 0)%float eqn:Z.
  - split; reflexivity.
  - split; [exact F |]. rewrite Z. reflexivity.
Qed.

Lemma serialize_revive (v : value) :
  forall j, serialize v = Some j -> serialize (revive j) = Some j.
Proof.
  induction v as [| | b | x | s | l IH | ps IH] using value_nested_ind;
    intros j E; cbn [serialize] in E; try discriminate E;
    injection E as <-; try reflexivity.
  - destruct (is_finite x) eqn:F; [| reflexivity].
    cbn [revive serialize]. destruct (is_finite_zero_or x F) as [F' Z'].
    rewrite F', Z'. reflexivity.
  - cbn [revive serialize]. f_equal. f_equal. rewrite !map_map.
    induction IH as [| v l Hv _ IHl]; [reflexivity |].
    cbn [map]. rewrite IHl. f_equal.
    destruct (serialize v) as [j |] eqn:S; [rewrite (Hv j eq_refl) |]; reflexivity.
  - cbn [revive serialize]. f_equal. f_equal.
    induction IH as [| [k v] ps Hv _ IHps]; [reflexivity |].
    cbn [flat_map fst snd] in *.
    destruct (serialize v) as [j |] eqn:S; [| exact IHps].
    cbn [app map flat_map fst snd]. rewrite (Hv j eq_refl). cbn [app].
    f_equal. exact IHps.
Qed.

Lemma members_stored (e : object) : members (stored e) = members e.
Proof.
  unfold stored, members. induction e as [| [k v] e IH]; [reflexivity |].
  cbn [flat_map fst snd].
  destruct (serialize v) as [j |] eqn:S; [| exact IH].
  cbn [app map flat_map fst snd]. rewrite (serialize_revive v j S). cbn [app].
  f_equal. exact IH.
Qed.

Lemma stored_stored (e : object) : stored (stored e) = stored e.
Proof. unfold stored at 1. rewrite members_stored. reflexivity. Qed.

(** X15: what was saved and loaded once goes through the store unchanged
    from then on: saving the loaded list writes the same document, and
    loading it gives the same list. *)
Theorem reload_is_stable (l : list object) (w w' : World) :
  let loaded := expenses (state (loadExpenses true (saveExpenses l true w))) in
  getItem (str "expenses") (storage (saveExpenses loaded true w'))
  = getItem (str "expenses") (storage (saveExpenses l true w))
  /\ expenses (state (loadExpenses true (saveExpenses loaded true w'))) = loaded.
Proof.
  cbv zeta. rewrite (load_save l w). split.
  - unfold saveExpenses. rewrite !stringify_of_list. cbn [storage].
    rewrite !getItem_setItem. f_equal. f_equal. rewrite map_map.
    apply map_ext. intros e. rewrite members_stored. reflexivity.
  - rewrite (load_save _ w'). rewrite map_map.
    apply map_ext. intros e. apply stored_stored.
Qed.

Lemma stored_infinite (c : pending) (now : N) (today : jsstring) :
  p_amount c = infinity ->
  get (str "amount") (stored (newExpense c now today)) = Null.
Proof.
  intros A. unfold stored, members, newExpense.
  cbn [flat_map fst snd serialize app map revive]. rewrite A. reflexivity.
Qed.

(** X16: an amount that is not finite, confirmed and saved, comes back
    from the store as [null], and drawing the expense list then throws a
    [TypeError]. *)
Theorem infinite_amount_breaks_list (toFixed : float -> nat -> jsstring) (c : pending)
        (now : N) (today : jsstring) (w : World) :
  p_amount c = infinity ->
  let reloaded := loadExpenses true (onPressAdd c now today true w) in
  expenses (state reloaded)
  = List.map stored (p_expenses c) ++ [stored (newExpense c now today)]
  /\ get (str "amount") (stored (newExpense c now today)) = Null
  /\ recentRows toFixed (state reloaded) = TypeError.
Proof.
  intros A. cbv zeta.
  assert (E : expenses (state (loadExpenses true (onPressAdd c now today true w)))
              = List.map stored (p_expenses c ++ [newExpense c now today])).
  { apply loadExpenses_document. unfold onPressAdd, saveExpenses.
    rewrite stringify_of_list. reflexivity. }
  unfold recentRows. rewrite E, map_app. cbn [map].
  split; [reflexivity |]. split; [exact (stored_infinite c now today A) |].
  unfold recentExpenses. rewrite rev_app_distr.
  cbn [List.rev app firstn rows]. unfold amountText.
  rewrite (stored_infinite c now today A). reflexivity.
Qed.

Lemma infinite_amount_breaks_list_witness :
  recentRows (fun _ _ => [])
             (state (loadExpenses true
                       (onPressAdd infinite_pending 1700000000000 (str "11/2/2026")
                                   true initial)))
  = TypeError.
Proof.
  pose proof (infinite_amount_breaks_list (fun _ _ => []) infinite_pending
                1700000000000 (str "11/2/2026") initial eq_refl) as K.
  destruct K as (_ & _ & E). exact E.
Defined.

(** ** From the scan to the dialog *)

Lemma merchant_of_nonempty (text clean : jsstring) :
  merchant_of text = Some clean -> clean <> [].
Proof.
  unfold merchant_of. destruct (lines text) as [| line rest]; [discriminate 1 |].
  destruct (cleanMerchant (JSString.trim line)) as [| c t]; [discriminate 1 |].
  intros [= <-]. discriminate 1.
Qed.

(** X17: after a picked receipt is scanned, with at least one amount
    found and an amount text that parses back to the amount, 'Add to
    Budget' opens the confirmation for the largest amount found, the
    cleaned merchant (or 'Unknown Merchant'), the picked photo and the
    recognized text, over the expenses as they were. *)
Theorem scan_then_add (toString : float -> jsstring) (error : string -> notice)
        (r : response) (uri : value) (others : list value) (blocks : list jsstring)
        (largest : float) (smaller : list float) (d : Device) :
  assets r = uri :: others ->
  detected (fullText blocks) = largest :: smaller ->
  Number.parseFloat (toString largest) = largest ->
  alerts (addExpense (world (picked toString error r (inr blocks) d)))
  = alerts (world d)
    ++ [AddExpense {| p_amount := largest;
                      p_merchantName := match merchant_of (fullText blocks) with
                                        | Some clean => clean
                                        | None => str "Unknown Merchant"
                                        end;
                      p_expenses := expenses (state (world d));
                      p_receiptPhoto := uri;
                      p_extractedText := fullText blocks |}].
Proof.
  intros A D T.
  destruct (picked_fields toString error r uri others blocks d A)
    as (F1 & F2 & _ & F4 & F5).
  rewrite D in F4.
  assert (L : ledger (picked toString error r (inr blocks) d) = ledger d).
  { unfold picked. rewrite A. rewrite extractTextFromImage_ledger. reflexivity. }
  unfold ledger in L.
  pose proof (f_equal (fun t => fst (fst (fst t))) L) as L1.
  pose proof (f_equal snd L) as L4.
  cbn [fst snd] in L1, L4. clear L.
  pose proof (detected_in_range (fullText blocks)) as R. rewrite D in R.
  pose proof (Forall_inv R) as Rx.
  pose proof (posfin_not_nan largest (in_range_posfin largest Rx)) as N.
  destruct (in_range_leb largest Rx) as [Z _].
  unfold addExpense. rewrite F4, T, N, Z.
  destruct (toString largest) as [| a t] eqn:S.
  - rewrite <- T in N. vm_compute in N. discriminate N.
  - cbn [truthy negb orb Alert_alert alerts]. rewrite L4, L1, F1, F2, F5.
    f_equal. f_equal. f_equal. f_equal.
    destruct (merchant_of (fullText blocks)) as [clean |] eqn:M; [| reflexivity].
    destruct clean as [| c clean]; [| reflexivity].
    contradiction (merchant_of_nonempty _ _ M). reflexivity.
Qed.

Lemma scan_then_add_witness :
  alerts (addExpense
            (world (picked (fun _ => str "12.34") CameraError
                      {| assets := [Str (str "file:///r.jpg")]; errorMessage := None |}
                      (inr [str "Joe's Cafe"; str "TOTAL $12.34"]) start)))
  = [AddExpense {| p_amount := 12.34%float; p_merchantName := str "Joes Cafe";
                   p_expenses := []; p_receiptPhoto := Str (str "file:///r.jpg");
                   p_extractedText := fullText [str "Joe's Cafe"; str "TOTAL $12.34"] |}].
Proof.
  assert (D : detected (fullText [str "Joe's Cafe"; str "TOTAL $12.34"])
              = [12.34%float; 1%float]) by (vm_compute; reflexivity).
  assert (T : Number.parseFloat (str "12.34") = 12.34%float) by (vm_compute; reflexivity).
  assert (M : merchant_of (fullText [str "Joe's Cafe"; str "TOTAL $12.34"])
              = Some (str "Joes Cafe")) by (vm_compute; reflexivity).
  pose proof (scan_then_add (fun _ => str "12.34") CameraError
                {| assets := [Str (str "file:///r.jpg")]; errorMessage := None |}
                (Str (str "file:///r.jpg")) []
                [str "Joe's Cafe"; str "TOTAL $12.34"] 12.34%float [1%float] start
                eq_refl D T) as K.
  rewrite M in K. exact K.
Defined.

(** X18: when the write to the store fails, 'Add' still puts the record
    in the list and shows the success alert; the failure is only logged,
    the store keeps the list saved before, and loading brings that
    earlier list back. *)
Theorem failed_save_reports_success (c : pending) (now : N) (today : jsstring)
        (w : World) (saved : list object) :
  getItem (str "expenses") (storage w)
  = Some (JArr (List.map (fun e => JObj (members e)) saved)) ->
  let w' := onPressAdd c now today false w in
  alerts w' = alerts w ++ [Success (p_amount c)]
  /\ errors w' = errors w ++ ["Error saving expenses:"%string]
  /\ storage w' = storage w
  /\ expenses (state w') = p_expenses c ++ [newExpense c now today]
  /\ expenses (state (loadExpenses true w')) = List.map stored saved.
Proof.
  intros G. cbv zeta. repeat split.
  apply loadExpenses_document. exact G.
Qed.

Lemma failed_save_reports_success_witness :
  expenses (state (loadExpenses true
                     (onPressAdd sample_pending 1700000000000 (str "11/2/2026") false
                                 (saveExpenses [] true initial))))
  = [].
Proof.
  pose proof (failed_save_reports_success sample_pending 1700000000000 (str "11/2/2026")
                (saveExpenses [] true initial) [] eq_refl) as K.
  destruct K as (_ & _ & _ & _ & E). exact E.
Defined.

(** ** The anime converter *)

Import AnimeConverter.

Lemma preprocessImage_returns (imagePath : jsstring) (random : nat -> float) (n : nat) :
  exists t n', preprocessImage imagePath random n = (Return t, n').
Proof. unfold preprocessImage. eexists. eexists. reflexivity. Qed.

(** C7: the tensor [preprocessImage] builds is the same for every path (it
    is filled from the random source); when [processImageWithAI] returns,
    it returns its argument; so after a successful [processCurrentPhoto]
    the processed photo is the original photo. *)
Theorem inference_is_placeholder :
  (forall (p1 p2 : jsstring) (random : nat -> float) (n : nat),
      preprocessImage p1 random n = preprocessImage p2 random n)
  /\ (forall (imagePath : jsstring) (random : nat -> float) (n : nat)
             (st : AnimeConverter.State),
         match processImageWithAI imagePath random n st with
         | (Return processedPath, _, _) => processedPath = imagePath
         | (Throw _, _, _) => True
         end)
  /\ (forall (random : nat -> float) (n : nat) (st : AnimeConverter.State),
         match processCurrentPhoto random n st with
         | (AnimeConverter.Success, _, st') => processedPhoto st' = originalPhoto st
         | _ => True
         end).
Proof.
  assert (P : forall imagePath random n st,
             match processImageWithAI imagePath random n st with
             | (Return processedPath, _, st') =>
                 processedPath = imagePath /\ originalPhoto st' = originalPhoto st
             | (Throw _, _, _) => True
             end).
  { intros imagePath random n st. unfold processImageWithAI.
    destruct (session st) as [s |]; [| exact I].
    destruct (preprocessImage_returns imagePath random n) as (t & n' & E). rewrite E.
    destruct (run s _) as [msg | results]; [exact I |].
    match goal with |- context [match ?o with Some _ => _ | None => _ end] =>
      destruct o; [split; reflexivity | exact I] end. }
  split; [reflexivity |]. split.
  - intros imagePath random n st. specialize (P imagePath random n st).
    destruct (processImageWithAI imagePath random n st) as [[[p | msg] n'] st'];
      [exact (proj1 P) | exact I].
  - intros random n st. unfold processCurrentPhoto.
    destruct (originalPhoto st) as [[| c photo] |] eqn:O; try exact I.
    destruct (session st) eqn:S; [| exact I].
    specialize (P (c :: photo) random n st).
    destruct (processImageWithAI (c :: photo) random n st) as [[[p | msg] n'] st'];
      [| exact I].
    destruct P as [-> _]. reflexivity.
Qed.

Example processImageWithAI_returns_its_argument :
  fst (fst (processImageWithAI (str "file:///photo.jpg") (fun _ => 0.25%float) 0
              {| session := Some sample_session;
                 originalPhoto := Some (str "file:///photo.jpg");
                 processedPhoto := None; isProcessing := false |}))
  = Return (str "file:///photo.jpg").
Proof. lazy. reflexivity. Qed.

Import Converter.

(** ** The handlers of the converter *)

Lemma preprocessImage_tensor (imagePath : jsstring) (random : nat -> float) (n : nat) :
  exists t, preprocessImage imagePath random n = (Return t, n + tensor_length)
            /\ dims t = [1; 3; 224; 224]
            /\ type t = "float32"%string
            /\ List.length (data t) = tensor_length.
Proof.
  unfold preprocessImage, tensor_length. eexists. split; [reflexivity |].
  split; [reflexivity |]. split; [reflexivity |].
  cbn [data]. rewrite length_map, length_seq. reflexivity.
Qed.

Lemma processImageWithAI_spec (imagePath : jsstring) (random : nat -> float) (n : nat)
      (st : State) :
  let '(result, n', st') := processImageWithAI imagePath random n st in
  session st' = session st /\ originalPhoto st' = originalPhoto st
  /\ processedPhoto st' = processedPhoto st
  /\ (forall path, result = Return path -> path = imagePath)
  /\ match session st with
     | None => n' = n /\ st' = st /\ result = Throw "AI model not loaded"
     | Some _ => n' = n + tensor_length /\ isProcessing st' = false
     end.
Proof.
  unfold processImageWithAI. destruct (session st) as [s |] eqn:S.
  - destruct (preprocessImage_tensor imagePath random n) as (t & E & _). rewrite E.
    destruct (run s _) as [message | results].
    + cbn [session originalPhoto processedPhoto setIsProcessing isProcessing].
      repeat split; try assumption. discriminate 1.
    + match goal with |- context [match ?o with Some _ => _ | None => _ end] =>
        destruct o end;
        cbn [session originalPhoto processedPhoto setIsProcessing isProcessing];
        repeat split; try assumption; try discriminate 1.
      intros path [= <-]. reflexivity.
  - repeat split; try assumption. discriminate 1.
Qed.

(** X19: the tensor [preprocessImage] builds is well formed: it holds as
    many values as its dimensions [1; 3; 224; 224] announce, and building
    it takes that many calls to [Math.random]. *)
Theorem tensor_well_formed (imagePath : jsstring) (random : nat -> float) (n : nat) :
  exists t, preprocessImage imagePath random n = (Return t, n + volume (dims t))
            /\ dims t = [1; 3; 224; 224]
            /\ type t = "float32"%string
            /\ List.length (data t) = volume (dims t).
Proof.
  destruct (preprocessImage_tensor imagePath random n) as (t & E & D & T & L).
  exists t. assert (V : volume (dims t) = tensor_length).
  { rewrite D. unfold volume, tensor_length. cbn [fold_right]. lia. }
  rewrite V. repeat split; assumption.
Qed.

(** X20: [loadModel] sets the session exactly when the file check, the
    copy (asked for only when the file is missing) and the creation of
    the session all succeed; it then shows no alert and reports the
    model's input names. In every other case it shows one 'Model Error'
    alert, reports the failure, and leaves the state as it was. *)
Theorem loadModel_outcomes (fileExists : string + bool) (copied : option string)
        (created : string + Session) (st : State) :
  let '(status, shown, st') := loadModel fileExists copied created st in
  (exists modelSession,
      (fileExists = inr true \/ (fileExists = inr false /\ copied = None))
      /\ created = inr modelSession
      /\ st' = setSession (Some modelSession) st /\ shown = []
      /\ status = (str "AI Model Ready (" ++ JSString.join (str ", ") (inputNames modelSession)
                       ++ str ")")%list)
  \/ ((exists message, shown = [ModelError ("Failed to load AI model: " ++ message)])
      /\ ~ (exists modelSession,
               (fileExists = inr true \/ (fileExists = inr false /\ copied = None))
               /\ created = inr modelSession)
      /\ st' = st /\ status = str "AI Model Failed to Load").
Proof.
  unfold loadModel.
  destruct fileExists as [message | [|]].
  - right. split; [eexists; reflexivity |]. split; [| split; reflexivity].
    intros (s & [E | [E _]] & _); discriminate E.
  - destruct created as [message | modelSession].
    + right. split; [eexists; reflexivity |]. split; [| split; reflexivity].
      intros (s & _ & E); discriminate E.
    + left. exists modelSession. repeat split. left. reflexivity.
  - destruct copied as [message |].
    + right. split; [eexists; reflexivity |]. split; [| split; reflexivity].
      intros (s & [E | [_ E]] & _); discriminate E.
    + destruct created as [message | modelSession].
      * right. split; [eexists; reflexivity |]. split; [| split; reflexivity].
        intros (s & _ & E); discriminate E.
      * left. exists modelSession. repeat split. right. split; reflexivity.
Qed.

Lemma picked_spec (error : string -> notice) (r : response) (random : nat -> float)
      (n : nat) (st : State) :
  (forall message, ~ tells_success (error message)) ->
  let '(shown, n', st') := picked error r random n st in
  session st' = session st
  /\ match assets r with
     | [] => st' = st /\ n' = n /\ ~ Exists tells_success shown
     | uri :: _ =>
         originalPhoto st' = Some uri
         /\ match session st with
            | None => n' = n /\ processedPhoto st' = None
                      /\ isProcessing st' = isProcessing st /\ shown = []
            | Some _ =>
                n' = n + tensor_length /\ isProcessing st' = false
                /\ ((processedPhoto st' = Some uri /\ shown = [Processed Success])
                    \/ (processedPhoto st' = None /\ ~ Exists tells_success shown))
            end
     end.
Proof.
  intros NE. unfold picked. destruct (assets r) as [| uri others].
  - destruct (errorMessage r) as [[| a m] |]; repeat split;
      intros X; inversion X as [? ? H | ? ? H]; subst;
      [exact (NE _ H) | inversion H].
  - destruct (session st) as [s |] eqn:S.
    + pose proof (processImageWithAI_spec uri random n
                    (setProcessedPhoto None (setOriginalPhoto (Some uri) st))) as P.
      destruct (processImageWithAI uri random n _) as [[[path | message] n'] st'].
      * destruct P as (P1 & P2 & P3 & P4 & P5).
        cbn [session setProcessedPhoto setOriginalPhoto] in P5. rewrite S in P5.
        destruct P5 as [P5 P6]. rewrite (P4 path eq_refl).
        cbn [session originalPhoto processedPhoto isProcessing setProcessedPhoto
             setOriginalPhoto] in *.
        split; [congruence |]. split; [exact P2 |]. split; [exact P5 |].
        split; [exact P6 |]. left. split; reflexivity.
      * destruct P as (P1 & P2 & P3 & P4 & P5).
        cbn [session setProcessedPhoto setOriginalPhoto] in P5. rewrite S in P5.
        destruct P5 as [P5 P6].
        cbn [session originalPhoto processedPhoto isProcessing setProcessedPhoto
             setOriginalPhoto] in *.
        split; [congruence |]. split; [exact P2 |]. split; [exact P5 |].
        split; [exact P6 |]. right. split; [exact P3 |].
        intros X; inversion X as [? ? H | ? ? H]; subst; [discriminate H | inversion H].
    + cbn [session originalPhoto processedPhoto isProcessing setProcessedPhoto
           setOriginalPhoto].
      repeat split; congruence.
Qed.


Lemma handler_settled (handler : nat -> State -> list notice * nat * State)
      (android : bool) (request : option bool) (error : string -> notice) (r : response)
      (random : nat -> float) (n : nat) (st : State) :
  (forall message, ~ tells_success (error message)) ->
  handler n st
  = (let '(hasPermission, shown) := requestPermissions android request in
     if negb hasPermission then (shown, n, st) else picked error r random n st) ->
  converter_settled (n, st) ->
  converter_settled (snd (fst (handler n st)), snd (handler n st)).
Proof.
  intros NE -> H. destruct (requestPermissions android request) as [[|] shown];
    cbn [negb]; [| exact H].
  pose proof (picked_spec error r random n st NE) as P.
  destruct (picked error r random n st) as [[shown' n'] st'].
  unfold converter_settled in *. cbn [fst snd] in *.
  destruct P as [S P]. destruct H as (I & Q & k & K).
  destruct (assets r) as [| uri others].
  - destruct P as (-> & -> & _).
    split; [exact I |]. split; [exact Q |]. exists k. exact K.
  - destruct P as [O P]. destruct (session st) as [s |] eqn:E.
    + destruct P as (-> & I' & [[P _] | [P _]]).
      * split; [exact I' |]. split; [right; split; [congruence | congruence] |].
        exists (Datatypes.S k). rewrite K. symmetry. apply Nat.mul_succ_l.
      * split; [exact I' |]. split; [left; exact P |].
        exists (Datatypes.S k). rewrite K. symmetry. apply Nat.mul_succ_l.
    + destruct P as (-> & P & I' & _). split; [congruence |]. split; [left; exact P |].
      exists k. exact K.
Qed.

Lemma processCurrentPhoto_spec (random : nat -> float) (n : nat) (st : State) :
  let '(shown, n', st') := processCurrentPhoto random n st in
  session st' = session st /\ originalPhoto st' = originalPhoto st
  /\ match session st with
     | None => n' = n /\ st' = st /\ shown <> Success
     | Some _ =>
         (st' = st /\ n' = n /\ shown = NoPhoto)
         \/ (n' = n + tensor_length /\ isProcessing st' = false
             /\ ((shown = Success /\ processedPhoto st' = originalPhoto st)
                 \/ (shown <> Success /\ processedPhoto st' = processedPhoto st)))
     end.
Proof.
  unfold processCurrentPhoto.
  destruct (originalPhoto st) as [[| c photo] |] eqn:O.
  - destruct (session st); repeat split; try assumption; try discriminate 1.
    left. repeat split.
  - destruct (session st) as [s |] eqn:E;
      [| repeat split; try assumption; discriminate 1].
    pose proof (processImageWithAI_spec (c :: photo) random n st) as P.
    destruct (processImageWithAI (c :: photo) random n st) as [[[path | message] n'] st'];
      destruct P as (P1 & P2 & P3 & P4 & P5); rewrite E in P5; destruct P5 as [P5 P6];
      cbn [session originalPhoto processedPhoto isProcessing setProcessedPhoto].
    + rewrite (P4 path eq_refl). split; [congruence |]. split; [congruence |].
      right. split; [exact P5 |]. split; [exact P6 |]. left. split; reflexivity.
    + split; [congruence |]. split; [congruence |].
      right. split; [exact P5 |]. split; [exact P6 |].
      right. split; [discriminate 1 | exact P3].
  - destruct (session st); repeat split; try assumption; try discriminate 1.
    left. repeat split.
Qed.

Lemma converter_step_settled (random : nat -> float) (x y : nat * State) :
  converter_step random x y -> converter_settled x -> converter_settled y.
Proof.
  intros St H. destruct St.
  - unfold converter_settled in *. cbn [fst snd] in *.
    destruct H as (I & Q & K). unfold loadModel.
    assert (G : forall s, isProcessing (setSession (Some s) st) = false
                          /\ (processedPhoto (setSession (Some s) st) = None
                              \/ (processedPhoto (setSession (Some s) st)
                                  = originalPhoto (setSession (Some s) st)
                                  /\ session (setSession (Some s) st) <> None))
                          /\ exists k, n = k * tensor_length).
    { intros s. split; [exact I |]. split; [| exact K].
      destruct Q as [Q | [Q _]]; [left; exact Q | right; split; [exact Q | discriminate 1]]. }
    destruct fileExists as [message | [|]]; try (repeat split; assumption).
    + destruct created as [message | s]; [repeat split; assumption | apply G].
    + destruct copied as [message |]; [repeat split; assumption |].
      destruct created as [message | s]; [repeat split; assumption | apply G].
  - apply (handler_settled (takePhoto android request r random)
             android request CameraError r random n st); [discriminate 1 | reflexivity | exact H].
  - apply (handler_settled (selectFromGallery android request r random)
             android request GalleryError r random n st); [discriminate 1 | reflexivity | exact H].
  - pose proof (processCurrentPhoto_spec random n st) as P.
    destruct (processCurrentPhoto random n st) as [[shown n'] st'].
    unfold converter_settled in *. cbn [fst snd] in *.
    destruct P as (S & O & P). destruct H as (I & Q & k & K).
    destruct (session st) as [s |] eqn:E.
    + destruct P as [(-> & -> & _) | (-> & I' & [[_ P] | [_ P]])].
      * split; [exact I |]. split; [rewrite E; exact Q |]. exists k. exact K.
      * split; [exact I' |]. split; [right; split; congruence |].
        exists (Datatypes.S k). rewrite K. symmetry. apply Nat.mul_succ_l.
      * split; [exact I' |]. split.
        -- destruct Q as [Q | [Q _]]; [left; congruence | right; split; congruence].
        -- exists (Datatypes.S k). rewrite K. symmetry. apply Nat.mul_succ_l.
    + destruct P as (-> & -> & _).
      split; [exact I |]. split; [rewrite E; exact Q |]. exists k. exact K.
  - unfold converter_settled in *. cbn [fst snd] in *.
    destruct H as (I & _ & K). split; [exact I |]. split; [left; reflexivity | exact K].
Qed.

(** X21: after every run of handlers of the converter no processing is
    in progress, the processed photo is either absent or the original
    photo itself (and then a model is loaded), and [Math.random] has been
    called a whole number of tensors' worth of times; hence what 'Save to
    Gallery' hands to the camera roll is the original photo. *)
Theorem converter_saves_original (random : nat -> float) (n : nat) (st : State) :
  converter_reachable random (n, st) ->
  converter_settled (n, st)
  /\ forall saved path, fst (saveToGallery saved st) = Some path ->
                        originalPhoto st = Some path.
Proof.
  intros R.
  assert (H : converter_settled (n, st)).
  { remember (n, st) as x eqn:X. clear X. induction R as [| x y _ IH St].
    - split; [reflexivity |]. split; [left; reflexivity |]. exists 0. reflexivity.
    - exact (converter_step_settled random x y St IH). }
  split; [exact H |]. intros saved path. unfold saveToGallery.
  destruct H as (_ & [Q | [Q _]] & _); cbn [snd] in Q.
  - rewrite Q. discriminate 1.
  - rewrite <- Q. destruct (processedPhoto st) as [[| c p] |]; [discriminate 1 | | discriminate 1].
    destruct saved; intros [= <-]; reflexivity.
Qed.

Lemma converter_saves_original_witness :
  converter_settled
    (snd (fst (processCurrentPhoto (fun _ => 0.25%float) 0
                 (setOriginalPhoto (Some (str "file:///p.jpg")) Converter.initial))),
     snd (processCurrentPhoto (fun _ => 0.25%float) 0
            (setOriginalPhoto (Some (str "file:///p.jpg")) Converter.initial))).
Proof.
  apply (converter_saves_original (fun _ => 0.25%float)).
  eapply converter_next; [| apply converter_process].
  change (0, setOriginalPhoto (Some (str "file:///p.jpg")) Converter.initial)
    with (snd (fst (takePhoto false None
                      {| assets := [str "file:///p.jpg"]; errorMessage := None |}
                      (fun _ => 0.25%float) 0 Converter.initial)),
          snd (takePhoto false None
                 {| assets := [str "file:///p.jpg"]; errorMessage := None |}
                 (fun _ => 0.25%float) 0 Converter.initial)).
  eapply converter_next; [apply converter_boot | apply converter_camera].
Defined.


